(** * JAN live perception pipeline: frame diffing, PCM16 codec, playback
      queue, live session and tool selection.

    A shallow embedding of the TypeScript sources
      - [lib/useScreenCapture.ts]   (compareFrames, getAdaptiveQuality,
                                     captureFrame, the capture loop)
      - [lib/audio-recorder.ts]     (AudioRecorder)
      - [lib/audio-streamer.ts]     (AudioStreamer)
      - [lib/genai-live-client.ts]  (GenAILiveClient)
      - [contexts/LiveAPIContext]   (LiveAPIProvider)
      - [services/contextService]   (buildContextualRequest)
    followed by the theorems that settle the specification's claims. *)

From Stdlib Require Import ZArith QArith Qround Qabs Lqa List String Ascii Bool Lia.
From Stdlib Require Import DecimalString DecimalNat.
Import ListNotations.

Local Open Scope Z_scope.

(* ===================================================================== *)
(** ** JavaScript numbers                                                 *)
(* ===================================================================== *)

(** The numbers that flow through the modelled code are integers and
    quotients of small integers.  A JS number is modelled by its exact
    rational value, with the three non-finite values kept apart because
    comparisons against them steer control flow ([NaN < x] is false). *)
Module Js.

Inductive number : Type :=
| NaN
| NegInf
| Fin (q : Q)
| PosInf.

(** [a < b] *)
Definition lt (a b : number) : bool :=
  match a, b with
  | NaN, _ | _, NaN => false
  | NegInf, NegInf => false
  | NegInf, _ => true
  | Fin _, NegInf => false
  | Fin x, Fin y => if Qlt_le_dec x y then true else false
  | Fin _, PosInf => true
  | PosInf, _ => false
  end.

(** [a == b] on numbers *)
Definition eqb (a b : number) : bool :=
  match a, b with
  | NegInf, NegInf | PosInf, PosInf => true
  | Fin x, Fin y => Qeq_bool x y
  | _, _ => false
  end.

(** [a >= b] *)
Definition ge (a b : number) : bool :=
  match a, b with
  | NaN, _ | _, NaN => false
  | _, NegInf => true
  | NegInf, _ => false
  | PosInf, _ => true
  | Fin _, PosInf => false
  | Fin x, Fin y => if Qlt_le_dec x y then false else true
  end.

(** [a <= b] *)
Definition le (a b : number) : bool := ge b a.

(** [a > b] *)
Definition gt (a b : number) : bool := lt b a.

(** [m / s] for two integers: [0/0] is NaN, [k/0] an infinity. *)
Definition div_int (m s : Z) : number :=
  if s =? 0 then
    (if m =? 0 then NaN else if 0 <? m then PosInf else NegInf)
  else Fin (inject_Z m / inject_Z s).

(** The finite numbers of the closed unit interval. *)
Definition in_unit_interval (a : number) : Prop :=
  match a with
  | Fin q => (0 <= q /\ q <= 1)%Q
  | _ => False
  end.

End Js.

(* ===================================================================== *)
(** ** lib/useScreenCapture.ts                                            *)
(* ===================================================================== *)

Module ScreenCapture.

(** [jpegQuality: number | 'auto'] *)
Inductive jpeg_quality : Type :=
| Auto
| Quality (q : Q).

Record ScreenCaptureConfig : Type := {
  minIntervalMs : Z;
  maxIntervalMs : Z;
  idleTimeoutMs : Z;
  diffThreshold : Js.number;
  jpegQuality : jpeg_quality;
  diffSampleSize : Z
}.

Definition DEFAULT_SCREEN_CAPTURE_CONFIG : ScreenCaptureConfig := {|
  minIntervalMs := 500;
  maxIntervalMs := 2000;
  idleTimeoutMs := 3000;
  diffThreshold := Js.Fin (95 # 100);
  jpegQuality := Quality (75 # 100);
  diffSampleSize := 100
|}.

(** A [Uint8ClampedArray]: RGBA bytes, four per pixel. *)
Definition PixelBuffer : Type := list Z.

(** [data[i]]: reading outside the array gives [undefined]. *)
Definition read (data : PixelBuffer) (i : Z) : option Z :=
  if i <? 0 then None else nth_error data (Z.to_nat i).

(** [Math.abs(a[i] - b[j])]; [undefined] operands make it NaN ([None]). *)
Definition absDiff (x y : option Z) : option Z :=
  match x, y with
  | Some a, Some b => Some (Z.abs (a - b))
  | _, _ => None
  end.

(** [d <= bound], false on NaN *)
Definition leTol (d : option Z) (bound : Z) : bool :=
  match d with Some v => v <=? bound | None => false end.

(** [d > bound], false on NaN *)
Definition gtTol (d : option Z) (bound : Z) : bool :=
  match d with Some v => bound <? v | None => false end.

Definition tolerance : Z := 10.

(** The test in the body of the sampling loop, at sample [i]. *)
Definition pixelMatches (currentData previousData : PixelBuffer)
           (step i : Z) : bool :=
  let pixelIndex := (i * step) * 4 in
  let rDiff := absDiff (read currentData pixelIndex)
                       (read previousData pixelIndex) in
  let gDiff := absDiff (read currentData (pixelIndex + 1))
                       (read previousData (pixelIndex + 1)) in
  let bDiff := absDiff (read currentData (pixelIndex + 2))
                       (read previousData (pixelIndex + 2)) in
  leTol rDiff tolerance && leTol gDiff tolerance && leTol bDiff tolerance.

(** [for (let i = i0; ...; i++) if (...) matchCount++], [n] rounds. *)
Fixpoint sampleLoop (currentData previousData : PixelBuffer) (step : Z)
         (n : nat) (i matchCount : Z) : Z :=
  match n with
  | O => matchCount
  | S n' =>
      let matchCount' :=
        if pixelMatches currentData previousData step i
        then matchCount + 1 else matchCount in
      sampleLoop currentData previousData step n' (i + 1) matchCount'
  end.

Section WithConfig.

Variable config : ScreenCaptureConfig.

Definition sampleSizeOf (width height : Z) : Z :=
  Z.min (diffSampleSize config) (width * height).

Definition matchCountOf (currentData previousData : PixelBuffer)
           (width height : Z) : Z :=
  let sampleSize := sampleSizeOf width height in
  let step := (width * height) / sampleSize in
  sampleLoop currentData previousData step (Z.to_nat sampleSize) 0 0.

(** [compareFrames]: the similarity score of two frames. *)
Definition compareFrames (currentData previousData : PixelBuffer)
           (width height : Z) : Js.number :=
  if negb (Nat.eqb (List.length currentData) (List.length previousData))
  then Js.Fin 0
  else
    Js.div_int (matchCountOf currentData previousData width height)
               (sampleSizeOf width height).

(** The edge test in the body of the quality loop, at sample [i]. *)
Definition sharpEdge (imageData : PixelBuffer) (step i : Z) : bool :=
  let pixelIndex := (i * step) * 4 in
  let nextPixelIndex := ((i * step) + 1) * 4 in
  gtTol (absDiff (read imageData pixelIndex)
                 (read imageData nextPixelIndex)) 30.

Fixpoint edgeLoop (imageData : PixelBuffer) (step : Z)
         (n : nat) (i edgeCount : Z) : Z :=
  match n with
  | O => edgeCount
  | S n' =>
      edgeLoop imageData step n' (i + 1)
               (if sharpEdge imageData step i
                then edgeCount + 1 else edgeCount)
  end.

(** [getAdaptiveQuality] *)
Definition getAdaptiveQuality (imageData : PixelBuffer)
           (width height : Z) : Q :=
  match jpegQuality config with
  | Quality q => q
  | Auto =>
      let sampleSize := 50 in
      let step := (width * height) / sampleSize in
      let edgeCount := edgeLoop imageData step 48 1 0 in
      let edgeRatio := (inject_Z edgeCount / inject_Z sampleSize)%Q in
      if Qlt_le_dec (3 # 10) edgeRatio then (85 # 100)%Q
      else if Qlt_le_dec (15 # 100) edgeRatio then (75 # 100)%Q
      else (65 # 100)%Q
  end.

End WithConfig.

(** *** The hook's state and [captureFrame] *)

(** The [<video>] element behind [videoRef.current]; [videoPixels] is
    what [drawImage] followed by [getImageData(0, 0, width, height)]
    reads back from it. *)
Record Video : Type := {
  videoWidth : Z;
  videoHeight : Z;
  videoPixels : PixelBuffer
}.

Record Canvas : Type := {
  canvasWidth : Z;
  canvasHeight : Z
}.

Record CapturedFrame : Type := {
  data : option string;
  width : Z;
  height : Z;
  timestamp : Z;
  isKeyFrame : bool;
  similarity : Js.number
}.

(** What one call observes of its surroundings. *)
Record Env : Type := {
  video : option Video;          (* videoRef.current *)
  context2d : bool;              (* getContext('2d') succeeds *)
  now : Z                        (* Date.now() *)
}.

(** The refs and the React state of [useScreenCapture]. *)
Record Hook : Type := {
  canvasRef : option Canvas;
  ctxRef : bool;
  previousFrameDataRef : option PixelBuffer;
  lastActivityRef : Z;
  frameCountRef : Z;
  skippedCountRef : Z;
  currentIntervalMs : Z;
  isIdle : bool;
  frameCount : Z;
  skippedCount : Z
}.

(** [s.split(',')]: the pieces of [s] between commas. *)
Fixpoint splitComma (s : string) : list string :=
  match s with
  | EmptyString => [EmptyString]
  | String c rest =>
      if Ascii.eqb c ","%char then EmptyString :: splitComma rest
      else match splitComma rest with
           | [] => [String c EmptyString]
           | piece :: pieces => String c piece :: pieces
           end
  end.

Section WithCanvas.

Variable config : ScreenCaptureConfig.

(** [canvas.toDataURL('image/jpeg', quality)] for a canvas holding the
    given pixels. *)
Variable toDataURL : Canvas -> PixelBuffer -> Q -> string.

Definition initialHook : Hook := {|
  canvasRef := None;
  ctxRef := false;
  previousFrameDataRef := None;
  lastActivityRef := 0;
  frameCountRef := 0;
  skippedCountRef := 0;
  currentIntervalMs := minIntervalMs config;
  isIdle := false;
  frameCount := 0;
  skippedCount := 0
|}.

(** [getCanvas]: the canvas is created on first use (300 x 150 is the
    size of a fresh canvas element). *)
Definition getCanvas (env : Env) (h : Hook) : Hook :=
  match canvasRef h with
  | Some _ => h
  | None =>
      {| canvasRef := Some {| canvasWidth := 300; canvasHeight := 150 |};
         ctxRef := context2d env;
         previousFrameDataRef := previousFrameDataRef h;
         lastActivityRef := lastActivityRef h;
         frameCountRef := frameCountRef h;
         skippedCountRef := skippedCountRef h;
         currentIntervalMs := currentIntervalMs h;
         isIdle := isIdle h;
         frameCount := frameCount h;
         skippedCount := skippedCount h |}
  end.

(** [canvas.width = width; canvas.height = height] when they differ. *)
Definition resizeCanvas (w hgt : Z) (h : Hook) : Hook :=
  {| canvasRef :=
       match canvasRef h with
       | Some c =>
           if negb (canvasWidth c =? w) || negb (canvasHeight c =? hgt)
           then Some {| canvasWidth := w; canvasHeight := hgt |}
           else Some c
       | None => None
       end;
     ctxRef := ctxRef h;
     previousFrameDataRef := previousFrameDataRef h;
     lastActivityRef := lastActivityRef h;
     frameCountRef := frameCountRef h;
     skippedCountRef := skippedCountRef h;
     currentIntervalMs := currentIntervalMs h;
     isIdle := isIdle h;
     frameCount := frameCount h;
     skippedCount := skippedCount h |}.

(** [skippedCountRef.current++; setSkippedCount(skippedCountRef.current)] *)
Definition skipFrame (h : Hook) : Hook :=
  {| canvasRef := canvasRef h;
     ctxRef := ctxRef h;
     previousFrameDataRef := previousFrameDataRef h;
     lastActivityRef := lastActivityRef h;
     frameCountRef := frameCountRef h;
     skippedCountRef := skippedCountRef h + 1;
     currentIntervalMs := currentIntervalMs h;
     isIdle := isIdle h;
     frameCount := frameCount h;
     skippedCount := skippedCountRef h + 1 |}.

(** [previousFrameDataRef.current = new Uint8ClampedArray(currentData)]
    and, after encoding,
    [frameCountRef.current++; setFrameCount(frameCountRef.current)]. *)
Definition acceptFrame (currentData : PixelBuffer) (h : Hook) : Hook :=
  {| canvasRef := canvasRef h;
     ctxRef := ctxRef h;
     previousFrameDataRef := Some currentData;
     lastActivityRef := lastActivityRef h;
     frameCountRef := frameCountRef h + 1;
     skippedCountRef := skippedCountRef h;
     currentIntervalMs := currentIntervalMs h;
     isIdle := isIdle h;
     frameCount := frameCountRef h + 1;
     skippedCount := skippedCount h |}.

Definition canvasOf (h : Hook) : Canvas :=
  match canvasRef h with
  | Some c => c
  | None => {| canvasWidth := 300; canvasHeight := 150 |}
  end.

(** [captureFrame]: the frame handed back, if any, and the hook after
    the call. *)
Definition captureFrame (env : Env) (h : Hook)
  : option CapturedFrame * Hook :=
  match video env with
  | None => (None, h)
  | Some v =>
      if (videoWidth v =? 0) || (videoHeight v =? 0) then (None, h)
      else
        let h1 := getCanvas env h in
        if negb (ctxRef h1) then (None, h1)
        else
          let w := videoWidth v in
          let hgt := videoHeight v in
          let h2 := resizeCanvas w hgt h1 in
          let currentData := videoPixels v in
          let '(sim, keyFrame) :=
            match previousFrameDataRef h2 with
            | Some previousData =>
                let s := compareFrames config currentData previousData
                                       w hgt in
                (s, Js.lt s (diffThreshold config))
            | None => (Js.Fin 0, true)
            end in
          match previousFrameDataRef h2, keyFrame with
          | Some _, false => (None, skipFrame h2)
          | _, _ =>
              let quality :=
                getAdaptiveQuality config currentData w hgt in
              let dataUrl := toDataURL (canvasOf h2) currentData quality in
              let base64Data := nth_error (splitComma dataUrl) 1 in
              (Some {| data := base64Data;
                       width := w;
                       height := hgt;
                       timestamp := now env;
                       isKeyFrame := keyFrame;
                       similarity := sim |},
               acceptFrame currentData h2)
          end
  end.

(** One tick of [runCaptureLoop]: re-evaluate idleness, capture, and
    hand the frame to [onFrame] when both exist.  The second component
    lists the frames delivered to the callback. *)
Definition runCaptureLoop (onFrame : bool) (env : Env) (h : Hook)
  : Hook * list CapturedFrame :=
  let timeSinceActivity := now env - lastActivityRef h in
  let shouldBeIdle := idleTimeoutMs config <? timeSinceActivity in
  let h0 :=
    if Bool.eqb shouldBeIdle (isIdle h) then h
    else
      {| canvasRef := canvasRef h;
         ctxRef := ctxRef h;
         previousFrameDataRef := previousFrameDataRef h;
         lastActivityRef := lastActivityRef h;
         frameCountRef := frameCountRef h;
         skippedCountRef := skippedCountRef h;
         currentIntervalMs :=
           if shouldBeIdle then maxIntervalMs config
           else minIntervalMs config;
         isIdle := shouldBeIdle;
         frameCount := frameCount h;
         skippedCount := skippedCount h |} in
  match captureFrame env h0 with
  | (Some frame, h') => (h', if onFrame then [frame] else [])
  | (None, h') => (h', [])
  end.

(** The call finds a loaded video and a drawing context, so it gets
    as far as the comparison with the previous frame. *)
Definition reachesComparison (env : Env) (h : Hook) (v : Video) : Prop :=
  video env = Some v /\ videoWidth v <> 0 /\ videoHeight v <> 0
  /\ ctxRef (getCanvas env h) = true.

(** The similarity such a call computes against the stored frame. *)
Definition similarityTo (v : Video) (previousData : PixelBuffer)
  : Js.number :=
  compareFrames config (videoPixels v) previousData
                (videoWidth v) (videoHeight v).

(** A run of calls, one per observed surrounding: what each call saw and
    returned, and the hook at the end. *)
Fixpoint captureSequence (envs : list Env) (h : Hook)
  : list (Env * option CapturedFrame) * Hook :=
  match envs with
  | [] => ([], h)
  | env :: rest =>
      let '(result, h') := captureFrame env h in
      let '(calls, final) := captureSequence rest h' in
      ((env, result) :: calls, final)
  end.

(** The pixels of the last call of a run that returned a frame, or
    [start] when none did. *)
Fixpoint lastAccepted (calls : list (Env * option CapturedFrame))
         (start : option PixelBuffer) : option PixelBuffer :=
  match calls with
  | [] => start
  | (env, result) :: rest =>
      lastAccepted rest
        (match result, video env with
         | Some _, Some v => Some (videoPixels v)
         | _, _ => start
         end)
  end.

(** The effect run when [enabled] turns false. *)
Definition resetOnDisable (h : Hook) : Hook :=
  {| canvasRef := canvasRef h;
     ctxRef := ctxRef h;
     previousFrameDataRef := None;
     lastActivityRef := lastActivityRef h;
     frameCountRef := 0;
     skippedCountRef := 0;
     currentIntervalMs := currentIntervalMs h;
     isIdle := isIdle h;
     frameCount := 0;
     skippedCount := 0 |}.

End WithCanvas.

End ScreenCapture.

(* ===================================================================== *)
(** ** lib/audio-recorder.ts                                              *)
(* ===================================================================== *)

Module AudioRecorder.

(** *** [floatTo16BitPCM] *)

(** Samples are float32 values widened to doubles.  A float32 has a 24-bit
    significand and the two scale factors fit in 16 bits, so the products
    below are exact in double precision: on finite samples the rational
    model computes what the code computes. *)

(** [Math.max(-1, Math.min(1, x))] *)
Definition clampUnit (x : Js.number) : Js.number :=
  match x with
  | Js.NaN => Js.NaN
  | Js.NegInf => Js.Fin (-1)
  | Js.PosInf => Js.Fin 1
  | Js.Fin q =>
      let m := if Qlt_le_dec 1 q then 1%Q else q in       (* Math.min(1, q) *)
      Js.Fin (if Qlt_le_dec m (-1) then (-1)%Q else m)    (* Math.max(-1, m) *)
  end.

(** [s < 0 ? s * 0x8000 : s * 0x7FFF] *)
Definition scaleSample (s : Js.number) : Js.number :=
  match s with
  | Js.Fin q =>
      if Js.lt s (Js.Fin 0) then Js.Fin (q * 32768) else Js.Fin (q * 32767)
  | Js.NaN => Js.NaN
  | Js.NegInf => Js.NegInf
  | Js.PosInf => Js.PosInf
  end.

(** Rounding toward zero, the first step of [ToInt16]. *)
Definition truncate (q : Q) : Z :=
  if Qlt_le_dec q 0 then Qceiling q else Qfloor q.

(** [ToInt16]: non-finite values become 0, finite ones are truncated and
    wrapped into [-32768, 32767]. *)
Definition toInt16 (s : Js.number) : Z :=
  match s with
  | Js.Fin q => (truncate q + 32768) mod 65536 - 32768
  | _ => 0
  end.

(** [DataView.setInt16(offset, v, true)]: the two bytes, low one first. *)
Definition setInt16LE (v : Z) : list Z :=
  let u := Z.land v 65535 in
  [Z.land u 255; Z.shiftr u 8].

(** The value stored for one sample. *)
Definition sampleToInt16 (x : Js.number) : Z :=
  toInt16 (scaleSample (clampUnit x)).

(** [floatTo16BitPCM(input)]: the bytes of the returned [ArrayBuffer]. *)
Fixpoint floatTo16BitPCM (input : list Js.number) : list Z :=
  match input with
  | [] => []
  | x :: rest => setInt16LE (sampleToInt16 x) ++ floatTo16BitPCM rest
  end.

(** *** The microphone graph *)

(** The browser resources the recorder allocates.  Handles are numbered
    in allocation order; a resource stays live until it is stopped,
    closed or disconnected, whether or not anything still refers to it. *)
Record Browser : Type := {
  mediaDevices : bool;               (* navigator.mediaDevices.getUserMedia *)
  micPermission : bool;              (* getUserMedia resolves *)
  nextHandle : nat;
  liveStreams : list nat;            (* MediaStreams with running tracks *)
  openContexts : list nat;           (* AudioContexts not yet closed *)
  sourceNodes : list nat;            (* connected MediaStreamAudioSourceNodes *)
  processorNodes : list nat          (* connected ScriptProcessorNodes *)
}.

Record Recorder : Type := {
  stream : option nat;
  audioContext : option nat;
  source : option nat;
  processor : option nat;
  sampleRate : Z
}.

Definition newRecorder : Recorder := {|
  stream := None; audioContext := None; source := None; processor := None;
  sampleRate := 16000
|}.

Inductive StartError : Type :=
| InsecureContext        (* the 'secure context' Error thrown by start *)
| MicrophoneDenied.      (* getUserMedia rejected *)

Definition remove (h : nat) (l : list nat) : list nat :=
  filter (fun x => negb (Nat.eqb x h)) l.

(** [start()]: on success the four fields are overwritten with freshly
    allocated resources. *)
Definition start (r : Recorder) (b : Browser)
  : (unit + StartError) * Recorder * Browser :=
  if negb (mediaDevices b) then (inr InsecureContext, r, b)
  else if negb (micPermission b) then (inr MicrophoneDenied, r, b)
  else
    let s := nextHandle b in
    let c := S s in
    let src := S c in
    let p := S src in
    (inl tt,
     {| stream := Some s; audioContext := Some c;
        source := Some src; processor := Some p;
        sampleRate := sampleRate r |},
     {| mediaDevices := mediaDevices b;
        micPermission := micPermission b;
        nextHandle := S p;
        liveStreams := liveStreams b ++ [s];
        openContexts := openContexts b ++ [c];
        sourceNodes := sourceNodes b ++ [src];
        processorNodes := processorNodes b ++ [p] |}).

(** [stop()] *)
Definition stop (r : Recorder) (b : Browser) : Recorder * Browser :=
  let '(srcs, procs) :=
    match processor r, source r with
    | Some p, Some src => (remove src (sourceNodes b),
                           remove p (processorNodes b))
    | _, _ => (sourceNodes b, processorNodes b)
    end in
  let streams :=
    match stream r with
    | Some s => remove s (liveStreams b)
    | None => liveStreams b
    end in
  let contexts :=
    match audioContext r with
    | Some c => remove c (openContexts b)
    | None => openContexts b
    end in
  ({| stream := None; audioContext := None; source := None;
      processor := None; sampleRate := sampleRate r |},
   {| mediaDevices := mediaDevices b;
      micPermission := micPermission b;
      nextHandle := nextHandle b;
      liveStreams := streams;
      openContexts := contexts;
      sourceNodes := srcs;
      processorNodes := procs |}).

(** One block of microphone input: every connected processor node runs
    its [onaudioprocess], which emits one ['data'] event carrying the
    encoded block. *)
Definition audioProcess (b : Browser) (inputData : list Js.number)
  : list (list Z) :=
  map (fun _ => floatTo16BitPCM inputData) (processorNodes b).

End AudioRecorder.

(* ===================================================================== *)
(** ** lib/audio-streamer.ts                                              *)
(* ===================================================================== *)

Module AudioStreamer.

(** *** Decoding in [addPCM16] *)

(** [DataView.getInt16(offset, true)] on the two bytes at [offset]. *)
Definition getInt16LE (b0 b1 : Z) : Z :=
  let u := Z.lor b0 (Z.shiftl b1 8) in
  if 32768 <=? u then u - 65536 else u.

(** The decoding loop of [addPCM16]: [float32Array[i] = int16 / 32768]
    for each pair of bytes.  A trailing odd byte makes [getInt16] read
    past the buffer, which raises a RangeError ([None]).  The loop reads
    [chunk.buffer] from byte 0, so [chunk] stands for a [Uint8Array] that
    is its whole buffer, as the provider makes it with
    [new Uint8Array(len)]. *)
Fixpoint pcm16ToFloat (chunk : list Z) : option (list Q) :=
  match chunk with
  | [] => Some []
  | [_] => None
  | b0 :: b1 :: rest =>
      match pcm16ToFloat rest with
      | Some samples => Some ((inject_Z (getInt16LE b0 b1) / 32768)%Q :: samples)
      | None => None
      end
  end.

(** *** The queue *)

Record Streamer : Type := {
  audioQueue : list (list Q);
  isPlaying : bool;
  isStreamComplete : bool
}.

Definition newStreamer : Streamer := {|
  audioQueue := []; isPlaying := false; isStreamComplete := false
|}.

(** Time is counted in sample periods of the 24 kHz output context, so a
    buffer of [n] samples lasts [n] ticks and a millisecond is 24. *)
Definition sampleRate : Z := 24000.
Definition ticksPerMs : Z := sampleRate / 1000.
Definition initialBufferTime : Z := 100.   (* ms *)

(** What the host may call back into the streamer. *)
Inductive Task : Type :=
| BufferTimer       (* the setTimeout of addPCM16 *)
| SourceEnded       (* source.onended *)
| GainReset.        (* the setTimeout of stop *)

(** The host with a deterministic clock: pending callbacks ordered by
    due time, the log of [source.start(0)] calls with the time each was
    made, and the number of [onComplete] calls. *)
Record World : Type := {
  streamer : Streamer;
  clock : Z;
  tasks : list (Z * Task);
  started : list (Z * list Q);
  completed : nat
}.

Definition newWorld (t0 : Z) : World := {|
  streamer := newStreamer; clock := t0; tasks := [];
  started := []; completed := 0
|}.

(** Registering a callback due at [t], behind those due no later. *)
Fixpoint schedule (t : Z) (k : Task) (ts : list (Z * Task))
  : list (Z * Task) :=
  match ts with
  | [] => [(t, k)]
  | (t', k') :: rest =>
      if t' <=? t then (t', k') :: schedule t k rest
      else (t, k) :: ts
  end.

(** [addPCM16(chunk)]; [None] when decoding throws. *)
Definition addPCM16 (chunk : list Z) (w : World) : option World :=
  match pcm16ToFloat chunk with
  | None => None
  | Some float32Array =>
      let q := audioQueue (streamer w) ++ [float32Array] in
      if negb (isPlaying (streamer w)) then
        Some {| streamer := {| audioQueue := q; isPlaying := true;
                               isStreamComplete :=
                                 isStreamComplete (streamer w) |};
                clock := clock w;
                tasks := schedule (clock w + initialBufferTime * ticksPerMs)
                                  BufferTimer (tasks w);
                started := started w;
                completed := completed w |}
      else
        Some {| streamer := {| audioQueue := q;
                               isPlaying := isPlaying (streamer w);
                               isStreamComplete :=
                                 isStreamComplete (streamer w) |};
                clock := clock w;
                tasks := tasks w;
                started := started w;
                completed := completed w |}
  end.

(** [scheduleNextBuffer()].  [createBuffer] refuses a length of zero
    (NotSupportedError): the callback then dies after the [shift], and
    nothing is started. *)
Definition scheduleNextBuffer (w : World) : World :=
  match audioQueue (streamer w) with
  | [] =>
      if isStreamComplete (streamer w) then
        {| streamer := {| audioQueue := []; isPlaying := false;
                          isStreamComplete := true |};
           clock := clock w; tasks := tasks w; started := started w;
           completed := S (completed w) |}
      else w
  | audioData :: rest =>
      let s := {| audioQueue := rest;
                  isPlaying := isPlaying (streamer w);
                  isStreamComplete := isStreamComplete (streamer w) |} in
      if (Z.of_nat (List.length audioData) =? 0) then
        {| streamer := s; clock := clock w; tasks := tasks w;
           started := started w; completed := completed w |}
      else
        {| streamer := s;
           clock := clock w;
           tasks := schedule (clock w + Z.of_nat (List.length audioData))
                             SourceEnded (tasks w);
           started := started w ++ [(clock w, audioData)];
           completed := completed w |}
  end.

(** [stop()] *)
Definition stop (w : World) : World :=
  {| streamer := {| audioQueue := []; isPlaying := false;
                    isStreamComplete := true |};
     clock := clock w;
     tasks := schedule (clock w + 200 * ticksPerMs) GainReset (tasks w);
     started := started w;
     completed := completed w |}.

(** Running one callback. *)
Definition runTask (k : Task) (w : World) : World :=
  match k with
  | BufferTimer | SourceEnded => scheduleNextBuffer w
  | GainReset => w
  end.

(** The world in which the head callback, due at [t'], has been taken
    off the list and is about to run. *)
Definition firing (w : World) (t' : Z) : World :=
  {| streamer := streamer w; clock := Z.max (clock w) t';
     tasks := tl (tasks w);
     started := started w; completed := completed w |}.

(** The host's loop: run, in order, the callbacks due by time [t]. *)
Fixpoint runDue (fuel : nat) (t : Z) (w : World) : World :=
  match fuel with
  | O => w
  | S fuel' =>
      match tasks w with
      | (t', k) :: _ =>
          if t' <=? t then runDue fuel' t (runTask k (firing w t')) else w
      | [] => w
      end
  end.

(** Every callback run removes itself and registers at most one new one,
    and only after taking a buffer off the queue: this many rounds are
    enough. *)
Definition enoughFuel (w : World) : nat :=
  List.length (tasks w) + List.length (audioQueue (streamer w)).

(** Let the clock reach [t], running what falls due on the way. *)
Definition advanceTo (t : Z) (w : World) : World :=
  let w' := runDue (enoughFuel w) t w in
  {| streamer := streamer w'; clock := Z.max (clock w') t;
     tasks := tasks w'; started := started w'; completed := completed w' |}.

(** A chunk arriving at time [t]. *)
Definition arrive (w : option World) (a : Z * list Z) : option World :=
  match w with
  | Some w => addPCM16 (snd a) (advanceTo (fst a) w)
  | None => None
  end.

(** Run until no callback is pending. *)
Fixpoint drain (fuel : nat) (w : World) : World :=
  match fuel with
  | O => w
  | S fuel' =>
      match tasks w with
      | (t', k) :: _ => drain fuel' (runTask k (firing w t'))
      | [] => w
      end
  end.

(** The whole experiment: a fresh streamer at time [t0], the chunks
    arriving at the given times, then the host running to quiescence. *)
Definition play (t0 : Z) (arrivals : list (Z * list Z)) : option World :=
  match fold_left arrive arrivals (Some (newWorld t0)) with
  | Some w => Some (drain (enoughFuel w) w)
  | None => None
  end.

End AudioStreamer.

(* ===================================================================== *)
(** ** types.ts and services/contextService.ts                            *)
(* ===================================================================== *)

Module ContextService.

Local Open Scope string_scope.

Definition nl : string := String (ascii_of_nat 10) EmptyString.
Definition dq : string := String (ascii_of_nat 34) EmptyString.

(** A template-literal hole holding a number. *)
Definition showNat (n : nat) : string :=
  DecimalString.NilZero.string_of_uint (Nat.to_uint n).

Inductive Role : Type := RoleUser | RoleModel | RoleSystem.

Record Message : Type := {
  msgId : string;
  role : Role;
  text : string;
  msgTimestamp : Z
}.

Inductive DocumentStatus : Type :=
| Uploading | Indexing | Ready | Failed.

Record UploadedDocument : Type := {
  uri : string;
  docName : string;
  mimeType : string;
  size : Z;
  status : option DocumentStatus
}.

Record FileSearchStore : Type := {
  name : string;
  displayName : string
}.

Inductive ContextSource : Type := Snippet | Sketch | Chat | Live.

Inductive AttachmentType : Type := ImageAttachment | VideoAttachment.

Record Attachment : Type := {
  attType : AttachmentType;
  attData : string;
  attMimeType : option string
}.

Record ContextInput : Type := {
  query : string;
  source : ContextSource;
  screenImage : option string;
  sketchImage : option string;
  attachments : option (list Attachment);
  history : option (list Message);
  ragStore : option FileSearchStore;
  documents : option (list UploadedDocument);
  metadataFilter : option string
}.

Record InlineData : Type := {
  inlineMimeType : string;
  inlineBytes : string
}.

Record ContentPart : Type := {
  partText : option string;
  inlineData : option InlineData
}.

Record FileSearch : Type := {
  fileSearchStoreNames : list string;
  fileSearchFilter : option string
}.

(** [ModelTool]: an object with up to three optional keys. *)
Record ModelTool : Type := {
  googleSearch : option unit;
  fileSearch : option FileSearch;
  codeExecution : option unit
}.

Record Metadata : Type := {
  hasScreenContext : bool;
  hasSketchContext : bool;
  metaHasRagContext : bool;
  historyLength : nat;
  metaSource : ContextSource
}.

Record ContextualRequest : Type := {
  parts : list ContentPart;
  tools : list ModelTool;
  systemInstruction : string;
  metadata : Metadata
}.

(** Truthiness of an optional string: present and not empty. *)
Definition truthy (s : option string) : bool :=
  match s with
  | Some (String _ _) => true
  | _ => false
  end.

(** [d.status === 'ready'] *)
Definition isReady (d : UploadedDocument) : bool :=
  match status d with
  | Some Ready => true
  | _ => false
  end.

(** What follows the first comma of [data], if there is a comma. *)
Fixpoint afterComma (data : string) : option string :=
  match data with
  | EmptyString => None
  | String c rest =>
      if Ascii.eqb c ","%char then Some rest else afterComma rest
  end.

(** [cleanBase64Data] *)
Definition cleanBase64Data (data : string) : string :=
  match afterComma data with
  | Some rest => rest
  | None => data
  end.

Definition BASE_INSTRUCTION : string :=
"You are JAN, an intelligent AI assistant with multimodal capabilities.

CORE CAPABILITIES:
- **Visual Understanding**: You can analyze images including screen captures and sketches.

RESPONSE GUIDELINES:
- Be concise and direct
- Use Markdown formatting
".

Definition SOURCE_INSTRUCTIONS (s : ContextSource) : string :=
  match s with
  | Snippet => "
CONTEXT: The user has captured a specific region of their screen to ask about.
- Focus your analysis on the captured snippet
- Reference visual elements you observe
- If the snippet contains code, provide specific line-by-line feedback
"
  | Sketch => "
CONTEXT: The user has drawn a sketch/diagram and wants your input.
- Interpret the sketch as a visual concept or wireframe
- Offer constructive feedback on the design
- Suggest improvements or alternatives if appropriate
"
  | Chat => "
CONTEXT: Standard conversational interaction.
- Maintain conversation continuity with history
- Be helpful and proactive
"
  | Live => "
CONTEXT: Real-time voice/video session.
- Responses should be conversational and natural
- You can see the user's screen in real-time
- Keep responses concise for audio playback
"
  end.

Definition imagePart (mime payload : string) : ContentPart :=
  {| partText := None;
     inlineData := Some {| inlineMimeType := mime;
                           inlineBytes := payload |} |}.

(** The attachment loop: images become inline parts, videos are skipped. *)
Fixpoint attachmentParts (l : list Attachment) : list ContentPart :=
  match l with
  | [] => []
  | a :: rest =>
      match attType a with
      | ImageAttachment =>
          imagePart (if truthy (attMimeType a)
                     then match attMimeType a with
                          | Some m => m
                          | None => "image/jpeg"
                          end
                     else "image/jpeg")
                    (cleanBase64Data (attData a))
          :: attachmentParts rest
      | VideoAttachment => attachmentParts rest
      end
  end.

(** [history.slice(-6)] *)
Definition lastSix (l : list Message) : list Message :=
  skipn (List.length l - 6)%nat l.

Definition historyLine (msg : Message) : string :=
  (match role msg with RoleUser => "User" | _ => "Assistant" end)
    ++ ": " ++ text msg ++ nl.

Definition historyContextOf (h : option (list Message)) : string :=
  match h with
  | Some (m :: ms) =>
      fold_left (fun acc msg => acc ++ historyLine msg)
                (lastSix (m :: ms)) ("Previous conversation:" ++ nl)
        ++ nl
  | _ => ""
  end.

(** [buildContextualRequest] *)
Definition buildContextualRequest (input : ContextInput)
  : ContextualRequest :=
  (* 1. visual context *)
  let screenParts :=
    if truthy (screenImage input)
    then match screenImage input with
         | Some img => [imagePart "image/jpeg" (cleanBase64Data img)]
         | None => []
         end
    else [] in
  let sketchParts :=
    if truthy (sketchImage input)
    then match sketchImage input with
         | Some img => [imagePart "image/png" (cleanBase64Data img)]
         | None => []
         end
    else [] in
  let extraParts :=
    match attachments input with
    | Some l => attachmentParts l
    | None => []
    end in
  (* 2. conversation history, 3. user query *)
  let historyContext := historyContextOf (history input) in
  let queryPart :=
    {| partText := Some (historyContext ++ "User Request: " ++ query input);
       inlineData := None |} in
  (* 4. tools *)
  let hasReadyDocs :=
    match documents input with
    | Some docs => existsb isReady docs
    | None => false
    end in
  let hasRagContext :=
    match ragStore input with
    | Some _ => hasReadyDocs
    | None => false
    end in
  let toolList :=
    match hasRagContext, ragStore input with
    | true, Some store =>
        [ {| googleSearch := None;
             fileSearch :=
               Some {| fileSearchStoreNames := [name store];
                       fileSearchFilter :=
                         if truthy (metadataFilter input)
                         then metadataFilter input else None |};
             codeExecution := None |} ]
    | _, _ =>
        [ {| googleSearch := Some tt; fileSearch := None;
             codeExecution := None |} ]
    end in
  (* 5. system instruction *)
  let readyCount :=
    match documents input with
    | Some docs => List.length (filter isReady docs)
    | None => 0%nat
    end in
  let toolInstruction :=
    if hasRagContext then
      nl ++ "KNOWLEDGE BASE ACTIVE: You have access to "
         ++ showNat readyCount
         ++ " indexed document(s) via File Search.
- Use File Search to answer questions about the uploaded documents
- When citing documents, format as: " ++ dq ++ "(Source: [Document Name])" ++ dq ++ "
- If the question is unrelated to uploaded documents, answer from your general knowledge
"
    else "
WEB SEARCH ACTIVE: You have access to Google Search for current information.
- Use web search for current events, facts, or information you're unsure about
- Cite sources when using web results
" in
  {| parts := screenParts ++ sketchParts ++ extraParts ++ [queryPart];
     tools := toolList;
     systemInstruction :=
       BASE_INSTRUCTION ++ SOURCE_INSTRUCTIONS (source input)
                        ++ toolInstruction;
     metadata :=
       {| hasScreenContext := truthy (screenImage input);
          hasSketchContext := truthy (sketchImage input);
          metaHasRagContext := hasRagContext;
          historyLength :=
            match history input with
            | Some h => List.length h
            | None => 0%nat
            end;
          metaSource := source input |} |}.

(** [isRagAvailable] *)
Definition isRagAvailable (store : option FileSearchStore)
           (docs : option (list UploadedDocument)) : bool :=
  match store, docs with
  | Some _, Some l => existsb isReady l
  | _, _ => false
  end.

(** The two kinds of grounding entry a tool array can hold. *)
Definition isFileSearchTool (t : ModelTool) : bool :=
  match fileSearch t with Some _ => true | None => false end.

Definition isWebSearchTool (t : ModelTool) : bool :=
  match googleSearch t with Some _ => true | None => false end.

End ContextService.

(* ===================================================================== *)
(** ** lib/genai-live-client.ts                                           *)
(* ===================================================================== *)

Module GenAILiveClient.

Local Open Scope string_scope.
Import ContextService.

Inductive Modality : Type := AudioModality | ImageModality | TextModality.

Inductive VoiceName : Type := Puck | Charon | Kore | Fenrir | Aoede.

Record LiveConfig : Type := {
  model : string;
  liveSystemInstruction : option string;
  responseModalities : option Modality;
  voiceName : option VoiceName;
  liveTools : option (list ModelTool)
}.

(** The argument of [client.live.connect]. *)
Record ConnectRequest : Type := {
  reqApiKey : string;
  reqModel : string;
  reqResponseModalities : list string;
  reqVoiceName : option VoiceName;
  reqSystemInstruction : option string;
  reqTools : option (list ModelTool)
}.

Record Client : Type := {
  client : option string;          (* the GoogleGenAI object, by its key *)
  session : option nat;            (* the open session, by handle *)
  config : LiveConfig
}.

(** [new GenAILiveClient(config)] *)
Definition newClient (cfg : LiveConfig) : Client :=
  {| client := None; session := None; config := cfg |}.

(** How a call of the async [connect] leaves its synchronous part: with
    an exception (the returned promise is born rejected) or suspended on
    the transport's [live.connect]. *)
Inductive ConnectOutcome : Type :=
| Rejected (message : string)
| Connecting (request : ConnectRequest).

Definition upperModality (m : option Modality) : string :=
  match m with
  | Some AudioModality | None => "AUDIO"
  | Some ImageModality => "IMAGE"
  | Some TextModality => "TEXT"
  end.

(** [connect(apiKey)] up to its [await]. *)
Definition connect (apiKey : option string) (c : Client)
  : ConnectOutcome * Client :=
  match apiKey with
  | Some (String a rest) =>
      let key := String a rest in
      (Connecting
         {| reqApiKey := key;
            reqModel := model (config c);
            reqResponseModalities :=
              [upperModality (responseModalities (config c))];
            reqVoiceName := voiceName (config c);
            reqSystemInstruction := liveSystemInstruction (config c);
            reqTools := liveTools (config c) |},
       {| client := Some key; session := session c; config := config c |})
  | _ => (Rejected "API Key required", c)
  end.

(** The continuation of [connect] once the transport hands back the
    session. *)
Definition connected (handle : nat) (c : Client) : Client :=
  {| client := client c; session := Some handle; config := config c |}.

(** [disconnect()] *)
Definition disconnect (c : Client) : Client :=
  {| client := client c; session := None; config := config c |}.

(** *** Inbound messages *)

Record Part : Type := {
  partTextOf : option string;
  partInline : option InlineData
}.

Record ServerMessage : Type := {
  modelTurn : option (list Part);
  turnComplete : bool;
  toolCall : option string
}.

(** The events re-emitted to subscribers. *)
Inductive Event : Type :=
| Open
| Close
| Content (turn : list Part)
| TextDelta (delta : string)
| TurnComplete
| ToolCall (call : string)
| Error (e : string).

(** [p.text && typeof p.text === 'string'] *)
Definition hasText (p : Part) : bool := truthy (partTextOf p).

Definition textOf (p : Part) : string :=
  match partTextOf p with Some t => t | None => "" end.

(** [onmessage]: the events one inbound message gives rise to, in order. *)
Definition onmessage (msg : ServerMessage) : list Event :=
  (match modelTurn msg with
   | Some turnParts =>
       Content turnParts ::
       (let textParts := filter hasText turnParts in
        match textParts with
        | [] => []
        | _ => [TextDelta (String.concat "" (map textOf textParts))]
        end)
   | None => []
   end)
  ++ (if turnComplete msg then [TurnComplete] else [])
  ++ (match toolCall msg with Some tc => [ToolCall tc] | None => [] end).

End GenAILiveClient.

(* ===================================================================== *)
(** ** contexts/LiveAPIContext.tsx                                        *)
(* ===================================================================== *)

Module LiveAPI.

Local Open Scope string_scope.
Import ContextService.
Import GenAILiveClient.

Inductive LiveStatus : Type :=
| Disconnected | ConnectingStatus | Connected | ErrorStatus.

Record CompletedTurn : Type := {
  id : string;
  turnText : string;
  turnTimestamp : Z
}.

(** The provider's React state and refs, the browser it allocates audio
    resources in, and a record of what it did to the outside: console
    errors, transport requests, and the turns handed to
    [setLastCompletedTurn]. *)
Record Provider : Type := {
  status : LiveStatus;
  isRecording : bool;
  error : option string;
  streamingText : string;
  isStreaming : bool;
  lastCompletedTurn : option CompletedTurn;
  clientRef : option Client;
  audioRecorderRef : option AudioRecorder.Recorder;
  audioStreamerRef : bool;
  audioContextRef : option nat;
  streamingTextRef : string;
  turnIdRef : nat;
  browser : AudioRecorder.Browser;
  consoleErrors : list string;
  transport : list ConnectRequest;
  completedTurns : list CompletedTurn
}.

Definition freshBrowser (devices permission : bool) : AudioRecorder.Browser :=
  {| AudioRecorder.mediaDevices := devices;
     AudioRecorder.micPermission := permission;
     AudioRecorder.nextHandle := 0;
     AudioRecorder.liveStreams := [];
     AudioRecorder.openContexts := [];
     AudioRecorder.sourceNodes := [];
     AudioRecorder.processorNodes := [] |}.

Definition initialProvider (b : AudioRecorder.Browser) : Provider := {|
  status := Disconnected;
  isRecording := false;
  error := None;
  streamingText := "";
  isStreaming := false;
  lastCompletedTurn := None;
  clientRef := None;
  audioRecorderRef := None;
  audioStreamerRef := false;
  audioContextRef := None;
  streamingTextRef := "";
  turnIdRef := 0;
  browser := b;
  consoleErrors := [];
  transport := [];
  completedTurns := []
|}.

(** *** The credential *)

Definition isQuote (c : ascii) : bool :=
  let n := nat_of_ascii c in Nat.eqb n 34 || Nat.eqb n 39.

(** White space as [trim] sees it, among the Latin-1 characters. *)
Definition isSpace (c : ascii) : bool :=
  let n := nat_of_ascii c in
  (Nat.leb 9 n && Nat.leb n 13) || Nat.eqb n 32 || Nat.eqb n 160.

(** [s.replace(/[...]/g, ...)] dropping both kinds of quote *)
Fixpoint stripQuotes (s : string) : string :=
  match s with
  | EmptyString => EmptyString
  | String c rest =>
      if isQuote c then stripQuotes rest else String c (stripQuotes rest)
  end.

Fixpoint trimStart (s : string) : string :=
  match s with
  | EmptyString => EmptyString
  | String c rest => if isSpace c then trimStart rest else s
  end.

Fixpoint trimEnd (s : string) : string :=
  match s with
  | EmptyString => EmptyString
  | String c rest =>
      match trimEnd rest with
      | EmptyString => if isSpace c then EmptyString
                       else String c EmptyString
      | rest' => String c rest'
      end
  end.

(** [getApiKey], given [process.env.API_KEY] *)
Definition getApiKey (apiKeyEnv : option string) : option string :=
  match apiKeyEnv with
  | Some k => Some (trimEnd (trimStart (stripQuotes k)))
  | None => None
  end.

(** *** The session configuration *)

Definition LIVE_SYSTEM_INSTRUCTION : string :=
"
    You are a versatile AI Screen Agent with access to a File Search knowledge base.
    
    PRIMARY INSTRUCTIONS:
    1.  **File Search First**: If the user asks a question, ALWAYS check your File Search tool first if documents are available.
    2.  **Citations**: When you use information from File Search, you MUST cite the source document name. For example: " ++ dq ++ "According to [Document Name]..." ++ dq ++ ".
    3.  **Screen Context**: You can see the user's screen. Use this context to answer questions about what is visible.
    4.  **Response Style**: Be concise, helpful, and friendly. Use Markdown formatting.
    ".

(** The [tools] computed at the head of the provider's effect. *)
Definition liveToolsFor (activeStore : option FileSearchStore)
           (docs : list UploadedDocument) : list ModelTool :=
  let hasRagDocs :=
    match activeStore with
    | Some _ => existsb isReady docs
    | None => false
    end in
  match hasRagDocs, activeStore with
  | true, Some store =>
      [ {| googleSearch := None;
           fileSearch := Some {| fileSearchStoreNames := [name store];
                                 fileSearchFilter := None |};
           codeExecution := None |} ]
  | _, _ =>
      [ {| googleSearch := Some tt; fileSearch := None;
           codeExecution := None |} ]
  end.

(** The [LiveConfig] built by the effect. *)
Definition liveConfigFor (activeStore : option FileSearchStore)
           (docs : list UploadedDocument) : LiveConfig :=
  {| model := "models/gemini-2.5-flash-native-audio-preview-09-2025";
     liveSystemInstruction := Some LIVE_SYSTEM_INSTRUCTION;
     responseModalities := Some AudioModality;
     voiceName := Some Aoede;
     liveTools := Some (liveToolsFor activeStore docs) |}.

(** *** Field updates *)

Definition setStatus (v : LiveStatus) (p : Provider) : Provider :=
  {| status := v; isRecording := isRecording p; error := error p;
     streamingText := streamingText p; isStreaming := isStreaming p;
     lastCompletedTurn := lastCompletedTurn p; clientRef := clientRef p;
     audioRecorderRef := audioRecorderRef p;
     audioStreamerRef := audioStreamerRef p;
     audioContextRef := audioContextRef p;
     streamingTextRef := streamingTextRef p; turnIdRef := turnIdRef p;
     browser := browser p; consoleErrors := consoleErrors p;
     transport := transport p; completedTurns := completedTurns p |}.

Definition setRecording (rec : bool) (err : option string) (p : Provider)
  : Provider :=
  {| status := status p; isRecording := rec; error := err;
     streamingText := streamingText p; isStreaming := isStreaming p;
     lastCompletedTurn := lastCompletedTurn p; clientRef := clientRef p;
     audioRecorderRef := audioRecorderRef p;
     audioStreamerRef := audioStreamerRef p;
     audioContextRef := audioContextRef p;
     streamingTextRef := streamingTextRef p; turnIdRef := turnIdRef p;
     browser := browser p; consoleErrors := consoleErrors p;
     transport := transport p; completedTurns := completedTurns p |}.

Definition setClient (c : option Client) (reqs : list ConnectRequest)
           (p : Provider) : Provider :=
  {| status := status p; isRecording := isRecording p; error := error p;
     streamingText := streamingText p; isStreaming := isStreaming p;
     lastCompletedTurn := lastCompletedTurn p; clientRef := c;
     audioRecorderRef := audioRecorderRef p;
     audioStreamerRef := audioStreamerRef p;
     audioContextRef := audioContextRef p;
     streamingTextRef := streamingTextRef p; turnIdRef := turnIdRef p;
     browser := browser p; consoleErrors := consoleErrors p;
     transport := transport p ++ reqs;
     completedTurns := completedTurns p |}.

Definition logError (msg : string) (p : Provider) : Provider :=
  {| status := status p; isRecording := isRecording p; error := error p;
     streamingText := streamingText p; isStreaming := isStreaming p;
     lastCompletedTurn := lastCompletedTurn p; clientRef := clientRef p;
     audioRecorderRef := audioRecorderRef p;
     audioStreamerRef := audioStreamerRef p;
     audioContextRef := audioContextRef p;
     streamingTextRef := streamingTextRef p; turnIdRef := turnIdRef p;
     browser := browser p; consoleErrors := consoleErrors p ++ [msg];
     transport := transport p; completedTurns := completedTurns p |}.

Definition setAudio (ctx : option nat) (streamerRef : bool)
           (rec : option AudioRecorder.Recorder)
           (b : AudioRecorder.Browser) (p : Provider) : Provider :=
  {| status := status p; isRecording := isRecording p; error := error p;
     streamingText := streamingText p; isStreaming := isStreaming p;
     lastCompletedTurn := lastCompletedTurn p; clientRef := clientRef p;
     audioRecorderRef := rec;
     audioStreamerRef := streamerRef;
     audioContextRef := ctx;
     streamingTextRef := streamingTextRef p; turnIdRef := turnIdRef p;
     browser := b; consoleErrors := consoleErrors p;
     transport := transport p; completedTurns := completedTurns p |}.

(** *** Recording *)

(** [new AudioContext({ sampleRate: 24000 })] for playback. *)
Definition openPlaybackContext (b : AudioRecorder.Browser)
  : nat * AudioRecorder.Browser :=
  (AudioRecorder.nextHandle b,
   {| AudioRecorder.mediaDevices := AudioRecorder.mediaDevices b;
      AudioRecorder.micPermission := AudioRecorder.micPermission b;
      AudioRecorder.nextHandle := S (AudioRecorder.nextHandle b);
      AudioRecorder.liveStreams := AudioRecorder.liveStreams b;
      AudioRecorder.openContexts :=
        AudioRecorder.openContexts b ++ [AudioRecorder.nextHandle b];
      AudioRecorder.sourceNodes := AudioRecorder.sourceNodes b;
      AudioRecorder.processorNodes := AudioRecorder.processorNodes b |}).

Definition startErrorMessage (e : AudioRecorder.StartError) : string :=
  match e with
  | AudioRecorder.InsecureContext =>
      "Microphone access requires a secure context (HTTPS or localhost). Please access this app via https:// or http://localhost"
  | AudioRecorder.MicrophoneDenied =>
      "Failed to access microphone. Please check permissions."
  end.

(** [startRecording()], run to the end of its awaits: the provider once
    the promise of [start()] has settled, nothing else having happened
    in between. *)
Definition startRecording (p : Provider) : Provider :=
  let '(ctx, b1) :=
    match audioContextRef p with
    | Some c => (c, browser p)
    | None => openPlaybackContext (browser p)
    end in
  let rec :=
    match audioRecorderRef p with
    | Some r => r
    | None => AudioRecorder.newRecorder
    end in
  match AudioRecorder.start rec b1 with
  | (inl _, rec', b2) =>
      setRecording true None (setAudio (Some ctx) true (Some rec') b2 p)
  | (inr e, rec', b2) =>
      setRecording (isRecording p) (Some (startErrorMessage e))
        (logError "Failed to start recording"
           (logError "Error starting audio recording:"
              (setAudio (Some ctx) true (Some rec') b2 p)))
  end.

(** [stopRecording()] *)
Definition stopRecording (p : Provider) : Provider :=
  let p1 :=
    match audioRecorderRef p with
    | Some r =>
        let '(r', b') := AudioRecorder.stop r (browser p) in
        setAudio (audioContextRef p) (audioStreamerRef p) (Some r') b' p
    | None => p
    end in
  setRecording false (error p1) p1.

(** *** Connecting *)

(** [connect()], given [process.env.API_KEY] *)
Definition connect (apiKeyEnv : option string) (p : Provider) : Provider :=
  match getApiKey apiKeyEnv with
  | Some (String a rest) =>
      let key := String a rest in
      let p1 := setStatus ConnectingStatus p in
      match clientRef p1 with
      | Some c =>
          match GenAILiveClient.connect (Some key) c with
          | (Connecting req, c') => setClient (Some c') [req] p1
          | (Rejected _, c') => setClient (Some c') [] p1
          end
      | None => p1
      end
  | _ => logError "API Key missing or invalid" p
  end.

(** [disconnect()] *)
Definition disconnect (p : Provider) : Provider :=
  let p1 :=
    match clientRef p with
    | Some c => setClient (Some (GenAILiveClient.disconnect c)) [] p
    | None => p
    end in
  setStatus Disconnected (stopRecording p1).

(** *** The transcript *)

Definition setTranscript (ref shown : string) (streaming : bool)
           (p : Provider) : Provider :=
  {| status := status p; isRecording := isRecording p; error := error p;
     streamingText := shown; isStreaming := streaming;
     lastCompletedTurn := lastCompletedTurn p; clientRef := clientRef p;
     audioRecorderRef := audioRecorderRef p;
     audioStreamerRef := audioStreamerRef p;
     audioContextRef := audioContextRef p;
     streamingTextRef := ref; turnIdRef := turnIdRef p;
     browser := browser p; consoleErrors := consoleErrors p;
     transport := transport p; completedTurns := completedTurns p |}.

(** [turnIdRef.current++; setLastCompletedTurn({...})] *)
Definition completeTurn (finalText : string) (now : Z) (p : Provider)
  : Provider :=
  let n := S (turnIdRef p) in
  let turn := {| id := "live-turn-" ++ showNat n;
                 turnText := finalText;
                 turnTimestamp := now |} in
  {| status := status p; isRecording := isRecording p; error := error p;
     streamingText := streamingText p; isStreaming := isStreaming p;
     lastCompletedTurn := Some turn; clientRef := clientRef p;
     audioRecorderRef := audioRecorderRef p;
     audioStreamerRef := audioStreamerRef p;
     audioContextRef := audioContextRef p;
     streamingTextRef := streamingTextRef p; turnIdRef := n;
     browser := browser p; consoleErrors := consoleErrors p;
     transport := transport p;
     completedTurns := completedTurns p ++ [turn] |}.

(** The ['textDelta'] listener *)
Definition onTextDelta (delta : string) (p : Provider) : Provider :=
  let acc := streamingTextRef p ++ delta in
  setTranscript acc acc true p.

(** The ['turnComplete'] listener; [now] is [Date.now()] *)
Definition onTurnComplete (now : Z) (p : Provider) : Provider :=
  let finalText := streamingTextRef p in
  let p1 :=
    match finalText with
    | String _ _ => completeTurn finalText now p
    | EmptyString => p
    end in
  setTranscript "" "" false p1.

(** The listeners the effect registers on the client, as one handler.
    Audio content goes to the playback queue, which lives in
    [AudioStreamer], and the ['content'] listener is taken to return
    normally; the events without a listener pass unnoticed. *)
Definition handle (now : Z) (p : Provider) (e : Event) : Provider :=
  match e with
  | Open => startRecording (setStatus Connected p)
  | Close => stopRecording (setStatus Disconnected p)
  | TextDelta delta => onTextDelta delta p
  | TurnComplete => onTurnComplete now p
  | Content _ | ToolCall _ | Error _ => p
  end.

(** A run of events, each with the clock reading at its delivery. *)
Definition deliver (events : list (Z * Event)) (p : Provider) : Provider :=
  fold_left (fun q te => handle (fst te) q (snd te)) events p.

(** The body of the effect that follows [activeStore] and [documents]:
    the old client is disconnected and replaced by one holding the new
    configuration. *)
Definition rebuildClient (activeStore : option FileSearchStore)
           (docs : list UploadedDocument) (p : Provider) : Provider :=
  let fresh := newClient (liveConfigFor activeStore docs) in
  let p1 := setClient (Some fresh) [] p in
  match status p with
  | Connected => stopRecording (setStatus Disconnected p1)
  | _ => p1
  end.

End LiveAPI.

(* ===================================================================== *)
(** ** Concrete scenarios                                                 *)
(* ===================================================================== *)

Module Scenario.

Import ScreenCapture.
Local Open Scope string_scope.

(** The configuration App.tsx passes, over the defaults. *)
Definition appConfig : ScreenCaptureConfig := {|
  minIntervalMs := 750;
  maxIntervalMs := 2000;
  idleTimeoutMs := 3000;
  diffThreshold := Js.Fin (92 # 100);
  jpegQuality := Quality (75 # 100);
  diffSampleSize := 100
|}.

Definition jpegStub (_ : Canvas) (_ : PixelBuffer) (_ : Q) : string :=
  "data:image/jpeg;base64,/9j/4AAQSkZJRg==".

(** [k] opaque grey pixels of the given level. *)
Definition solid (k : nat) (level : Z) : PixelBuffer :=
  List.concat (repeat [level; level; level; 255] k).

(** A 5 x 4 screen: the stored frame is black, the new frame differs
    from it in [changed] of its twenty pixels. *)
Definition blackFrame : PixelBuffer := solid 20 0.

Definition frameWith (changed : nat) : PixelBuffer :=
  (solid (20 - changed) 0 ++ solid changed 200)%list.

Definition screen (changed : nat) : Video :=
  {| videoWidth := 5; videoHeight := 4; videoPixels := frameWith changed |}.

Definition showing (changed : nat) : Env :=
  {| video := Some (screen changed); context2d := true; now := 1000 |}.

(** A hook that has accepted three frames and skipped seven, the last
    accepted one being the black frame. *)
Definition runningHook : Hook := {|
  canvasRef := Some {| canvasWidth := 5; canvasHeight := 4 |};
  ctxRef := true;
  previousFrameDataRef := Some blackFrame;
  lastActivityRef := 900;
  frameCountRef := 3;
  skippedCountRef := 7;
  currentIntervalMs := 750;
  isIdle := false;
  frameCount := 3;
  skippedCount := 7
|}.

End Scenario.

(* ===================================================================== *)
(** ** The wording of the specification                                   *)
(* ===================================================================== *)

(** Definitions that follow the specification's sentences rather than the
    code, to be compared with the code's. *)
Module Spec.

Import ContextService.

(** "a knowledge-base store exists and at least one document in it is in
    a ready state" *)
Definition storeWithReadyDocument (store : option FileSearchStore)
           (docs : list UploadedDocument) : Prop :=
  store <> None /\ exists d, In d docs /\ status d = Some Ready.

(** "file-search only": every entry is a file-search entry and none is a
    web-search entry. *)
Definition fileSearchOnly (ts : list ModelTool) : Prop :=
  Forall (fun t => isFileSearchTool t = true /\ isWebSearchTool t = false) ts.

(** "web-search only" *)
Definition webSearchOnly (ts : list ModelTool) : Prop :=
  Forall (fun t => isWebSearchTool t = true /\ isFileSearchTool t = false) ts.

(** "a tool array containing both a file-search and a web-search entry" *)
Definition holdsBothKinds (ts : list ModelTool) : Prop :=
  (exists t, In t ts /\ isFileSearchTool t = true)
  /\ (exists t, In t ts /\ isWebSearchTool t = true).

(** The documents a context input carries, none when the field is absent. *)
Definition documentsOf (input : ContextInput) : list UploadedDocument :=
  match documents input with Some l => l | None => [] end.

End Spec.

(** Further wording of the specification. *)
Module SpecSession.

(** "credential is empty": no key at all, or the empty string. *)
Definition emptyCredential (key : option string) : Prop :=
  key = None \/ key = Some EmptyString.

End SpecSession.

(** The frame differ, in the specification's words. *)
Module SpecDiffer.

Import ScreenCapture.

(** A buffer holding the RGBA bytes of a [width] x [height] frame. *)
Definition frameBuffer (width height : Z) (buf : PixelBuffer) : Prop :=
  Z.of_nat (List.length buf) = 4 * (width * height).

(** Channel [c] (0 red, 1 green, 2 blue, 3 alpha) of pixel number [k]. *)
Definition channelOf (buf : PixelBuffer) (k c : Z) : Z :=
  nth (Z.to_nat (k * 4 + c)) buf 0.

(** "differs ... by no more than a fixed tolerance (10 of 255)" *)
Definition withinTolerance (a b : Z) : bool := Z.abs (a - b) <=? 10.

(** "A pixel matches if each of its R/G/B channels differs from the
    corresponding previous-frame channel by no more than [the]
    tolerance; alpha is ignored." *)
Definition pixelMatch (current previous : PixelBuffer) (k : Z) : bool :=
  withinTolerance (channelOf current k 0) (channelOf previous k 0)
  && withinTolerance (channelOf current k 1) (channelOf previous k 1)
  && withinTolerance (channelOf current k 2) (channelOf previous k 2).

(** "[sampleSize] evenly strided pixel positions" *)
Definition sampledPixels (step : Z) (sampleSize : nat) : list Z :=
  map (fun i => Z.of_nat i * step) (seq 0 sampleSize).

(** The number of sampled pixels that match. *)
Definition matchCount (current previous : PixelBuffer) (step : Z)
           (sampleSize : nat) : Z :=
  Z.of_nat (List.length (filter (pixelMatch current previous)
                                (sampledPixels step sampleSize))).

End SpecDiffer.

(** The PCM16 codec, in the specification's words. *)
Module SpecCodec.

(** "one quantization step (1/32768)" *)
Definition quantum : Q := 1 # 32768.

(** "values in [-1,1]" *)
Definition inUnitRange (x : Q) : Prop := (-1 <= x /\ x <= 1)%Q.

(** [pcm16ToFloat(floatToPCM16(x))] on finite samples. *)
Definition roundTrip (xs : list Q) : option (list Q) :=
  AudioStreamer.pcm16ToFloat (AudioRecorder.floatTo16BitPCM (map Js.Fin xs)).

(** "reproduces [x] within [k] quantization steps" *)
Definition within (k : Q) (x y : Q) : Prop := (Qabs (x - y) <= k * quantum)%Q.

End SpecCodec.

(** The playback queue, in the specification's words. *)
Module SpecPlayback.

Import AudioStreamer.

(** "chunks of known sample counts": a whole, positive number of 16-bit
    samples. *)
Definition wellFormedChunk (chunk : list Z) : Prop :=
  exists n : nat, (0 < n)%nat /\ List.length chunk = (2 * n)%nat.

(** The sample count of a chunk. *)
Definition samples (chunk : list Z) : Z := Z.of_nat (List.length chunk) / 2.

(** The play time of some buffers, in ticks. *)
Fixpoint duration (bufs : list (list Q)) : Z :=
  match bufs with
  | [] => 0
  | b :: rest => Z.of_nat (List.length b) + duration rest
  end.

(** "each subsequent buffer's start is exactly the previous buffer's end":
    the schedule that plays [bufs] back to back from time [t]. *)
Fixpoint contiguous (t : Z) (bufs : list (list Q)) : list (Z * list Q) :=
  match bufs with
  | [] => []
  | b :: rest => (t, b) :: contiguous (t + Z.of_nat (List.length b)) rest
  end.

(** The queue is never starved: each chunk arrives before the moment its
    predecessor finishes playing, [deadline] being that moment for the
    first chunk of the list. *)
Fixpoint fedInTime (deadline : Z) (arrivals : list (Z * list Z)) : Prop :=
  match arrivals with
  | [] => True
  | (a, chunk) :: rest => a < deadline /\ fedInTime (deadline + samples chunk) rest
  end.

(** [bufs] are the chunks decoded, in order. *)
Definition decodes (chunks : list (list Z)) (bufs : list (list Q)) : Prop :=
  map pcm16ToFloat chunks = map Some bufs.

(** The streamer is playing: one callback is pending, due at [next], the
    buffers [pending] wait in the queue, and [log] has been started. *)
Definition Running (w : World) (next : Z) (pending : list (list Q))
           (log : list (Z * list Q)) : Prop :=
  (exists k, tasks w = [(next, k)] /\ k <> GainReset)
  /\ audioQueue (streamer w) = pending
  /\ isPlaying (streamer w) = true
  /\ started w = log
  /\ clock w <= next
  /\ Forall (fun b => b <> []) pending.

End SpecPlayback.

(** Three chunks of two, one and three samples. *)
Module PlaybackScenario.

Definition chunkA : list Z := [0; 0; 255; 127].
Definition chunkB : list Z := [0; 128].
Definition chunkC : list Z := [1; 0; 2; 0; 3; 0].

(** B arrives during the buffering delay, C while A is playing. *)
Definition burst : list (Z * list Z) :=
  [(0, chunkA); (10, chunkB); (2401, chunkC)].

(** C arrives long after A has finished. *)
Definition starved : list (Z * list Z) :=
  [(0, chunkA); (5000, chunkC)].

End PlaybackScenario.

(* ===================================================================== *)
(** ** lib/useScreenCapture.ts: the activity listener and run summaries   *)
(* ===================================================================== *)

Module CaptureLoop.

Import ScreenCapture.

(** [handleActivity], the listener for mouse, key, scroll and click:
    [now] is [Date.now()]. *)
Definition handleActivity (config : ScreenCaptureConfig) (now : Z) (h : Hook)
  : Hook :=
  {| canvasRef := canvasRef h;
     ctxRef := ctxRef h;
     previousFrameDataRef := previousFrameDataRef h;
     lastActivityRef := now;
     frameCountRef := frameCountRef h;
     skippedCountRef := skippedCountRef h;
     currentIntervalMs :=
       if isIdle h then minIntervalMs config else currentIntervalMs h;
     isIdle := if isIdle h then false else isIdle h;
     frameCount := frameCount h;
     skippedCount := skippedCount h |}.

(** The interval in force is the one that goes with the idle flag. *)
Definition cadenceConsistent (config : ScreenCaptureConfig) (h : Hook) : Prop :=
  currentIntervalMs h
  = if isIdle h then maxIntervalMs config else minIntervalMs config.

(** How many calls of a run returned a frame. *)
Fixpoint accepted (calls : list (Env * option CapturedFrame)) : nat :=
  match calls with
  | [] => 0%nat
  | (_, Some _) :: rest => S (accepted rest)
  | (_, None) :: rest => accepted rest
  end.

(** The three ways a call can end with null: nothing to read, nothing to
    draw on, or a frame too close to the stored one. *)
Definition withheld (config : ScreenCaptureConfig) (env : Env) (h : Hook)
  : Prop :=
  video env = None
  \/ (exists v, video env = Some v
                /\ (videoWidth v = 0 \/ videoHeight v = 0))
  \/ (exists v, video env = Some v /\ videoWidth v <> 0 /\ videoHeight v <> 0
                /\ ctxRef (getCanvas env h) = false)
  \/ (exists v previousData,
         reachesComparison env h v
         /\ previousFrameDataRef h = Some previousData
         /\ Js.lt (similarityTo config v previousData) (diffThreshold config)
            = false).

(** Every colour byte of [current] is within the tolerance of the byte at
    the same place in [previous]; alpha bytes (every fourth) are free. *)
Definition coloursWithinTolerance (current previous : PixelBuffer) : Prop :=
  forall i : Z,
    0 <= i < Z.of_nat (List.length current) ->
    i mod 4 <> 3 ->
    Z.abs (nth (Z.to_nat i) current 0 - nth (Z.to_nat i) previous 0)
    <= tolerance.

End CaptureLoop.

(* ===================================================================== *)
(** ** Bytes and sample ranges                                            *)
(* ===================================================================== *)

Module Pcm.

(** The elements of a [Uint8Array]. *)
Definition isByte (b : Z) : Prop := 0 <= b <= 255.

(** The values of a signed 16-bit sample. *)
Definition isInt16 (v : Z) : Prop := -32768 <= v <= 32767.

(** The finite samples, as [Js.number]s. *)
Definition finite (xs : list Q) : list Js.number := map Js.Fin xs.

End Pcm.

(* ===================================================================== *)
(** ** Observations on a playback run                                     *)
(* ===================================================================== *)

Module PlaybackLog.

Import AudioStreamer.

(** The tick at which a started buffer ends. *)
Definition endOf (e : Z * list Q) : Z := fst e + Z.of_nat (List.length (snd e)).

(** No buffer is started before an earlier one has ended. *)
Definition noOverlap (log : list (Z * list Q)) : Prop :=
  forall (i j : nat) (e1 e2 : Z * list Q),
    (i < j)%nat -> nth_error log i = Some e1 -> nth_error log j = Some e2 ->
    endOf e1 <= fst e2.

(** Every started buffer has ended by [t]. *)
Definition endsBy (t : Z) (log : list (Z * list Q)) : Prop :=
  Forall (fun e => endOf e <= t) log.

(** A streamer that has never been stopped and whose started buffers do
    not overlap; what is pending, if anything, is one callback due no
    earlier than the end of everything started. *)
Definition sequentialWorld (w : World) : Prop :=
  isStreamComplete (streamer w) = false
  /\ noOverlap (started w)
  /\ match tasks w with
     | [] => started w = [] \/ isPlaying (streamer w) = true
     | [(due, k)] =>
         k <> GainReset /\ isPlaying (streamer w) = true
         /\ endsBy due (started w)
     | _ => False
     end.

(** The buffers handed to the streamer so far are those started followed
    by those still queued. *)
Definition accountsFor (bufs : list (list Q)) (w : World) : Prop :=
  map snd (started w) ++ audioQueue (streamer w) = bufs
  /\ Forall (fun b => b <> []) (audioQueue (streamer w)).

(** The world with its clock moved forward to [t]. *)
Definition atTime (t : Z) (w : World) : World :=
  {| streamer := streamer w; clock := Z.max (clock w) t;
     tasks := tasks w; started := started w; completed := completed w |}.

End PlaybackLog.

(* ===================================================================== *)
(** ** Observations on a session                                          *)
(* ===================================================================== *)

Module Session.

Import GenAILiveClient.
Import LiveAPI.

(** The id of the [n]-th completed turn. *)
Definition turnId (n : nat) : string :=
  ("live-turn-" ++ ContextService.showNat n)%string.

(** A message carries text: some part of its model turn has a non-empty
    text. *)
Definition carriesText (msg : ServerMessage) : bool :=
  match modelTurn msg with
  | Some turnParts => existsb hasText turnParts
  | None => false
  end.

(** The text of a message: its text parts joined in order. *)
Definition textOfMessage (msg : ServerMessage) : string :=
  match modelTurn msg with
  | Some turnParts =>
      String.concat EmptyString (map textOf (filter hasText turnParts))
  | None => EmptyString
  end.

(** A part the provider's ['content'] listener decodes and hands to the
    playback queue:
    [p.inlineData && p.inlineData.mimeType.startsWith('audio')]. *)
Definition isAudioPart (p : Part) : bool :=
  match partInline p with
  | Some d => String.prefix "audio" (ContextService.inlineMimeType d)
  | None => false
  end.

(** Some part of the message's model turn is an audio part. *)
Definition carriesAudio (msg : ServerMessage) : bool :=
  match modelTurn msg with
  | Some turnParts => existsb isAudioPart turnParts
  | None => false
  end.

(** The events of a message, all delivered at clock reading [t]. *)
Definition received (t : Z) (msg : ServerMessage) : list (Z * Event) :=
  map (fun e => (t, e)) (onmessage msg).

(** What a provider has made of its events so far: turns numbered 1 to
    [turnIdRef] in order, none with an empty text, the last of them shown
    as [lastCompletedTurn], and the displayed transcript equal to the
    accumulator. *)
Definition transcriptInvariant (p : Provider) : Prop :=
  map id (completedTurns p) = map turnId (seq 1 (turnIdRef p))
  /\ Forall (fun turn => turnText turn <> EmptyString) (completedTurns p)
  /\ streamingText p = streamingTextRef p
  /\ lastCompletedTurn p = last (map Some (completedTurns p)) None.

(** Handles are handed out in increasing order: every live resource has a
    number below the next one to be allocated. *)
Definition wellNumbered (b : AudioRecorder.Browser) : Prop :=
  Forall (fun h => (h < AudioRecorder.nextHandle b)%nat)
         (AudioRecorder.liveStreams b ++ AudioRecorder.openContexts b
          ++ AudioRecorder.sourceNodes b ++ AudioRecorder.processorNodes b).

(** The recorder holds no stream, context or node. *)
Definition recorderIdle (r : option AudioRecorder.Recorder) : Prop :=
  match r with
  | None => True
  | Some rec =>
      AudioRecorder.stream rec = None /\ AudioRecorder.audioContext rec = None
      /\ AudioRecorder.source rec = None /\ AudioRecorder.processor rec = None
  end.

(** The microphone may be opened. *)
Definition microphoneGranted (b : AudioRecorder.Browser) : Prop :=
  AudioRecorder.mediaDevices b = true /\ AudioRecorder.micPermission b = true.

End Session.

(* ===================================================================== *)
(** ** Listeners, outbound messages and the widget's buttons              *)
(* ===================================================================== *)

(** The [on] / [off] / [emit] trio that [AudioRecorder] and
    [GenAILiveClient] both carry, over
    [listeners: Map<string, Function[]>].  A function is known by its
    identity; [emit] is observed through the functions it calls, in
    order. *)
Module Emitter.

Definition Listeners : Type := string -> option (list nat).

Definition empty : Listeners := fun _ => None.

(** [listeners.set(event, fns)] *)
Definition set (event : string) (fns : list nat) (m : Listeners)
  : Listeners :=
  fun e => if String.eqb e event then Some fns else m e.

(** [on(event, fn)] *)
Definition on (event : string) (fn : nat) (m : Listeners) : Listeners :=
  let m1 :=
    match m event with
    | None => set event [] m
    | Some _ => m
    end in
  match m1 event with
  | Some fns => set event (fns ++ [fn]) m1
  | None => m1
  end.

(** [off(event, fn)] *)
Definition off (event : string) (fn : nat) (m : Listeners) : Listeners :=
  match m event with
  | Some callbacks =>
      set event (filter (fun c => negb (Nat.eqb c fn)) callbacks) m
  | None => m
  end.

(** [emit(event, ...args)]: the functions called, in call order. *)
Definition emit (event : string) (m : Listeners) : list nat :=
  match m event with
  | Some fns => fns
  | None => []
  end.

(** A run of [on] calls. *)
Definition register (regs : list (string * nat)) (m : Listeners)
  : Listeners :=
  fold_left (fun acc r => on (fst r) (snd r) acc) regs m.

End Emitter.

(** What the client hands to the session, and who calls it. *)
Module LiveSend.

Import ContextService.
Import GenAILiveClient.
Local Open Scope string_scope.

(** A call on the session object. *)
Inductive Outbound : Type :=
| ClientContent (text : string) (turnComplete : bool)
| RealtimeInput (mimeType data : string)
| ToolResponse (response : string).

Record Chunk : Type := {
  chunkMimeType : string;
  chunkData : string
}.

(** [sendText(text)] *)
Definition sendText (text : string) (c : Client) : list Outbound :=
  match session c with
  | Some _ => [ClientContent text true]
  | None => []
  end.

(** [sendRealtimeInput(chunks)] *)
Definition sendRealtimeInput (chunks : list Chunk) (c : Client)
  : list Outbound :=
  flat_map (fun chunk =>
              match session c with
              | Some _ =>
                  [RealtimeInput (chunkMimeType chunk) (chunkData chunk)]
              | None => []
              end) chunks.

(** [sendToolResponse(toolResponse)] *)
Definition sendToolResponse (toolResponse : string) (c : Client)
  : list Outbound :=
  match session c with
  | Some _ => [ToolResponse toolResponse]
  | None => []
  end.

(** App.tsx, [handleScreenFrame]: the [onFrame] callback of the capture
    hook. *)
Definition handleScreenFrame (client : option Client)
           (frame : ScreenCapture.CapturedFrame) : list Outbound :=
  match client, ScreenCapture.data frame with
  | Some c, Some (String a rest) =>
      sendRealtimeInput [ {| chunkMimeType := "image/jpeg";
                             chunkData := String a rest |} ] c
  | _, _ => []
  end.

(** The ['data'] listener [startRecording] puts on the recorder; [btoa]
    stands for [btoa(String.fromCharCode(...new Uint8Array(data)))]. *)
Definition onRecorderData (btoa : list Z -> string) (clientRef : option Client)
           (data : list Z) : list Outbound :=
  match clientRef with
  | Some c =>
      sendRealtimeInput [ {| chunkMimeType := "audio/pcm;rate=16000";
                             chunkData := btoa data |} ] c
  | None => []
  end.

(** One block of microphone input, from the processor nodes to the
    session: each node's [onaudioprocess] emits ['data'] on the
    provider's recorder, whose one listener forwards it. *)
Definition microphoneBlock (btoa : list Z -> string) (p : LiveAPI.Provider)
           (inputData : list Js.number) : list Outbound :=
  flat_map (onRecorderData btoa (LiveAPI.clientRef p))
           (AudioRecorder.audioProcess (LiveAPI.browser p) inputData).

(** One tick of the capture loop with [handleScreenFrame] as its
    [onFrame]: the hook afterwards and what went to the session. *)
Definition captureTick (config : ScreenCapture.ScreenCaptureConfig)
           (toDataURL : ScreenCapture.Canvas -> ScreenCapture.PixelBuffer
                        -> Q -> string)
           (client : option Client) (env : ScreenCapture.Env)
           (h : ScreenCapture.Hook) : ScreenCapture.Hook * list Outbound :=
  let '(h', frames) :=
    ScreenCapture.runCaptureLoop config toDataURL true env h in
  (h', flat_map (handleScreenFrame client) frames).

End LiveSend.

(** ChatWidget.tsx: the two buttons that drive the provider. *)
Module ChatWidget.

Import GenAILiveClient.
Import LiveAPI.

(** [toggleConnection] *)
Definition toggleConnection (apiKeyEnv : option string) (p : Provider)
  : Provider :=
  match status p with
  | Connected | ConnectingStatus => LiveAPI.disconnect p
  | _ => LiveAPI.connect apiKeyEnv p
  end.

(** [toggleMic] *)
Definition toggleMic (apiKeyEnv : option string) (p : Provider) : Provider :=
  match status p with
  | Disconnected => LiveAPI.connect apiKeyEnv p
  | _ => if isRecording p then stopRecording p else startRecording p
  end.

(** The microphone button: [onClick={toggleMic}] with
    [disabled={status === 'connecting'}]. *)
Definition micButton (apiKeyEnv : option string) (p : Provider) : Provider :=
  match status p with
  | ConnectingStatus => p
  | _ => toggleMic apiKeyEnv p
  end.

(** What can happen to a provider: a button, an event of its client, a
    change of the document store, or the cleanup of its effect.  Each
    action is taken with the microphone start it may trigger run to its
    end, as [startRecording] is. *)
Inductive Action : Type :=
| ToggleConnection
| ToggleMic
| Deliver (now : Z) (e : Event)
| Rebuild (activeStore : option ContextService.FileSearchStore)
          (docs : list ContextService.UploadedDocument)
| Unmount.

Definition act (apiKeyEnv : option string) (p : Provider) (a : Action)
  : Provider :=
  match a with
  | ToggleConnection => toggleConnection apiKeyEnv p
  | ToggleMic => micButton apiKeyEnv p
  | Deliver now e => handle now p e
  | Rebuild activeStore docs => rebuildClient activeStore docs p
  | Unmount => LiveAPI.disconnect p
  end.

Definition run (apiKeyEnv : option string) (actions : list Action)
           (p : Provider) : Provider :=
  fold_left (act apiKeyEnv) actions p.

(** The recorder holds a stream, a context and both nodes. *)
Definition recorderRunning (r : option AudioRecorder.Recorder) : Prop :=
  match r with
  | None => False
  | Some rec =>
      AudioRecorder.stream rec <> None /\ AudioRecorder.audioContext rec <> None
      /\ AudioRecorder.source rec <> None /\ AudioRecorder.processor rec <> None
  end.

(** The [isRecording] flag tells the truth about the recorder. *)
Definition flagMatchesRecorder (p : Provider) : Prop :=
  if isRecording p then recorderRunning (audioRecorderRef p)
  else Session.recorderIdle (audioRecorderRef p).

End ChatWidget.

(** A request's input with another history. *)
Module ContextInputs.

Import ContextService.

Definition withHistory (h : option (list Message)) (input : ContextInput)
  : ContextInput :=
  {| query := query input;
     source := source input;
     screenImage := screenImage input;
     sketchImage := sketchImage input;
     attachments := attachments input;
     history := h;
     ragStore := ragStore input;
     documents := documents input;
     metadataFilter := metadataFilter input |}.

(** A part is an inline image and nothing else. *)
Definition isImagePart (p : ContentPart) : bool :=
  match partText p, inlineData p with
  | None, Some _ => true
  | _, _ => false
  end.

Definition isImageAttachment (a : Attachment) : bool :=
  match attType a with
  | ImageAttachment => true
  | VideoAttachment => false
  end.

(** No comma anywhere in the string. *)
Fixpoint commaFree (s : string) : bool :=
  match s with
  | EmptyString => true
  | String c rest => negb (Ascii.eqb c ","%char) && commaFree rest
  end.

(** No character of the string satisfies [f]. *)
Fixpoint noneOf (f : ascii -> bool) (s : string) : bool :=
  match s with
  | EmptyString => true
  | String c rest => negb (f c) && noneOf f rest
  end.

Definition firstChar (s : string) : option ascii :=
  match s with
  | EmptyString => None
  | String c _ => Some c
  end.

Fixpoint lastChar (s : string) : option ascii :=
  match s with
  | EmptyString => None
  | String c EmptyString => Some c
  | String _ rest => lastChar rest
  end.

(** The string neither begins nor ends with white space. *)
Definition trimmed (s : string) : bool :=
  match firstChar s, lastChar s with
  | Some a, Some z => negb (LiveAPI.isSpace a) && negb (LiveAPI.isSpace z)
  | _, _ => true
  end.

End ContextInputs.

(* ===================================================================== *)
(** ** The microphone start, cut at its await                             *)
(* ===================================================================== *)

(** [LiveAPI.startRecording] takes the start of the microphone as one
    step.  Here the step is cut where the code awaits [getUserMedia], so
    that other events can fall between the two halves. *)
Module PendingStart.

Import GenAILiveClient.
Import LiveAPI.
Local Open Scope string_scope.

(** [AudioRecorder.start()] from the point where [getUserMedia] settles:
    rejected when the user refuses, otherwise the four fields are
    overwritten with freshly allocated resources. *)
Definition resume (r : AudioRecorder.Recorder) (b : AudioRecorder.Browser)
  : (unit + AudioRecorder.StartError) * AudioRecorder.Recorder
    * AudioRecorder.Browser :=
  if negb (AudioRecorder.micPermission b)
  then (inr AudioRecorder.MicrophoneDenied, r, b)
  else
    let s := AudioRecorder.nextHandle b in
    let c := S s in
    let src := S c in
    let p := S src in
    (inl tt,
     {| AudioRecorder.stream := Some s;
        AudioRecorder.audioContext := Some c;
        AudioRecorder.source := Some src;
        AudioRecorder.processor := Some p;
        AudioRecorder.sampleRate := AudioRecorder.sampleRate r |},
     {| AudioRecorder.mediaDevices := AudioRecorder.mediaDevices b;
        AudioRecorder.micPermission := AudioRecorder.micPermission b;
        AudioRecorder.nextHandle := S p;
        AudioRecorder.liveStreams := (AudioRecorder.liveStreams b ++ [s])%list;
        AudioRecorder.openContexts :=
          (AudioRecorder.openContexts b ++ [c])%list;
        AudioRecorder.sourceNodes := (AudioRecorder.sourceNodes b ++ [src])%list;
        AudioRecorder.processorNodes :=
          (AudioRecorder.processorNodes b ++ [p])%list |}).

(** A provider together with the number of [startRecording] calls that
    are suspended at [getUserMedia]. *)
Record State : Type := {
  provider : Provider;
  pending : nat
}.

(** What [startRecording] does after its [start()] has failed. *)
Definition startFailed (e : AudioRecorder.StartError) (p : Provider)
  : Provider :=
  setRecording (isRecording p) (Some (startErrorMessage e))
    (logError "Failed to start recording"
       (logError "Error starting audio recording:" p)).

(** [startRecording()] as far as it runs before anything else can
    happen: up to the await of [getUserMedia], or to its end when
    [start()] throws before reaching it. *)
Definition begin (s : State) : State :=
  let p := provider s in
  let '(ctx, b1) :=
    match audioContextRef p with
    | Some c => (c, browser p)
    | None => openPlaybackContext (browser p)
    end in
  let rec :=
    match audioRecorderRef p with
    | Some r => r
    | None => AudioRecorder.newRecorder
    end in
  let p1 := setAudio (Some ctx) true (Some rec) b1 p in
  if negb (AudioRecorder.mediaDevices b1)
  then {| provider := startFailed AudioRecorder.InsecureContext p1;
          pending := pending s |}
  else {| provider := p1; pending := S (pending s) |}.

(** [getUserMedia] settles for one suspended call: the rest of
    [start()], then the rest of [startRecording()]. *)
Definition settle (s : State) : State :=
  match pending s, audioRecorderRef (provider s) with
  | S n, Some rec =>
      let p := provider s in
      match resume rec (browser p) with
      | (inl _, rec', b2) =>
          {| provider :=
               setRecording true None
                 (setAudio (audioContextRef p) (audioStreamerRef p)
                           (Some rec') b2 p);
             pending := n |}
      | (inr e, rec', b2) =>
          {| provider :=
               startFailed e
                 (setAudio (audioContextRef p) (audioStreamerRef p)
                           (Some rec') b2 p);
             pending := n |}
      end
  | _, _ => s
  end.

(** An event of the client reaching the provider while starts may be
    pending. *)
Definition deliverEvent (now : Z) (e : Event) (s : State) : State :=
  match e with
  | Open =>
      begin {| provider := setStatus Connected (provider s);
               pending := pending s |}
  | _ => {| provider := handle now (provider s) e; pending := pending s |}
  end.

End PendingStart.

(* ===================================================================== *)
(** * Properties                                                          *)
(* ===================================================================== *)

(** ** Comparisons on JS numbers *)

Lemma js_ge_not_lt (a b : Js.number) :
  Js.ge a b = true -> Js.lt a b = false.
Proof.
  destruct a, b; simpl; try congruence.
  destruct (Qlt_le_dec q q0); congruence.
Qed.

Lemma js_lt_not_ge (a b : Js.number) :
  Js.lt a b = true -> Js.ge a b = false.
Proof.
  destruct a, b; simpl; try congruence.
  destruct (Qlt_le_dec q q0); congruence.
Qed.

(** ** The capture hook *)

Section CaptureFrame.

Import ScreenCapture.

Variable config : ScreenCaptureConfig.
Variable toDataURL : Canvas -> PixelBuffer -> Q -> string.

Local Abbreviation captureFrame := (captureFrame config toDataURL).
Local Abbreviation runCaptureLoop := (runCaptureLoop config toDataURL).
Local Abbreviation similarityTo := (similarityTo config).

Lemma previousFrame_prepared (env : Env) (h : Hook) (w hgt : Z) :
  previousFrameDataRef (resizeCanvas w hgt (getCanvas env h))
  = previousFrameDataRef h.
Proof. unfold resizeCanvas, getCanvas. destruct (canvasRef h); reflexivity. Qed.

Lemma counters_prepared (env : Env) (h : Hook) (w hgt : Z) :
  let h2 := resizeCanvas w hgt (getCanvas env h) in
  frameCountRef h2 = frameCountRef h
  /\ skippedCountRef h2 = skippedCountRef h
  /\ frameCount h2 = frameCount h
  /\ skippedCount h2 = skippedCount h.
Proof. unfold resizeCanvas, getCanvas. destruct (canvasRef h); simpl; auto. Qed.

(** The two ways a call that reaches the comparison can end. *)
Lemma captureFrame_compared (env : Env) (h : Hook) (v : Video)
      (previousData : PixelBuffer) :
  reachesComparison env h v ->
  previousFrameDataRef h = Some previousData ->
  let h2 := resizeCanvas (videoWidth v) (videoHeight v) (getCanvas env h) in
  let sim := similarityTo v previousData in
  captureFrame env h =
    if Js.lt sim (diffThreshold config)
    then (Some {| data :=
                    nth_error
                      (splitComma
                         (toDataURL (canvasOf h2) (videoPixels v)
                            (getAdaptiveQuality config (videoPixels v)
                               (videoWidth v) (videoHeight v)))) 1;
                  width := videoWidth v;
                  height := videoHeight v;
                  timestamp := now env;
                  isKeyFrame := true;
                  similarity := sim |},
          acceptFrame (videoPixels v) h2)
    else (None, skipFrame h2).
Proof.
  intros (Hv & Hw & Hh & Hctx) Hprev h2 sim.
  unfold ScreenCapture.captureFrame. rewrite Hv.
  apply Z.eqb_neq in Hw, Hh. rewrite Hw, Hh. simpl orb. cbv iota.
  rewrite Hctx. simpl negb. cbv iota.
  fold h2. unfold h2 at 1 2. rewrite previousFrame_prepared, Hprev.
  fold h2. fold (similarityTo v previousData). fold sim.
  destruct (Js.lt sim (diffThreshold config)); reflexivity.
Qed.

Lemma getCanvas_idle_irrelevant (env : Env) (h h0 : Hook) :
  canvasRef h0 = canvasRef h -> ctxRef h0 = ctxRef h ->
  ctxRef (getCanvas env h0) = ctxRef (getCanvas env h).
Proof.
  intros Hc Hx. unfold getCanvas. rewrite Hc.
  destruct (canvasRef h); simpl; auto.
Qed.

(** C1.  A call that compares the current frame with a stored previous
    frame rejects it when the similarity is at or above [diffThreshold]:
    it returns null, the capture loop hands nothing to [onFrame], and the
    skip counter grows by exactly one.  When the similarity is below the
    threshold it returns a frame and the accepted-frame counter grows by
    exactly one. *)
Theorem captureFrame_threshold
        (env : Env) (h : Hook) (v : Video) (previousData : PixelBuffer)
        (onFrame : bool) :
  reachesComparison env h v ->
  previousFrameDataRef h = Some previousData ->
  let sim := similarityTo v previousData in
  let result := captureFrame env h in
  (Js.ge sim (diffThreshold config) = true ->
     fst result = None
     /\ snd (runCaptureLoop onFrame env h) = []
     /\ skippedCountRef (snd result) = skippedCountRef h + 1
     /\ skippedCount (snd result) = skippedCountRef h + 1
     /\ frameCountRef (snd result) = frameCountRef h
     /\ frameCount (snd result) = frameCount h)
  /\ (Js.lt sim (diffThreshold config) = true ->
     (exists frame, fst result = Some frame /\ similarity frame = sim)
     /\ frameCountRef (snd result) = frameCountRef h + 1
     /\ frameCount (snd result) = frameCountRef h + 1
     /\ skippedCountRef (snd result) = skippedCountRef h
     /\ skippedCount (snd result) = skippedCount h).
Proof.
  intros Hreach Hprev sim result.
  pose proof (captureFrame_compared env h v previousData Hreach Hprev) as Hcap.
  cbv zeta in Hcap. fold sim in Hcap.
  destruct (counters_prepared env h (videoWidth v) (videoHeight v))
    as (Hfr & Hsr & Hf & Hs).
  split.
  - intros Hge. apply js_ge_not_lt in Hge.
    assert (Hres : result = (None, skipFrame
              (resizeCanvas (videoWidth v) (videoHeight v) (getCanvas env h)))).
    { unfold result. rewrite Hcap, Hge. reflexivity. }
    rewrite Hres. unfold skipFrame.
    cbn [fst snd skippedCountRef skippedCount frameCountRef frameCount].
    rewrite Hfr, Hsr, Hf.
    repeat split; try reflexivity.
    unfold ScreenCapture.runCaptureLoop.
    match goal with
    | |- context [ScreenCapture.captureFrame _ _ _ ?h0] => set (h0' := h0)
    end.
    assert (Hreach0 : reachesComparison env h0' v).
    { destruct Hreach as (Hv & Hw & Hh & Hctx).
      repeat split; auto.
      rewrite <- Hctx. apply getCanvas_idle_irrelevant;
        unfold h0'; destruct (Bool.eqb _ _); reflexivity. }
    assert (Hprev0 : previousFrameDataRef h0' = Some previousData).
    { rewrite <- Hprev. unfold h0'. destruct (Bool.eqb _ _); reflexivity. }
    pose proof (captureFrame_compared env h0' v previousData Hreach0 Hprev0)
      as Hcap0.
    cbv zeta in Hcap0. fold sim in Hcap0. rewrite Hcap0, Hge. reflexivity.
  - intros Hlt.
    unfold result. rewrite Hcap, Hlt. unfold acceptFrame.
    cbn [fst snd skippedCountRef skippedCount frameCountRef frameCount].
    rewrite Hfr, Hsr, Hs.
    repeat split; try reflexivity.
    eexists. split; reflexivity.
Qed.

(** One call: a null return leaves the stored buffer as it was, a returned
    frame replaces it with the pixels of that frame. *)
Lemma captureFrame_baseline (env : Env) (h : Hook) :
  let result := captureFrame env h in
  (fst result = None ->
     previousFrameDataRef (snd result) = previousFrameDataRef h)
  /\ (forall frame, fst result = Some frame ->
        exists v, video env = Some v
                  /\ width frame = videoWidth v
                  /\ height frame = videoHeight v
                  /\ previousFrameDataRef (snd result)
                     = Some (videoPixels v)).
Proof.
  cbv zeta. unfold ScreenCapture.captureFrame.
  destruct (video env) as [v|]; [|split; [reflexivity | discriminate]].
  destruct ((videoWidth v =? 0) || (videoHeight v =? 0));
    [split; [reflexivity | discriminate]|].
  destruct (negb (ctxRef (getCanvas env h))).
  - split; [|discriminate]. intros _. simpl.
    unfold getCanvas. destruct (canvasRef h); reflexivity.
  - rewrite previousFrame_prepared.
    destruct (previousFrameDataRef h) as [prev|] eqn:Hprev.
    + destruct (Js.lt _ _); cbn [fst snd].
      * split; [discriminate|]. intros frame Hf. injection Hf as <-.
        exists v. cbn [width height acceptFrame previousFrameDataRef]. auto.
      * split; [|discriminate]. intros _.
        unfold skipFrame. cbn [previousFrameDataRef].
        rewrite previousFrame_prepared. exact Hprev.
    + cbn [fst snd]. split; [discriminate|].
      intros frame Hf. injection Hf as <-.
      exists v. cbn [width height acceptFrame previousFrameDataRef]. auto.
Qed.

(** C2.  The stored previous-frame buffer changes only when a frame is
    accepted: a call that returns null (a rejection in particular) leaves
    it as it was, and a call that returns a frame replaces it with the
    pixels of that frame.  So after any run of calls the buffer holds the
    most recently accepted frame, and that is what the next call compares
    against. *)
Theorem baseline_moves_only_on_acceptance (env : Env) (h : Hook)
        (envs : list Env) :
  let result := captureFrame env h in
  (fst result = None ->
     previousFrameDataRef (snd result) = previousFrameDataRef h)
  /\ (forall frame, fst result = Some frame ->
        exists v, video env = Some v
                  /\ previousFrameDataRef (snd result)
                     = Some (videoPixels v))
  /\ previousFrameDataRef (snd (captureSequence config toDataURL envs h))
     = lastAccepted (fst (captureSequence config toDataURL envs h))
                    (previousFrameDataRef h).
Proof.
  cbv zeta. destruct (captureFrame_baseline env h) as [Hnull Hframe].
  split; [exact Hnull|]. split.
  - intros frame Hf. destruct (Hframe frame Hf) as (v & Hv & _ & _ & Hp).
    exists v. split; assumption.
  - clear. revert h. induction envs as [|e rest IH]; intros h; [reflexivity|].
    cbn [captureSequence].
    destruct (captureFrame_baseline e h) as [Hnull Hframe].
    destruct (ScreenCapture.captureFrame config toDataURL e h)
      as [result h'] eqn:Hcall.
    specialize (IH h').
    destruct (captureSequence config toDataURL rest h') as [calls final].
    cbn [fst snd lastAccepted] in *. rewrite IH. f_equal.
    destruct result as [frame|].
    + destruct (Hframe frame eq_refl) as (v & Hv & _ & _ & Hp).
      rewrite Hv. exact Hp.
    + apply Hnull. reflexivity.
Qed.

(** C10.  Every frame [captureFrame] returns has [isKeyFrame] true: a
    frame whose similarity reaches the threshold is never returned with
    the flag false, it is not returned at all. *)
Theorem returned_frame_is_key_frame
        (env : Env) (h : Hook) (frame : CapturedFrame) :
  fst (captureFrame env h) = Some frame -> isKeyFrame frame = true.
Proof.
  unfold ScreenCapture.captureFrame.
  destruct (video env) as [v|]; [|discriminate].
  destruct ((videoWidth v =? 0) || (videoHeight v =? 0)); [discriminate|].
  destruct (negb (ctxRef (getCanvas env h))); [discriminate|].
  destruct (previousFrameDataRef _) as [prev|].
  - destruct (Js.lt _ _) eqn:Hlt; simpl; [|discriminate].
    intros Hf. injection Hf as <-. reflexivity.
  - simpl. intros Hf. injection Hf as <-. reflexivity.
Qed.

End CaptureFrame.

(** The specification's threshold experiment: with [diffThreshold = 0.92],
    a frame measured at similarity 0.95 against the stored one is skipped. *)
Lemma captureFrame_threshold_witness :
  Js.eqb (ScreenCapture.similarityTo Scenario.appConfig (Scenario.screen 1)
            Scenario.blackFrame) (Js.Fin (95 # 100)) = true
  /\ fst (ScreenCapture.captureFrame Scenario.appConfig Scenario.jpegStub
            (Scenario.showing 1) Scenario.runningHook) = None
  /\ ScreenCapture.skippedCountRef
       (snd (ScreenCapture.captureFrame Scenario.appConfig Scenario.jpegStub
               (Scenario.showing 1) Scenario.runningHook)) = 8.
Proof.
  split; [vm_compute; reflexivity|].
  assert (Hreach : ScreenCapture.reachesComparison
                     (Scenario.showing 1) Scenario.runningHook
                     (Scenario.screen 1)).
  { repeat split; try reflexivity; vm_compute; discriminate. }
  destruct (captureFrame_threshold Scenario.appConfig Scenario.jpegStub
              (Scenario.showing 1) Scenario.runningHook (Scenario.screen 1)
              Scenario.blackFrame true Hreach eq_refl) as [Hskip _].
  destruct (Hskip eq_refl) as (Hnone & _ & Hcount & _).
  split; [exact Hnone | exact Hcount].
Defined.

(** The other half of the experiment: at similarity 0.80 the frame is
    returned and the accepted-frame counter goes from 3 to 4. *)
Example captureFrame_accepts_at_080 :
  let result := ScreenCapture.captureFrame Scenario.appConfig Scenario.jpegStub
                  (Scenario.showing 4) Scenario.runningHook in
  Js.eqb (ScreenCapture.similarityTo Scenario.appConfig (Scenario.screen 4)
            Scenario.blackFrame) (Js.Fin (80 # 100)) = true
  /\ (exists frame, fst result = Some frame)
  /\ ScreenCapture.frameCountRef (snd result) = 4
  /\ ScreenCapture.skippedCountRef (snd result) = 7.
Proof.
  cbv zeta. split; [vm_compute; reflexivity|].
  split; [eexists; vm_compute; reflexivity|].
  split; vm_compute; reflexivity.
Qed.

(** Slow drift: a frame one pixel away from the stored one is skipped; the
    next, one further pixel away, is 0.95 similar to the skipped frame but
    0.90 similar to the stored one, and is accepted. *)
Example drift_is_measured_from_last_accepted :
  let run := ScreenCapture.captureSequence Scenario.appConfig Scenario.jpegStub
               [Scenario.showing 1; Scenario.showing 2] Scenario.runningHook in
  map (fun call => match snd call with Some _ => true | None => false end)
      (fst run) = [false; true]
  /\ ScreenCapture.previousFrameDataRef (snd run)
     = Some (Scenario.frameWith 2)
  /\ Js.eqb (ScreenCapture.compareFrames Scenario.appConfig
               (Scenario.frameWith 2) (Scenario.frameWith 1) 5 4)
            (Js.Fin (95 # 100)) = true.
Proof. cbv zeta. repeat split; vm_compute; reflexivity. Qed.

(** A first capture returns a frame, and that frame is a key frame. *)
Lemma returned_frame_is_key_frame_witness :
  exists frame,
    fst (ScreenCapture.captureFrame Scenario.appConfig Scenario.jpegStub
           (Scenario.showing 0)
           (ScreenCapture.initialHook Scenario.appConfig)) = Some frame
    /\ ScreenCapture.isKeyFrame frame = true.
Proof.
  eexists. split.
  - vm_compute. reflexivity.
  - apply (returned_frame_is_key_frame Scenario.appConfig Scenario.jpegStub
             (Scenario.showing 0)
             (ScreenCapture.initialHook Scenario.appConfig)).
    vm_compute. reflexivity.
Defined.

(** ** Tool selection *)

Section ToolSelection.

Import ContextService.

Lemma existsb_isReady (docs : list UploadedDocument) :
  existsb isReady docs = true <->
  exists d, In d docs /\ status d = Some Ready.
Proof.
  rewrite existsb_exists. split; intros (d & Hin & Hd); exists d; split; auto.
  - unfold isReady in Hd. destruct (status d) as [[]|]; congruence.
  - unfold isReady. rewrite Hd. reflexivity.
Qed.

Lemma isRagAvailable_spec (store : option FileSearchStore)
      (docs : list UploadedDocument) :
  isRagAvailable store (Some docs) = true <->
  Spec.storeWithReadyDocument store docs.
Proof.
  unfold isRagAvailable, Spec.storeWithReadyDocument.
  destruct store as [s|].
  - rewrite existsb_isReady. split; [intros H; split; [discriminate|exact H]|tauto].
  - split; [discriminate|]. intros [H _]. congruence.
Qed.

Lemma fileSearchOnly_not_both (ts : list ModelTool) :
  Spec.fileSearchOnly ts -> ~ Spec.holdsBothKinds ts.
Proof.
  intros Hall (_ & t & Hin & Hweb).
  unfold Spec.fileSearchOnly in Hall. rewrite Forall_forall in Hall.
  destruct (Hall t Hin). congruence.
Qed.

Lemma webSearchOnly_not_both (ts : list ModelTool) :
  Spec.webSearchOnly ts -> ~ Spec.holdsBothKinds ts.
Proof.
  intros Hall ((t & Hin & Hfile) & _).
  unfold Spec.webSearchOnly in Hall. rewrite Forall_forall in Hall.
  destruct (Hall t Hin). congruence.
Qed.

(** The tool array of the live session, by cases. *)
Lemma liveToolsFor_cases (store : option FileSearchStore)
      (docs : list UploadedDocument) :
  let ts := LiveAPI.liveToolsFor store docs in
  List.length ts = 1%nat
  /\ (Spec.storeWithReadyDocument store docs -> Spec.fileSearchOnly ts)
  /\ (~ Spec.storeWithReadyDocument store docs -> Spec.webSearchOnly ts).
Proof.
  cbv zeta. rewrite <- isRagAvailable_spec.
  unfold LiveAPI.liveToolsFor, isRagAvailable.
  destruct store as [s|]; [destruct (existsb isReady docs)|];
    (split; [reflexivity|]); split; intros H;
    try congruence; try (exfalso; apply H; reflexivity);
    repeat constructor.
Qed.

(** The tool array of the unified context builder, by cases. *)
Lemma buildContextualRequest_cases (input : ContextInput) :
  let ts := tools (buildContextualRequest input) in
  List.length ts = 1%nat
  /\ (Spec.storeWithReadyDocument (ragStore input) (Spec.documentsOf input)
      -> Spec.fileSearchOnly ts)
  /\ (~ Spec.storeWithReadyDocument (ragStore input) (Spec.documentsOf input)
      -> Spec.webSearchOnly ts).
Proof.
  cbv zeta. rewrite <- isRagAvailable_spec.
  unfold buildContextualRequest, isRagAvailable, Spec.documentsOf.
  cbn [tools].
  destruct (ragStore input) as [s|]; [destruct (documents input) as [docs|]|].
  - destruct (existsb isReady docs);
      (split; [reflexivity|]); split; intros H;
      try congruence; try (exfalso; apply H; reflexivity);
      repeat constructor.
  - cbn [existsb]. split; [reflexivity|]. split; intros H;
      try congruence; repeat constructor.
  - split; [reflexivity|]. split; intros H;
      try congruence; repeat constructor.
Qed.

(** C3.  Both builders, the live session's and the unified context
    builder's, produce a tool array of exactly one entry that never holds a
    file-search and a web-search entry together: it is file-search only
    when a store exists and some document is ready, and web-search only
    otherwise. *)
Theorem tools_mutually_exclusive :
  (forall (store : option FileSearchStore) (docs : list UploadedDocument),
      let ts := LiveAPI.liveToolsFor store docs in
      GenAILiveClient.liveTools (LiveAPI.liveConfigFor store docs) = Some ts
      /\ List.length ts = 1%nat
      /\ ~ Spec.holdsBothKinds ts
      /\ (Spec.storeWithReadyDocument store docs -> Spec.fileSearchOnly ts)
      /\ (~ Spec.storeWithReadyDocument store docs -> Spec.webSearchOnly ts))
  /\ (forall input : ContextInput,
      let ts := tools (buildContextualRequest input) in
      List.length ts = 1%nat
      /\ ~ Spec.holdsBothKinds ts
      /\ (Spec.storeWithReadyDocument (ragStore input) (Spec.documentsOf input)
          -> Spec.fileSearchOnly ts)
      /\ (~ Spec.storeWithReadyDocument (ragStore input)
            (Spec.documentsOf input)
          -> Spec.webSearchOnly ts)).
Proof.
  split.
  - intros store docs ts.
    destruct (liveToolsFor_cases store docs) as (Hlen & Hfile & Hweb).
    split; [reflexivity|]. split; [exact Hlen|]. split; [|split; assumption].
    destruct (isRagAvailable store (Some docs)) eqn:Hrag.
    + apply fileSearchOnly_not_both, Hfile, isRagAvailable_spec, Hrag.
    + apply webSearchOnly_not_both, Hweb.
      rewrite <- isRagAvailable_spec. congruence.
  - intros input ts.
    destruct (buildContextualRequest_cases input) as (Hlen & Hfile & Hweb).
    split; [exact Hlen|]. split; [|split; assumption].
    destruct (isRagAvailable (ragStore input) (Some (Spec.documentsOf input)))
      eqn:Hrag.
    + apply fileSearchOnly_not_both, Hfile, isRagAvailable_spec, Hrag.
    + apply webSearchOnly_not_both, Hweb.
      rewrite <- isRagAvailable_spec. congruence.
Qed.

End ToolSelection.

(** ** The transcript accumulator *)

Section Transcript.

Import GenAILiveClient.
Import LiveAPI.
Local Open Scope string_scope.

Lemma deliver_app (xs ys : list (Z * Event)) (p : Provider) :
  deliver (xs ++ ys) p = deliver ys (deliver xs p).
Proof. unfold deliver. apply fold_left_app. Qed.

(** A turn completion on an empty accumulator emits nothing and leaves the
    transcript state reset. *)
Lemma onTurnComplete_empty (now : Z) (p : Provider) :
  streamingTextRef p = "" ->
  let p' := onTurnComplete now p in
  completedTurns p' = completedTurns p
  /\ lastCompletedTurn p' = lastCompletedTurn p
  /\ turnIdRef p' = turnIdRef p
  /\ streamingTextRef p' = "" /\ streamingText p' = ""
  /\ isStreaming p' = false.
Proof.
  intros Hempty. unfold onTurnComplete. rewrite Hempty.
  cbn. repeat split; reflexivity.
Qed.

Lemma onTextDelta_spec (delta : string) (p : Provider) :
  let p' := onTextDelta delta p in
  streamingTextRef p' = streamingTextRef p ++ delta
  /\ streamingText p' = streamingTextRef p ++ delta
  /\ isStreaming p' = true
  /\ completedTurns p' = completedTurns p
  /\ lastCompletedTurn p' = lastCompletedTurn p
  /\ turnIdRef p' = turnIdRef p.
Proof. cbv zeta. unfold onTextDelta, setTranscript. cbn. auto 10. Qed.

(** A turn completion on a non-empty accumulator emits one turn, numbered
    one past the last, and resets the transcript state. *)
Lemma onTurnComplete_text (now : Z) (p : Provider) (c : ascii) (s : string) :
  streamingTextRef p = String c s ->
  let p' := onTurnComplete now p in
  let turn := {| id := "live-turn-" ++ ContextService.showNat (S (turnIdRef p));
                 turnText := String c s;
                 turnTimestamp := now |} in
  completedTurns p' = (completedTurns p ++ [turn])%list
  /\ lastCompletedTurn p' = Some turn
  /\ turnIdRef p' = S (turnIdRef p)
  /\ streamingTextRef p' = "" /\ streamingText p' = ""
  /\ isStreaming p' = false.
Proof.
  intros Htext. cbv zeta. unfold onTurnComplete. rewrite Htext.
  unfold setTranscript, completeTurn.
  cbn [completedTurns lastCompletedTurn turnIdRef streamingTextRef
       streamingText isStreaming].
  repeat split; reflexivity.
Qed.

(** C4.  From an empty accumulator, [textDelta "A"], [textDelta "B"] and
    [turnComplete] produce exactly one completed turn, with text "AB", and
    clear the accumulator; a further [turnComplete] with no delta in
    between produces no turn, and leaves [isStreaming] false and
    [streamingText] empty. *)
Theorem turn_lifecycle (p : Provider) (t1 t2 t3 t4 : Z) :
  streamingTextRef p = "" ->
  let p3 := deliver [(t1, TextDelta "A"); (t2, TextDelta "B");
                     (t3, TurnComplete)] p in
  let p4 := deliver [(t4, TurnComplete)] p3 in
  let turn := {| id := "live-turn-" ++ ContextService.showNat (S (turnIdRef p));
                 turnText := "AB";
                 turnTimestamp := t3 |} in
  completedTurns p3 = (completedTurns p ++ [turn])%list
  /\ lastCompletedTurn p3 = Some turn
  /\ streamingTextRef p3 = "" /\ streamingText p3 = ""
  /\ isStreaming p3 = false
  /\ completedTurns p4 = completedTurns p3
  /\ lastCompletedTurn p4 = lastCompletedTurn p3
  /\ isStreaming p4 = false
  /\ streamingTextRef p4 = "" /\ streamingText p4 = "".
Proof.
  intros Hempty p3 p4 turn.
  set (p1 := onTextDelta "A" p).
  set (p2 := onTextDelta "B" p1).
  assert (Hp3 : p3 = onTurnComplete t3 p2) by reflexivity.
  destruct (onTextDelta_spec "A" p) as (Ha & _ & _ & Hta & _ & Hia).
  destruct (onTextDelta_spec "B" p1) as (Hb & _ & _ & Htb & _ & Hib).
  fold p1 in Ha, Hta, Hia. fold p2 in Hb, Htb, Hib.
  rewrite Ha, Hempty in Hb. cbn [append] in Hb.
  destruct (onTurnComplete_text t3 p2 _ _ Hb)
    as (Hturns & Hlast & _ & Href & Htext & Hstream).
  rewrite <- Hp3 in Hturns, Hlast, Href, Htext, Hstream.
  rewrite Htb, Hta, Hib, Hia in Hturns. rewrite Hib, Hia in Hlast.
  destruct (onTurnComplete_empty t4 p3 Href) as (H1 & H2 & _ & H4 & H5 & H6).
  repeat split; assumption.
Qed.

End Transcript.

(** The lifecycle on a provider that has just been mounted: the one turn
    is [live-turn-1]. *)
Lemma turn_lifecycle_witness :
  let p0 := LiveAPI.initialProvider (LiveAPI.freshBrowser true true) in
  let p3 := LiveAPI.deliver
              [(10, GenAILiveClient.TextDelta "A"%string);
               (20, GenAILiveClient.TextDelta "B"%string);
               (30, GenAILiveClient.TurnComplete)] p0 in
  LiveAPI.completedTurns p3
  = [ {| LiveAPI.id := "live-turn-1"%string; LiveAPI.turnText := "AB"%string;
         LiveAPI.turnTimestamp := 30 |} ]
  /\ LiveAPI.completedTurns
       (LiveAPI.deliver [(40, GenAILiveClient.TurnComplete)] p3)
     = LiveAPI.completedTurns p3
  /\ LiveAPI.isStreaming
       (LiveAPI.deliver [(40, GenAILiveClient.TurnComplete)] p3) = false.
Proof.
  cbv zeta.
  destruct (turn_lifecycle
              (LiveAPI.initialProvider (LiveAPI.freshBrowser true true))
              10 20 30 40 eq_refl)
    as (Hturns & _ & _ & _ & _ & Hsame & _ & Hstream & _).
  split; [exact Hturns|]. split; [exact Hsame | exact Hstream].
Defined.

(** The same turn, starting from the transport: two messages with a text
    part each and the completion marker decode to the three events. *)
Example turn_from_messages :
  let text s := {| GenAILiveClient.partTextOf := Some s;
                   GenAILiveClient.partInline := None |} in
  let msg s := {| GenAILiveClient.modelTurn := Some [text s];
                  GenAILiveClient.turnComplete := false;
                  GenAILiveClient.toolCall := None |} in
  let done := {| GenAILiveClient.modelTurn := None;
                 GenAILiveClient.turnComplete := true;
                 GenAILiveClient.toolCall := None |} in
  flat_map GenAILiveClient.onmessage [msg "A"%string; msg "B"%string; done]
  = [ GenAILiveClient.Content [text "A"%string]; GenAILiveClient.TextDelta "A"%string;
      GenAILiveClient.Content [text "B"%string]; GenAILiveClient.TextDelta "B"%string;
      GenAILiveClient.TurnComplete ].
Proof. reflexivity. Qed.

(** ** Connecting without a credential *)

Section Connect.

Import GenAILiveClient.
Import LiveAPI.
Local Open Scope string_scope.

(** The client refuses an empty key before touching the transport. *)
Lemma client_connect_empty (key : option string) (c : Client) :
  SpecSession.emptyCredential key ->
  GenAILiveClient.connect key c = (Rejected "API Key required", c).
Proof. intros [-> | ->]; reflexivity. Qed.

(** The provider gives up before changing the status or calling the
    client. *)
Lemma provider_connect_empty (apiKeyEnv : option string) (p : Provider) :
  SpecSession.emptyCredential (getApiKey apiKeyEnv) ->
  LiveAPI.connect apiKeyEnv p = logError "API Key missing or invalid" p.
Proof. unfold LiveAPI.connect. intros [-> | ->]; reflexivity. Qed.

(** C9.  Connecting with an empty credential.  The transport is not
    asked for a connection and the status stays [Disconnected] without
    passing through [Connecting]; but the failure reaches no caller: the
    provider writes one line to the console and returns, and its error
    state, like everything else a consumer can read, is what it was. *)
Theorem connect_without_credential
        (apiKeyEnv : option string) (p : Provider) :
  SpecSession.emptyCredential (getApiKey apiKeyEnv) ->
  status p = Disconnected ->
  let p' := LiveAPI.connect apiKeyEnv p in
  status p' = Disconnected
  /\ transport p' = transport p
  /\ clientRef p' = clientRef p
  /\ error p' = error p
  /\ isRecording p' = isRecording p
  /\ consoleErrors p' = (consoleErrors p ++ ["API Key missing or invalid"])%list.
Proof.
  intros Hempty Hstatus p'.
  unfold p'. rewrite (provider_connect_empty _ _ Hempty).
  unfold logError.
  cbn [status transport clientRef error isRecording consoleErrors].
  repeat split; try reflexivity; assumption.
Qed.

End Connect.

(** A key made of quotes and blanks only is empty once cleaned: the
    provider, holding a client for the web-search configuration, stays
    disconnected and sends nothing. *)
Lemma connect_without_credential_witness :
  let c := GenAILiveClient.newClient (LiveAPI.liveConfigFor None []) in
  let p := LiveAPI.setClient (Some c) []
             (LiveAPI.initialProvider (LiveAPI.freshBrowser true true)) in
  let p' := LiveAPI.connect (Some " '' "%string) p in
  LiveAPI.status p' = LiveAPI.Disconnected
  /\ LiveAPI.transport p' = []
  /\ LiveAPI.clientRef p' = Some c
  /\ LiveAPI.error p' = None
  /\ LiveAPI.consoleErrors p' = ["API Key missing or invalid"%string].
Proof.
  cbv zeta.
  destruct (connect_without_credential (Some " '' "%string)
              (LiveAPI.setClient
                 (Some (GenAILiveClient.newClient (LiveAPI.liveConfigFor None [])))
                 []
                 (LiveAPI.initialProvider (LiveAPI.freshBrowser true true)))
              (or_intror eq_refl) eq_refl)
    as (Hstatus & Htransport & Hclient & Herror & _ & Hconsole).
  split; [exact Hstatus|]. split; [exact Htransport|].
  split; [exact Hclient|]. split; [exact Herror | exact Hconsole].
Defined.

(** With a key, the same call moves to [Connecting] and asks the transport
    for a session. *)
Example connect_with_credential :
  let c := GenAILiveClient.newClient (LiveAPI.liveConfigFor None []) in
  let p := LiveAPI.setClient (Some c) []
             (LiveAPI.initialProvider (LiveAPI.freshBrowser true true)) in
  let p' := LiveAPI.connect (Some "'k3y' "%string) p in
  LiveAPI.status p' = LiveAPI.ConnectingStatus
  /\ map GenAILiveClient.reqApiKey (LiveAPI.transport p') = ["k3y"%string].
Proof. cbv zeta. split; reflexivity. Qed.

(** ** Starting the microphone twice *)

(** [start] never looks at the handles the recorder already holds. *)
Lemma start_ignores_handles (r : AudioRecorder.Recorder)
      (b : AudioRecorder.Browser) :
  AudioRecorder.mediaDevices b = true ->
  AudioRecorder.micPermission b = true ->
  let b' := snd (AudioRecorder.start r b) in
  AudioRecorder.liveStreams b'
  = (AudioRecorder.liveStreams b ++ [AudioRecorder.nextHandle b])%list
  /\ List.length (AudioRecorder.openContexts b')
     = S (List.length (AudioRecorder.openContexts b))
  /\ List.length (AudioRecorder.sourceNodes b')
     = S (List.length (AudioRecorder.sourceNodes b))
  /\ List.length (AudioRecorder.processorNodes b')
     = S (List.length (AudioRecorder.processorNodes b)).
Proof.
  intros Hdev Hmic. unfold AudioRecorder.start. rewrite Hdev, Hmic.
  cbn. rewrite !length_app. cbn. repeat split; lia.
Qed.

(** C8, as the code has it.  Two starts in a row, on the recorder itself
    or through the provider's [startRecording], leave two microphone
    streams, two recorder contexts, two source nodes and two processor
    nodes alive; the recorder keeps handles to the second set only, so
    [stop] cannot release the first, and every block of input is emitted
    twice. *)
Theorem second_start_duplicates_audio_graph :
  let b0 := LiveAPI.freshBrowser true true in
  let '(_, r1, b1) := AudioRecorder.start AudioRecorder.newRecorder b0 in
  let '(_, r2, b2) := AudioRecorder.start r1 b1 in
  let p2 := LiveAPI.startRecording
              (LiveAPI.startRecording (LiveAPI.initialProvider b0)) in
  AudioRecorder.liveStreams b2 = [0; 4]%nat
  /\ AudioRecorder.openContexts b2 = [1; 5]%nat
  /\ AudioRecorder.sourceNodes b2 = [2; 6]%nat
  /\ AudioRecorder.processorNodes b2 = [3; 7]%nat
  /\ AudioRecorder.stream r2 = Some 4%nat
  /\ List.length (AudioRecorder.liveStreams (LiveAPI.browser p2)) = 2%nat
  /\ List.length (AudioRecorder.sourceNodes (LiveAPI.browser p2)) = 2%nat
  /\ List.length (AudioRecorder.processorNodes (LiveAPI.browser p2)) = 2%nat
  /\ AudioRecorder.liveStreams
       (snd (AudioRecorder.stop r2 b2)) = [0%nat]
  /\ AudioRecorder.audioProcess b2 [Js.Fin 1] = [[255; 127]; [255; 127]].
Proof. cbv zeta. cbn. repeat split; reflexivity. Qed.

(** ** The frame differ *)

Section FrameDiffer.

Import ScreenCapture.

Variable config : ScreenCaptureConfig.

Lemma read_in_range (buf : PixelBuffer) (i : Z) :
  0 <= i < Z.of_nat (List.length buf) ->
  read buf i = Some (nth (Z.to_nat i) buf 0).
Proof.
  intros [Hlo Hhi]. unfold read.
  destruct (Z.ltb_spec i 0) as [Hneg|_]; [lia|].
  apply nth_error_nth'. lia.
Qed.

(** The loop counts the samples the test accepts. *)
Lemma sampleLoop_counts (current previous : PixelBuffer) (step : Z) :
  forall (n i0 : nat) (acc : Z),
    sampleLoop current previous step n (Z.of_nat i0) acc
    = acc + Z.of_nat
              (List.length
                 (filter (fun i => pixelMatches current previous step
                                                (Z.of_nat i))
                         (seq i0 n))).
Proof.
  induction n as [|n IH]; intros i0 acc.
  - simpl. lia.
  - cbn [sampleLoop seq filter].
    replace (Z.of_nat i0 + 1) with (Z.of_nat (S i0)) by lia.
    rewrite IH.
    destruct (pixelMatches current previous step (Z.of_nat i0));
      cbn [List.length]; lia.
Qed.

(** Inside the buffers the code's test is the specification's. *)
Lemma pixelMatches_in_range (current previous : PixelBuffer) (step i : Z) :
  List.length current = List.length previous ->
  0 <= i * step ->
  (i * step) * 4 + 3 < Z.of_nat (List.length current) ->
  pixelMatches current previous step i
  = SpecDiffer.pixelMatch current previous (i * step).
Proof.
  intros Hlen Hlo Hhi.
  unfold pixelMatches, SpecDiffer.pixelMatch, SpecDiffer.channelOf,
    SpecDiffer.withinTolerance, tolerance.
  cbv zeta.
  rewrite !read_in_range by lia.
  replace (i * step * 4 + 0) with (i * step * 4) by lia.
  reflexivity.
Qed.

(** Every sampled pixel lies inside the frame. *)
Lemma sample_inside_frame (width height i : Z) :
  0 < diffSampleSize config -> 0 < width -> 0 < height ->
  0 <= i < sampleSizeOf config width height ->
  let step := (width * height) / sampleSizeOf config width height in
  0 <= i * step /\ i * step + 1 <= width * height.
Proof.
  intros Hs Hw Hh Hi. unfold sampleSizeOf in *.
  set (area := width * height) in *.
  assert (Harea : 0 < area) by (unfold area; nia).
  set (s := Z.min (diffSampleSize config) area) in *.
  assert (Hspos : 0 < s) by (unfold s; lia).
  assert (Hsle : s <= area) by (unfold s; lia).
  cbv zeta.
  assert (Hmul : s * (area / s) <= area) by (apply Z.mul_div_le; lia).
  assert (Hstep : 1 <= area / s)
    by (apply Z.div_le_lower_bound; lia).
  split; nia.
Qed.

Lemma filter_all (A : Type) (f : A -> bool) (l : list A) :
  (forall x, In x l -> f x = true) -> filter f l = l.
Proof.
  induction l as [|x l IH]; intros Hall; [reflexivity|].
  cbn [filter]. rewrite (Hall x (or_introl eq_refl)).
  f_equal. apply IH. intros y Hy. apply Hall. right. exact Hy.
Qed.

Lemma pixelMatch_refl (buf : PixelBuffer) (k : Z) :
  SpecDiffer.pixelMatch buf buf k = true.
Proof.
  unfold SpecDiffer.pixelMatch, SpecDiffer.withinTolerance.
  rewrite !Z.sub_diag. reflexivity.
Qed.

(** On frame buffers the code's match count is the specification's. *)
Lemma matchCountOf_spec (current previous : PixelBuffer) (width height : Z) :
  0 < diffSampleSize config -> 0 < width -> 0 < height ->
  SpecDiffer.frameBuffer width height current ->
  List.length current = List.length previous ->
  matchCountOf config current previous width height
  = SpecDiffer.matchCount current previous
      ((width * height) / sampleSizeOf config width height)
      (Z.to_nat (sampleSizeOf config width height)).
Proof.
  intros Hs Hw Hh Hbuf Hlen.
  unfold matchCountOf, SpecDiffer.matchCount, SpecDiffer.sampledPixels.
  cbv zeta.
  rewrite (sampleLoop_counts current previous _ _ 0%nat 0).
  rewrite Z.add_0_l. f_equal.
  rewrite filter_map_swap, length_map. f_equal.
  apply filter_ext_in. intros i Hin. apply in_seq in Hin.
  destruct (sample_inside_frame width height (Z.of_nat i) Hs Hw Hh)
    as [Hlo Hhi]; [lia|].
  unfold SpecDiffer.frameBuffer in Hbuf.
  apply pixelMatches_in_range; [exact Hlen | exact Hlo | lia].
Qed.

Lemma sampleSizeOf_pos (width height : Z) :
  0 < diffSampleSize config -> 0 < width -> 0 < height ->
  0 < sampleSizeOf config width height.
Proof. intros Hs Hw Hh. unfold sampleSizeOf. nia. Qed.

Lemma matchCount_bounds (current previous : PixelBuffer) (step : Z)
      (n : nat) :
  0 <= SpecDiffer.matchCount current previous step n <= Z.of_nat n.
Proof.
  unfold SpecDiffer.matchCount, SpecDiffer.sampledPixels.
  pose proof (filter_length_le (SpecDiffer.pixelMatch current previous)
                (map (fun i => Z.of_nat i * step) (seq 0 n))) as Hle.
  rewrite length_map, length_seq in Hle. lia.
Qed.

Lemma matchCount_identical (buf : PixelBuffer) (step : Z) (n : nat) :
  SpecDiffer.matchCount buf buf step n = Z.of_nat n.
Proof.
  unfold SpecDiffer.matchCount, SpecDiffer.sampledPixels.
  rewrite filter_all by (intros; apply pixelMatch_refl).
  rewrite length_map, length_seq. reflexivity.
Qed.

Lemma ratio_in_unit_interval (m s : Z) :
  0 < s -> 0 <= m <= s ->
  (0 <= inject_Z m / inject_Z s /\ inject_Z m / inject_Z s <= 1)%Q.
Proof.
  intros Hs [Hlo Hhi].
  assert (Hsq : (0 < inject_Z s)%Q)
    by (change 0%Q with (inject_Z 0); rewrite <- Zlt_Qlt; exact Hs).
  split.
  - apply Qle_shift_div_l; [exact Hsq|].
    rewrite Qmult_0_l. change 0%Q with (inject_Z 0).
    rewrite <- Zle_Qle. exact Hlo.
  - apply Qle_shift_div_r; [exact Hsq|].
    rewrite Qmult_1_l. rewrite <- Zle_Qle. exact Hhi.
Qed.

Lemma compareFrames_length_mismatch (current previous : PixelBuffer)
      (width height : Z) :
  List.length current <> List.length previous ->
  compareFrames config current previous width height = Js.Fin 0.
Proof.
  intros Hne. unfold compareFrames.
  apply Nat.eqb_neq in Hne. rewrite Hne. reflexivity.
Qed.

(** C6.  For the buffers of a [width] x [height] frame and a positive
    sample size: the similarity lies in [0, 1]; it is 1 when the two
    buffers are identical; it is 0 when their lengths differ; and otherwise
    it is [matchCount / sampleSize], a sampled pixel matching exactly when
    its red, green and blue channels are each within 10 of the previous
    frame's (alpha plays no part). *)
Theorem compareFrames_similarity
        (current previous : PixelBuffer) (width height : Z) :
  0 < diffSampleSize config -> 0 < width -> 0 < height ->
  SpecDiffer.frameBuffer width height current ->
  let sampleSize := Z.min (diffSampleSize config) (width * height) in
  let step := (width * height) / sampleSize in
  let similarity := compareFrames config current previous width height in
  Js.in_unit_interval similarity
  /\ (current = previous -> Js.eqb similarity (Js.Fin 1) = true)
  /\ (List.length current <> List.length previous -> similarity = Js.Fin 0)
  /\ (List.length current = List.length previous ->
      similarity
      = Js.Fin (inject_Z (SpecDiffer.matchCount current previous step
                            (Z.to_nat sampleSize))
                / inject_Z sampleSize)).
Proof.
  intros Hs Hw Hh Hbuf sampleSize step similarity.
  pose proof (sampleSizeOf_pos width height Hs Hw Hh) as Hpos.
  fold (sampleSizeOf config width height) in sampleSize.
  assert (Hsame : List.length current = List.length previous ->
                  similarity
                  = Js.Fin (inject_Z (SpecDiffer.matchCount current previous
                                        step (Z.to_nat sampleSize))
                            / inject_Z sampleSize)).
  { intros Hlen. unfold similarity, compareFrames.
    rewrite Hlen, Nat.eqb_refl. cbn [negb].
    rewrite (matchCountOf_spec current previous width height Hs Hw Hh Hbuf Hlen).
    fold sampleSize. fold step.
    unfold Js.div_int.
    destruct (Z.eqb_spec sampleSize 0) as [H0|_]; [unfold sampleSize in H0; lia|].
    reflexivity. }
  split; [|split; [|split]].
  - destruct (Nat.eq_dec (List.length current) (List.length previous))
      as [Hlen|Hne].
    + rewrite (Hsame Hlen). cbn [Js.in_unit_interval].
      apply ratio_in_unit_interval; [exact Hpos|].
      pose proof (matchCount_bounds current previous step
                    (Z.to_nat sampleSize)) as Hb.
      unfold sampleSize in *. lia.
    + unfold similarity.
      rewrite (compareFrames_length_mismatch _ _ _ _ Hne).
      cbn. split; discriminate.
  - intros <-. rewrite (Hsame eq_refl). cbn [Js.eqb].
    rewrite matchCount_identical, Z2Nat.id by (unfold sampleSize; lia).
    apply Qeq_bool_iff. apply Qmult_inv_r.
    intros Habs. apply (Qlt_irrefl 0).
    rewrite <- Habs at 2. change 0%Q with (inject_Z 0).
    rewrite <- Zlt_Qlt. exact Hpos.
  - apply compareFrames_length_mismatch.
  - exact Hsame.
Qed.

End FrameDiffer.

(** ** The PCM16 codec *)

Section Codec.

Import AudioRecorder.
Import AudioStreamer.

(** Two bytes written by [setInt16] read back as the same value. *)
Lemma int16_bytes_round_trip (v : Z) :
  -32768 <= v < 32768 ->
  getInt16LE (Z.land (Z.land v 65535) 255) (Z.shiftr (Z.land v 65535) 8) = v.
Proof.
  intros Hv. unfold getInt16LE.
  set (u := Z.land v 65535).
  assert (Hu : u = v mod 65536).
  { unfold u. change 65535 with (Z.ones 16). apply Z.land_ones. lia. }
  assert (Hjoin : Z.lor (Z.land u 255) (Z.shiftl (Z.shiftr u 8) 8) = u).
  { apply Z.bits_inj'. intros n Hn.
    rewrite Z.lor_spec, Z.land_spec.
    change 255 with (Z.ones 8). rewrite Z.testbit_ones by lia.
    destruct (Z.ltb_spec n 8) as [Hlow|Hhigh].
    - rewrite Z.shiftl_spec_low by lia.
      destruct (Z.leb_spec 0 n); [|lia].
      rewrite andb_true_r, orb_false_r. reflexivity.
    - rewrite Z.shiftl_spec by lia. rewrite Z.shiftr_spec by lia.
      rewrite andb_false_r, andb_false_r. cbn [orb].
      f_equal. lia. }
  rewrite Hjoin.
  destruct (Z.lt_ge_cases v 0) as [Hneg|Hpos].
  - assert (Hwrap : u = v + 65536).
    { rewrite Hu. rewrite <- (Z.mod_add v 1 65536) by lia.
      apply Z.mod_small. lia. }
    destruct (Z.leb_spec 32768 u); lia.
  - assert (Hsame : u = v) by (rewrite Hu; apply Z.mod_small; lia).
    destruct (Z.leb_spec 32768 u); lia.
Qed.

(** [ToInt16] always lands in the signed 16-bit range. *)
Lemma toInt16_range (s : Js.number) : -32768 <= toInt16 s < 32768.
Proof.
  destruct s; cbn [toInt16]; try lia.
  pose proof (Z.mod_pos_bound (truncate q + 32768) 65536). lia.
Qed.

(** Decoding what was encoded gives, sample by sample, the stored 16-bit
    value over 32768. *)
Lemma decode_encode (input : list Js.number) :
  pcm16ToFloat (floatTo16BitPCM input)
  = Some (map (fun x => (inject_Z (sampleToInt16 x) / 32768)%Q) input).
Proof.
  induction input as [|x rest IH]; [reflexivity|].
  cbn [floatTo16BitPCM setInt16LE app pcm16ToFloat map].
  rewrite IH.
  rewrite int16_bytes_round_trip by apply toInt16_range.
  reflexivity.
Qed.

(** Inside [-1, 1] the clamp changes nothing. *)
Lemma clampUnit_inside (q : Q) :
  SpecCodec.inUnitRange q -> clampUnit (Js.Fin q) = Js.Fin q.
Proof.
  intros [Hlo Hhi]. cbn [clampUnit].
  destruct (Qlt_le_dec 1 q) as [Habs|_]; [lra|].
  destruct (Qlt_le_dec q (-1)) as [Habs|_]; [lra|].
  reflexivity.
Qed.

(** The stored value of a negative sample: [32768 q] rounded up. *)
Lemma sampleToInt16_negative (q : Q) :
  SpecCodec.inUnitRange q -> (q < 0)%Q ->
  sampleToInt16 (Js.Fin q) = Qceiling (q * 32768).
Proof.
  intros Hin Hneg. unfold sampleToInt16.
  rewrite (clampUnit_inside q Hin). cbn [scaleSample Js.lt].
  destruct (Qlt_le_dec q 0) as [_|Habs]; [|lra].
  cbn [toInt16]. unfold truncate.
  destruct (Qlt_le_dec (q * 32768) 0) as [_|Habs]; [|lra].
  destruct Hin as [Hlo Hhi].
  pose proof (Qle_ceiling (q * 32768)) as Hc1.
  pose proof (Qceiling_lt (q * 32768)) as Hc2.
  set (c := Qceiling (q * 32768)) in *.
  assert (Hc : -32768 <= c <= 0).
  { split.
    - rewrite Zle_Qle. change (inject_Z (-32768)) with (-32768)%Q. lra.
    - assert (Hlt : c - 1 < 0); [|lia].
      rewrite Zlt_Qlt. change (inject_Z 0) with 0%Q. lra. }
  rewrite Z.mod_small by lia. lia.
Qed.

(** The stored value of a sample that is not negative: [32767 q] rounded
    down. *)
Lemma sampleToInt16_nonnegative (q : Q) :
  SpecCodec.inUnitRange q -> (0 <= q)%Q ->
  sampleToInt16 (Js.Fin q) = Qfloor (q * 32767).
Proof.
  intros Hin Hpos. unfold sampleToInt16.
  rewrite (clampUnit_inside q Hin). cbn [scaleSample Js.lt].
  destruct (Qlt_le_dec q 0) as [Habs|_]; [lra|].
  cbn [toInt16]. unfold truncate.
  destruct (Qlt_le_dec (q * 32767) 0) as [Habs|_]; [lra|].
  destruct Hin as [Hlo Hhi].
  pose proof (Qfloor_le (q * 32767)) as Hf1.
  pose proof (Qlt_floor (q * 32767)) as Hf2.
  set (f := Qfloor (q * 32767)) in *.
  assert (Hf : 0 <= f <= 32767).
  { split.
    - assert (Hlt : 0 < f + 1); [|lia].
      rewrite Zlt_Qlt. change (inject_Z 0) with 0%Q. lra.
    - rewrite Zle_Qle. change (inject_Z 32767) with 32767%Q. lra. }
  rewrite Z.mod_small by lia. lia.
Qed.

Lemma inject_Z_pred (c : Z) : (inject_Z (c - 1) == inject_Z c - 1)%Q.
Proof.
  unfold Z.sub. rewrite inject_Z_plus, inject_Z_opp. reflexivity.
Qed.

Lemma inject_Z_succ (c : Z) : (inject_Z (c + 1) == inject_Z c + 1)%Q.
Proof. rewrite inject_Z_plus. reflexivity. Qed.

(** The error of one sample: below two steps, and below one step for a
    sample that is not positive. *)
Lemma sample_error (q : Q) :
  SpecCodec.inUnitRange q ->
  let y := (inject_Z (sampleToInt16 (Js.Fin q)) / 32768)%Q in
  (Qabs (q - y) < 2 * SpecCodec.quantum)%Q
  /\ ((q <= 0)%Q -> (Qabs (q - y) < SpecCodec.quantum)%Q).
Proof.
  intros Hin. pose proof Hin as [Hlo Hhi]. cbv zeta.
  unfold SpecCodec.quantum.
  destruct (Qlt_le_dec q 0) as [Hneg|Hpos].
  - rewrite (sampleToInt16_negative q Hin Hneg).
    pose proof (Qle_ceiling (q * 32768)) as Hc1.
    pose proof (Qceiling_lt (q * 32768)) as Hc2.
    rewrite inject_Z_pred in Hc2.
    set (c := inject_Z (Qceiling (q * 32768))) in *.
    assert (Hy : ((c / 32768) * 32768 == c)%Q) by field.
    set (y := (c / 32768)%Q) in *. clearbody y c.
    split; [|intros _]; apply Qabs_Qlt_condition; split; lra.
  - rewrite (sampleToInt16_nonnegative q Hin Hpos).
    pose proof (Qfloor_le (q * 32767)) as Hf1.
    pose proof (Qlt_floor (q * 32767)) as Hf2.
    rewrite inject_Z_succ in Hf2.
    set (f := inject_Z (Qfloor (q * 32767))) in *.
    assert (Hy : ((f / 32768) * 32768 == f)%Q) by field.
    set (y := (f / 32768)%Q) in *. clearbody y f.
    split; [|intros Hle]; apply Qabs_Qlt_condition; split; lra.
Qed.

(** C5, amended.  For samples in [-1, 1], decoding the encoding reproduces
    every sample with an absolute error below two quantization steps
    (2/32768); for samples that are not positive the error is below one
    step. *)
Theorem pcm16_round_trip (xs : list Q) :
  Forall SpecCodec.inUnitRange xs ->
  exists ys,
    SpecCodec.roundTrip xs = Some ys
    /\ Forall2 (fun x y =>
                  (Qabs (x - y) < 2 * SpecCodec.quantum)%Q
                  /\ ((x <= 0)%Q -> (Qabs (x - y) < SpecCodec.quantum)%Q))
               xs ys.
Proof.
  intros Hall. unfold SpecCodec.roundTrip. rewrite decode_encode.
  eexists. split; [reflexivity|].
  rewrite map_map.
  induction Hall as [|x rest Hx Hrest IH]; cbn [map]; constructor.
  - apply (sample_error x Hx).
  - exact IH.
Qed.

End Codec.

(** C5 as stated fails: the float32 value [1 - 2^-16] is stored as 32766
    and read back as [32766/32768], one and a half steps below it. *)
Lemma pcm16_round_trip_exceeds_one_step :
  let x := (65535 # 65536)%Q in
  SpecCodec.inUnitRange x
  /\ SpecCodec.roundTrip [x] = Some [(32766 # 32768)%Q]
  /\ ~ SpecCodec.within 1 x (32766 # 32768).
Proof.
  cbv zeta. split; [|split].
  - split; discriminate.
  - vm_compute. reflexivity.
  - unfold SpecCodec.within. vm_compute. intros H. apply H. reflexivity.
Qed.

(** Three samples, one of them the value above. *)
Lemma pcm16_round_trip_witness :
  exists ys,
    SpecCodec.roundTrip [(65535 # 65536)%Q; (- (1 # 3))%Q; 1%Q] = Some ys
    /\ Forall2 (fun x y =>
                  (Qabs (x - y) < 2 * SpecCodec.quantum)%Q
                  /\ ((x <= 0)%Q -> (Qabs (x - y) < SpecCodec.quantum)%Q))
               [(65535 # 65536)%Q; (- (1 # 3))%Q; 1%Q] ys.
Proof.
  apply (pcm16_round_trip [(65535 # 65536)%Q; (- (1 # 3))%Q; 1%Q]).
  repeat constructor; discriminate.
Defined.

(** The differ on the 5 x 4 screen with one pixel changed: nineteen of the
    twenty sampled pixels match. *)
Lemma compareFrames_similarity_witness :
  Js.in_unit_interval
    (ScreenCapture.compareFrames Scenario.appConfig
       (Scenario.frameWith 1) Scenario.blackFrame 5 4)
  /\ ScreenCapture.compareFrames Scenario.appConfig
       (Scenario.frameWith 1) Scenario.blackFrame 5 4
     = Js.Fin (inject_Z 19 / inject_Z 20).
Proof.
  destruct (compareFrames_similarity Scenario.appConfig
              (Scenario.frameWith 1) Scenario.blackFrame 5 4
              eq_refl eq_refl eq_refl eq_refl)
    as (Hunit & _ & _ & Hratio).
  split; [exact Hunit | exact (Hratio eq_refl)].
Defined.

(** Outside the theorem's domain: with [diffSampleSize = 0] nothing is
    sampled and the quotient is [0/0]. *)
Example compareFrames_without_samples :
  ScreenCapture.compareFrames
    {| ScreenCapture.minIntervalMs := 750;
       ScreenCapture.maxIntervalMs := 2000;
       ScreenCapture.idleTimeoutMs := 3000;
       ScreenCapture.diffThreshold := Js.Fin (92 # 100);
       ScreenCapture.jpegQuality := ScreenCapture.Quality (75 # 100);
       ScreenCapture.diffSampleSize := 0 |}
    Scenario.blackFrame Scenario.blackFrame 5 4 = Js.NaN.
Proof. reflexivity. Qed.

(** C6 as stated, for every pair of buffers, fails in three ways.  With
    [diffSampleSize = 0] two identical buffers score [0/0], which is NaN:
    not 1, and not in [0, 1].  The same happens for a frame of no pixels.
    And two identical buffers shorter than the frame they are compared as
    score below 1, since the samples past their end read [undefined]. *)
Lemma compareFrames_identical_not_one :
  let noSamples :=
    {| ScreenCapture.minIntervalMs := 750;
       ScreenCapture.maxIntervalMs := 2000;
       ScreenCapture.idleTimeoutMs := 3000;
       ScreenCapture.diffThreshold := Js.Fin (92 # 100);
       ScreenCapture.jpegQuality := ScreenCapture.Quality (75 # 100);
       ScreenCapture.diffSampleSize := 0 |} in
  let pixel := [0; 0; 0; 255] in
  (Js.eqb (ScreenCapture.compareFrames noSamples Scenario.blackFrame
             Scenario.blackFrame 5 4) (Js.Fin 1) = false
   /\ ~ Js.in_unit_interval
          (ScreenCapture.compareFrames noSamples Scenario.blackFrame
             Scenario.blackFrame 5 4))
  /\ ~ Js.in_unit_interval
         (ScreenCapture.compareFrames Scenario.appConfig [] [] 0 0)
  /\ ScreenCapture.compareFrames Scenario.appConfig pixel pixel 2 2
     = Js.Fin (1 # 4)
  /\ Js.eqb (ScreenCapture.compareFrames Scenario.appConfig pixel pixel 2 2)
            (Js.Fin 1) = false.
Proof.
  cbv zeta. split; [split|split; [|split]].
  - reflexivity.
  - vm_compute. intros H. exact H.
  - vm_compute. intros H. exact H.
  - reflexivity.
  - reflexivity.
Qed.

(** ** The playback queue *)

Section Playback.

Import AudioStreamer.
Import SpecPlayback.

Lemma contiguous_app (t : Z) (xs ys : list (list Q)) :
  contiguous t (xs ++ ys)
  = contiguous t xs ++ contiguous (t + duration xs) ys.
Proof.
  revert t. induction xs as [|x xs IH]; intros t; cbn [app contiguous duration].
  - rewrite Z.add_0_r. reflexivity.
  - rewrite IH. do 3 f_equal. lia.
Qed.

Lemma duration_app (xs ys : list (list Q)) :
  duration (xs ++ ys) = duration xs + duration ys.
Proof. induction xs as [|x xs IH]; cbn [app duration]; lia. Qed.

Lemma duration_nonneg (xs : list (list Q)) : 0 <= duration xs.
Proof. induction xs as [|x xs IH]; cbn [duration]; lia. Qed.

(** A well-formed chunk decodes to a buffer of half its length. *)
Lemma pcm16ToFloat_wellFormed (chunk : list Z) :
  wellFormedChunk chunk ->
  exists buf, pcm16ToFloat chunk = Some buf
              /\ Z.of_nat (List.length buf) = samples chunk
              /\ buf <> [].
Proof.
  intros (n & Hpos & Hlen).
  assert (Hdec : forall (m : nat) (c : list Z),
             List.length c = (2 * m)%nat ->
             exists buf, pcm16ToFloat c = Some buf /\ List.length buf = m).
  { induction m as [|m IH]; intros c Hc.
    - destruct c; [|discriminate]. exists []. split; reflexivity.
    - destruct c as [|b0 [|b1 c']]; cbn [List.length] in Hc; try lia.
      destruct (IH c') as (buf & Hbuf & Hm); [lia|].
      cbn [pcm16ToFloat]. rewrite Hbuf. eexists. split; [reflexivity|].
      cbn [List.length]. lia. }
  destruct (Hdec n chunk Hlen) as (buf & Hbuf & Hn).
  exists buf. split; [exact Hbuf|]. split.
  - unfold samples. rewrite Hlen, Hn.
    rewrite Nat2Z.inj_mul. rewrite Z.mul_comm. rewrite Z.div_mul; lia.
  - intros ->. cbn in Hn. lia.
Qed.

(** Running the pending callback of a playing streamer starts the head of
    the queue at the due time and leaves one callback, due at its end. *)
Lemma fire_running (w : World) (next : Z) (k : Task) (b : list Q)
      (rest : list (list Q)) (log : list (Z * list Q)) :
  tasks w = [(next, k)] ->
  Running w next (b :: rest) log ->
  Running (runTask k (firing w next)) (next + Z.of_nat (List.length b)) rest
          (log ++ [(next, b)]).
Proof.
  intros Hk ((k' & Hk' & Hgain) & Hq & Hplay & Hlog & Hclock & Hne).
  rewrite Hk in Hk'. injection Hk' as <-.
  assert (Hb : b <> []) by (inversion Hne; assumption).
  assert (Hlen : (Z.of_nat (List.length b) =? 0) = false).
  { apply Z.eqb_neq. destruct b; [congruence|]. cbn [List.length]. lia. }
  assert (Hrun : runTask k (firing w next) = scheduleNextBuffer (firing w next))
    by (destruct k; [reflexivity | reflexivity | congruence]).
  rewrite Hrun. unfold scheduleNextBuffer, firing.
  cbn [streamer audioQueue clock tasks started completed isPlaying
       isStreamComplete].
  rewrite Hk, Hq, Hlen, Hlog, (Z.max_r _ _ Hclock). cbn [tl].
  unfold Running.
  cbn [streamer audioQueue clock tasks started completed isPlaying
       isStreamComplete schedule].
  repeat split.
  - exists SourceEnded. split; [reflexivity | discriminate].
  - exact Hplay.
  - lia.
  - inversion Hne; assumption.
Qed.

(** Advancing a playing streamer to a time before the queue runs dry
    plays a prefix of the queue back to back and keeps it playing. *)
Lemma runDue_running (a : Z) :
  forall (fuel : nat) (w : World) (next : Z) (pending : list (list Q))
         (log : list (Z * list Q)),
    Running w next pending log ->
    a < next + duration pending ->
    (List.length pending < fuel)%nat ->
    exists done todo,
      pending = done ++ todo
      /\ Running (runDue fuel a w) (next + duration done) todo
                 (log ++ contiguous next done)
      /\ a < next + duration done.
Proof.
  induction fuel as [|fuel IH]; intros w next pending log Hrun Hdead Hfuel;
    [lia|].
  pose proof Hrun as ((k & Hk & Hgain) & Hq & Hplay & Hlog & Hclock & Hne).
  cbn [runDue]. rewrite Hk.
  destruct (Z.leb_spec next a) as [Hdue|Hlater].
  - destruct pending as [|b rest].
    { cbn [duration] in Hdead. lia. }
    pose proof (fire_running w next k b rest log Hk Hrun) as Hrun'.
    cbn [duration] in Hdead. cbn [List.length] in Hfuel.
    destruct (IH _ _ _ _ Hrun') as (done & todo & Hsplit & Hrun'' & Ha);
      [lia | lia |].
    exists (b :: done), todo. cbn [app duration contiguous].
    split; [congruence|]. split.
    + rewrite <- app_assoc in Hrun''. cbn [app] in Hrun''.
      replace (next + (Z.of_nat (List.length b) + duration done))
        with (next + Z.of_nat (List.length b) + duration done) by lia.
      exact Hrun''.
    + lia.
  - exists [], pending. cbn [app duration contiguous].
    rewrite Z.add_0_r, app_nil_r. repeat split; try assumption.
    exists k. split; assumption.
Qed.

(** Letting the clock reach [a] after that keeps the streamer playing. *)
Lemma advanceTo_running (a : Z) (w : World) (next : Z)
      (pending : list (list Q)) (log : list (Z * list Q)) :
  Running w next pending log ->
  a < next + duration pending ->
  exists done todo,
    pending = done ++ todo
    /\ Running (advanceTo a w) (next + duration done) todo
               (log ++ contiguous next done).
Proof.
  intros Hrun Hdead.
  destruct (runDue_running a (enoughFuel w) w next pending log Hrun Hdead)
    as (done & todo & Hsplit & Hrun' & Ha).
  { destruct Hrun as ((k & Hk & _) & Hq & _).
    unfold enoughFuel. rewrite Hk, Hq. cbn [List.length]. lia. }
  exists done, todo. split; [exact Hsplit|].
  destruct Hrun' as (Htask & Hq & Hplay & Hlog & Hclock & Hne).
  unfold advanceTo, Running.
  cbn [streamer audioQueue clock tasks started completed isPlaying].
  repeat split; try assumption. lia.
Qed.

(** A chunk added to a playing streamer joins the queue and nothing else
    changes. *)
Lemma addPCM16_running (chunk : list Z) (buf : list Q) (w : World) (next : Z)
      (pending : list (list Q)) (log : list (Z * list Q)) :
  pcm16ToFloat chunk = Some buf -> buf <> [] ->
  Running w next pending log ->
  exists w', addPCM16 chunk w = Some w'
             /\ Running w' next (pending ++ [buf]) log.
Proof.
  intros Hdec Hbuf (Htask & Hq & Hplay & Hlog & Hclock & Hne).
  unfold addPCM16. rewrite Hdec, Hplay. cbn [negb].
  eexists. split; [reflexivity|].
  unfold Running.
  cbn [streamer audioQueue clock tasks started completed isPlaying].
  rewrite Hq. repeat split; try assumption.
  apply Forall_app. split; [assumption|]. constructor; [assumption|constructor].
Qed.

(** Left alone, a playing streamer plays its whole queue back to back and
    comes to rest. *)
Lemma drain_running :
  forall (fuel : nat) (w : World) (next : Z) (pending : list (list Q))
         (log : list (Z * list Q)),
    Running w next pending log ->
    (List.length pending < fuel)%nat ->
    tasks (drain fuel w) = []
    /\ audioQueue (streamer (drain fuel w)) = []
    /\ started (drain fuel w) = log ++ contiguous next pending.
Proof.
  induction fuel as [|fuel IH]; intros w next pending log Hrun Hfuel; [lia|].
  pose proof Hrun as ((k & Hk & Hgain) & Hq & Hplay & Hlog & Hclock & Hne).
  cbn [drain]. rewrite Hk.
  destruct pending as [|b rest].
  - assert (Hdone : tasks (runTask k (firing w next)) = []
                    /\ audioQueue (streamer (runTask k (firing w next))) = []
                    /\ started (runTask k (firing w next)) = log).
    { assert (Hrun' : runTask k (firing w next)
                      = scheduleNextBuffer (firing w next))
        by (destruct k; [reflexivity | reflexivity | congruence]).
      rewrite Hrun'. unfold scheduleNextBuffer, firing.
      cbn [streamer audioQueue clock tasks started completed isPlaying
           isStreamComplete].
      rewrite Hk, Hq. cbn [tl].
      destruct (isStreamComplete (streamer w)); cbn; auto. }
    destruct Hdone as (Ht & Hqueue & Hs).
    cbn [contiguous]. rewrite app_nil_r.
    destruct fuel; cbn [drain]; [|rewrite Ht]; auto.
  - pose proof (fire_running w next k b rest log Hk Hrun) as Hrun'.
    cbn [List.length] in Hfuel.
    destruct (IH _ _ _ _ Hrun') as (Ht & Hqueue & Hs); [lia|].
    split; [exact Ht|]. split; [exact Hqueue|].
    rewrite Hs, <- app_assoc. reflexivity.
Qed.

(** Chunks that keep arriving in time are all queued, in order, while the
    streamer goes on playing back to back. *)
Lemma arrivals_running :
  forall (rest : list (Z * list Z)) (w : World) (next : Z)
         (pending : list (list Q)) (log : list (Z * list Q)),
    Running w next pending log ->
    Forall wellFormedChunk (map snd rest) ->
    fedInTime (next + duration pending) rest ->
    exists wf bufs next' todo log',
      fold_left arrive rest (Some w) = Some wf
      /\ decodes (map snd rest) bufs
      /\ Running wf next' todo log'
      /\ log' ++ contiguous next' todo
         = log ++ contiguous next (pending ++ bufs).
Proof.
  induction rest as [|[a chunk] rest IH];
    intros w next pending log Hrun Hwf Hfed.
  - exists w, [], next, pending, log. rewrite app_nil_r.
    split; [reflexivity|]. split; [reflexivity|].
    split; [exact Hrun | reflexivity].
  - cbn [map snd] in Hwf. inversion Hwf as [|? ? Hchunk Hrest]; subst.
    cbn [fedInTime] in Hfed. destruct Hfed as [Ha Hfed].
    destruct (advanceTo_running a w next pending log Hrun Ha)
      as (done & todo & Hsplit & Hrun1).
    destruct (pcm16ToFloat_wellFormed chunk Hchunk)
      as (buf & Hdec & Hlen & Hbuf).
    destruct (addPCM16_running chunk buf _ _ _ _ Hdec Hbuf Hrun1)
      as (w2 & Hadd & Hrun2).
    destruct (IH w2 _ _ _ Hrun2 Hrest)
      as (wf & bufs & next' & todo' & log' & Hfold & Hdecs & Hrunf & Hlog).
    { rewrite duration_app. cbn [duration].
      rewrite Hsplit, duration_app in Hfed. rewrite Hlen.
      replace (next + duration done + (duration todo + (samples chunk + 0)))
        with (next + (duration done + duration todo) + samples chunk) by lia.
      exact Hfed. }
    exists wf, (buf :: bufs), next', todo', log'.
    split; [|split; [|split]].
    + cbn [fold_left arrive fst snd]. rewrite Hadd. exact Hfold.
    + unfold decodes in *. cbn [map snd]. rewrite Hdec, Hdecs. reflexivity.
    + exact Hrunf.
    + rewrite Hlog, Hsplit, <- !app_assoc. f_equal.
      rewrite (contiguous_app next done). f_equal.
Qed.

(** C7.  Chunks fed to a fresh streamer under a deterministic clock, each
    a whole positive number of samples and none arriving after its
    predecessor has finished playing, are all started, in arrival order,
    the first after the 100 ms buffering delay and every later one at the
    very tick the one before it ends; then the host comes to rest. *)
Theorem playback_gap_free
        (t0 a1 : Z) (chunk1 : list Z) (rest : list (Z * list Z)) :
  t0 <= a1 ->
  Forall wellFormedChunk (chunk1 :: map snd rest) ->
  fedInTime (a1 + initialBufferTime * ticksPerMs + samples chunk1) rest ->
  exists w bufs,
    play t0 ((a1, chunk1) :: rest) = Some w
    /\ decodes (chunk1 :: map snd rest) bufs
    /\ started w = contiguous (a1 + initialBufferTime * ticksPerMs) bufs
    /\ tasks w = []
    /\ audioQueue (streamer w) = [].
Proof.
  intros Ht0 Hwf Hfed.
  inversion Hwf as [|? ? Hchunk Hrest]; subst.
  destruct (pcm16ToFloat_wellFormed chunk1 Hchunk)
    as (buf & Hdec & Hlen & Hbuf).
  set (start := a1 + initialBufferTime * ticksPerMs) in *.
  set (w1 := {| streamer := {| audioQueue := [buf]; isPlaying := true;
                               isStreamComplete := false |};
                clock := a1;
                tasks := [(start, BufferTimer)];
                started := [];
                completed := 0 |}).
  assert (Hfirst : arrive (Some (newWorld t0)) (a1, chunk1) = Some w1).
  { cbn [arrive fst snd]. unfold addPCM16. rewrite Hdec.
    unfold advanceTo, newWorld, enoughFuel.
    cbn [streamer audioQueue clock tasks started completed isPlaying
         isStreamComplete newStreamer List.length Nat.add runDue negb
         app schedule].
    rewrite (Z.max_r _ _ Ht0). reflexivity. }
  assert (Hrun1 : Running w1 start [buf] []).
  { unfold Running, w1.
    cbn [streamer audioQueue clock tasks started completed isPlaying].
    repeat split.
    - exists BufferTimer. split; [reflexivity | discriminate].
    - unfold start, initialBufferTime, ticksPerMs, sampleRate.
      change (24000 / 1000) with 24. lia.
    - constructor; [exact Hbuf | constructor]. }
  destruct (arrivals_running rest w1 start [buf] [] Hrun1 Hrest)
    as (wf & bufs & next' & todo & log' & Hfold & Hdecs & Hrunf & Hlog).
  { cbn [duration]. rewrite Hlen, Z.add_0_r. exact Hfed. }
  destruct (drain_running (enoughFuel wf) wf next' todo log' Hrunf)
    as (Htasks & Hqueue & Hstarted).
  { destruct Hrunf as ((k & Hk & _) & Hq & _).
    unfold enoughFuel. rewrite Hk, Hq. cbn [List.length]. lia. }
  exists (drain (enoughFuel wf) wf), (buf :: bufs).
  split; [|split; [|split; [|split]]].
  - unfold play. cbn [fold_left]. rewrite Hfirst, Hfold. reflexivity.
  - unfold decodes in *. cbn [map]. rewrite Hdec, Hdecs. reflexivity.
  - rewrite Hstarted, Hlog. reflexivity.
  - exact Htasks.
  - exact Hqueue.
Qed.

End Playback.

(** Three chunks, the second arriving during the buffering delay and the
    third while the first is playing. *)
Lemma playback_gap_free_witness :
  exists w bufs,
    AudioStreamer.play 0 PlaybackScenario.burst = Some w
    /\ SpecPlayback.decodes (map snd PlaybackScenario.burst) bufs
    /\ AudioStreamer.started w
       = SpecPlayback.contiguous
           (0 + AudioStreamer.initialBufferTime * AudioStreamer.ticksPerMs)
           bufs
    /\ AudioStreamer.tasks w = []
    /\ AudioStreamer.audioQueue (AudioStreamer.streamer w) = [].
Proof.
  apply (playback_gap_free 0 0 PlaybackScenario.chunkA
           [(10, PlaybackScenario.chunkB); (2401, PlaybackScenario.chunkC)]).
  - lia.
  - repeat constructor.
    + exists 2%nat. split; [lia | reflexivity].
    + exists 1%nat. split; [lia | reflexivity].
    + exists 3%nat. split; [lia | reflexivity].
  - vm_compute. repeat split; reflexivity.
Defined.

(** The start times of that run: 100 ms in, then each at the end of the
    one before (two samples, then one). *)
Example playback_three_chunks :
  option_map (fun w => map fst (AudioStreamer.started w))
             (AudioStreamer.play 0 PlaybackScenario.burst)
  = Some [2400; 2402; 2403].
Proof. vm_compute. reflexivity. Qed.

(** Outside the theorem's domain: on a streamer that was never stopped, a
    chunk arriving after the queue ran dry stays in the queue, since
    [isPlaying] is still true and nothing is pending to pick it up. *)
Example playback_after_starvation :
  option_map (fun w => (map fst (AudioStreamer.started w),
                        List.length (AudioStreamer.audioQueue
                                       (AudioStreamer.streamer w)),
                        AudioStreamer.isPlaying (AudioStreamer.streamer w),
                        AudioStreamer.tasks w))
             (AudioStreamer.play 0 PlaybackScenario.starved)
  = Some ([2400], 1%nat, true, []).
Proof. vm_compute. reflexivity. Qed.

(** C7 as stated, for every sequence of chunks, fails in two ways.  When
    the second of two chunks arrives after the first has finished, only
    the first is ever started, so the buffers are not played back to
    back.  And after an empty chunk nothing is started at all. *)
Lemma playback_gap_free_fails_when_starved :
  option_map (fun w => map fst (AudioStreamer.started w))
             (AudioStreamer.play 0 PlaybackScenario.starved)
  = Some [2400]
  /\ ~ (exists w bufs,
           AudioStreamer.play 0 PlaybackScenario.starved = Some w
           /\ SpecPlayback.decodes (map snd PlaybackScenario.starved) bufs
           /\ AudioStreamer.started w = SpecPlayback.contiguous 2400 bufs)
  /\ option_map AudioStreamer.started
                (AudioStreamer.play 0 [(0, []); (10, PlaybackScenario.chunkA)])
     = Some [].
Proof.
  split; [vm_compute; reflexivity|]. split; [|vm_compute; reflexivity].
  intros (w & bufs & Hplay & Hdec & Hstarted).
  assert (Hlog : List.length (AudioStreamer.started w) = 1%nat).
  { vm_compute in Hplay. injection Hplay as <-. reflexivity. }
  assert (Hbufs : List.length bufs = 2%nat).
  { apply (f_equal (@List.length _)) in Hdec.
    rewrite !length_map in Hdec. symmetry. exact Hdec. }
  rewrite Hstarted in Hlog.
  destruct bufs as [|b1 [|b2 [|b3 bufs]]]; cbn in Hbufs, Hlog; discriminate.
Qed.

(* ===================================================================== *)
(** * Further properties of the code                                      *)
(* ===================================================================== *)

(** ** The capture hook, beyond single calls *)

Section CaptureLoopFacts.

Import ScreenCapture.
Import CaptureLoop.

Variable config : ScreenCaptureConfig.
Variable toDataURL : Canvas -> PixelBuffer -> Q -> string.

Local Abbreviation captureFrame := (captureFrame config toDataURL).
Local Abbreviation runCaptureLoop := (runCaptureLoop config toDataURL).
Local Abbreviation captureSequence := (captureSequence config toDataURL).

(** X1.  [captureFrame] returns null in exactly four situations: no video
    element, a video of zero width or height, no 2d context, or a stored
    frame the new one is not measurably different from (similarity not
    below the threshold, NaN included).  Only the last one counts as a
    skip; in the others the counters stay as they were. *)
Theorem captureFrame_null_iff (env : Env) (h : Hook) :
  (fst (captureFrame env h) = None <-> withheld config env h)
  /\ (fst (captureFrame env h) = None ->
      skippedCountRef (snd (captureFrame env h)) = skippedCountRef h
      \/ (skippedCountRef (snd (captureFrame env h)) = skippedCountRef h + 1
          /\ exists v previousData,
               reachesComparison env h v
               /\ previousFrameDataRef h = Some previousData)).
Proof.
  unfold withheld.
  destruct (video env) as [v|] eqn:Hv.
  2:{ unfold ScreenCapture.captureFrame. rewrite Hv. cbn [fst snd].
      split; [split; auto|]. intros _. left. reflexivity. }
  destruct (Z.eq_dec (videoWidth v) 0) as [Hw|Hw].
  { unfold ScreenCapture.captureFrame. rewrite Hv, Hw. cbn [Z.eqb orb fst snd].
    split; [split; [|reflexivity]|].
    - intros _. right. left. exists v. auto.
    - intros _. left. reflexivity. }
  destruct (Z.eq_dec (videoHeight v) 0) as [Hh|Hh].
  { unfold ScreenCapture.captureFrame. rewrite Hv, Hh.
    rewrite orb_true_r. cbn [fst snd].
    split; [split; [|reflexivity]|].
    - intros _. right. left. exists v. auto.
    - intros _. left. reflexivity. }
  destruct (ctxRef (getCanvas env h)) eqn:Hctx.
  2:{ unfold ScreenCapture.captureFrame. rewrite Hv.
      apply Z.eqb_neq in Hw, Hh. rewrite Hw, Hh, Hctx. cbn [orb negb fst snd].
      apply Z.eqb_neq in Hw, Hh.
      split; [split; [|reflexivity]|].
      - intros _. right. right. left. exists v. auto.
      - intros _. left. unfold getCanvas. destruct (canvasRef h); reflexivity. }
  assert (Hreach : reachesComparison env h v) by (repeat split; assumption).
  destruct (previousFrameDataRef h) as [previousData|] eqn:Hprev.
  - rewrite (captureFrame_compared config toDataURL env h v previousData
               Hreach Hprev).
    cbv zeta.
    destruct (Js.lt (similarityTo config v previousData) (diffThreshold config))
      eqn:Hlt; cbn [fst snd].
    + split; [split; [discriminate|]|discriminate].
      intros [Hnone | [(v' & Hv' & Hzero) | [(v' & Hv' & _ & _ & Hc) | Hsim]]].
      * discriminate.
      * injection Hv' as <-. destruct Hzero; contradiction.
      * congruence.
      * destruct Hsim as (v' & p' & (Hv' & _) & Hp' & Hlt').
        assert (v' = v) by congruence.
        assert (p' = previousData) by congruence.
        subst. congruence.
    + split; [split; [|reflexivity]|].
      * intros _. right. right. right. exists v, previousData. auto.
      * intros _. right. split.
        -- unfold skipFrame. cbn [skippedCountRef].
           destruct (counters_prepared env h (videoWidth v) (videoHeight v))
             as (_ & Hs & _). rewrite Hs. reflexivity.
        -- exists v, previousData. auto.
  - assert (Hsome : exists frame, fst (captureFrame env h) = Some frame).
    { unfold ScreenCapture.captureFrame. rewrite Hv.
      apply Z.eqb_neq in Hw, Hh. rewrite Hw, Hh, Hctx. cbn [orb negb].
      rewrite previousFrame_prepared, Hprev. cbn [fst]. eexists. reflexivity. }
    destruct Hsome as (frame & Hframe). rewrite Hframe.
    split; [split; [discriminate|]|discriminate].
    intros [Hnone | [(v' & Hv' & Hzero) | [(v' & Hv' & _ & _ & Hc) | Hsim]]].
    + discriminate.
    + injection Hv' as <-. destruct Hzero; contradiction.
    + congruence.
    + destruct Hsim as (v' & p' & _ & Hp' & _). discriminate.
Qed.

Lemma getCanvas_after_reset (env : Env) (h : Hook) :
  ctxRef (getCanvas env (resetOnDisable h)) = ctxRef (getCanvas env h).
Proof. apply getCanvas_idle_irrelevant; reflexivity. Qed.

(** X2.  After the loop has been disabled, the first call that finds a
    loaded video and a context returns a frame whatever the pixels and the
    configuration: a key frame with similarity 0, counted as frame number
    one with no skips, and its pixels become the stored frame. *)
Theorem first_frame_after_disable (env : Env) (h : Hook) (v : Video) :
  reachesComparison env h v ->
  let result := captureFrame env (resetOnDisable h) in
  (exists frame,
      fst result = Some frame
      /\ isKeyFrame frame = true
      /\ similarity frame = Js.Fin 0
      /\ width frame = videoWidth v /\ height frame = videoHeight v)
  /\ frameCountRef (snd result) = 1 /\ frameCount (snd result) = 1
  /\ skippedCountRef (snd result) = 0 /\ skippedCount (snd result) = 0
  /\ previousFrameDataRef (snd result) = Some (videoPixels v).
Proof.
  intros (Hv & Hw & Hh & Hctx). cbv zeta.
  unfold ScreenCapture.captureFrame. rewrite Hv.
  apply Z.eqb_neq in Hw, Hh. rewrite Hw, Hh. cbn [orb].
  rewrite getCanvas_after_reset, Hctx. cbn [negb].
  rewrite previousFrame_prepared. cbn [resetOnDisable previousFrameDataRef].
  cbn [fst snd].
  destruct (counters_prepared env (resetOnDisable h) (videoWidth v)
              (videoHeight v)) as (Hfr & Hsr & Hf & Hs).
  unfold acceptFrame.
  cbn [frameCountRef frameCount skippedCountRef skippedCount
       previousFrameDataRef].
  rewrite Hfr, Hsr, Hs. cbn [resetOnDisable frameCountRef skippedCountRef
                              skippedCount].
  split; [eexists; split; [reflexivity|]; cbn; auto|].
  repeat split; reflexivity.
Qed.

Lemma captureFrame_counters (env : Env) (h : Hook) :
  let result := captureFrame env h in
  (frameCountRef (snd result)
   = frameCountRef h + match fst result with Some _ => 1 | None => 0 end)
  /\ (skippedCountRef h <= skippedCountRef (snd result)
      <= skippedCountRef h + match fst result with Some _ => 0 | None => 1 end)
  /\ (frameCount h = frameCountRef h ->
      frameCount (snd result) = frameCountRef (snd result))
  /\ (skippedCount h = skippedCountRef h ->
      skippedCount (snd result) = skippedCountRef (snd result))
  /\ isIdle (snd result) = isIdle h
  /\ currentIntervalMs (snd result) = currentIntervalMs h
  /\ lastActivityRef (snd result) = lastActivityRef h.
Proof.
  cbv zeta. unfold ScreenCapture.captureFrame.
  destruct (video env) as [v|]; [|cbn; repeat split; auto; lia].
  destruct ((videoWidth v =? 0) || (videoHeight v =? 0));
    [cbn; repeat split; auto; lia|].
  assert (Hprep : forall w hgt,
             let h2 := resizeCanvas w hgt (getCanvas env h) in
             isIdle h2 = isIdle h /\ currentIntervalMs h2 = currentIntervalMs h
             /\ lastActivityRef h2 = lastActivityRef h).
  { intros w hgt. cbv zeta. unfold resizeCanvas, getCanvas.
    destruct (canvasRef h); cbn; auto. }
  destruct (negb (ctxRef (getCanvas env h))).
  - cbn [fst snd]. unfold getCanvas. destruct (canvasRef h); cbn;
      repeat split; auto; lia.
  - destruct (counters_prepared env h (videoWidth v) (videoHeight v))
      as (Hfr & Hsr & Hf & Hs).
    destruct (Hprep (videoWidth v) (videoHeight v)) as (Hi & Hc & Hl).
    destruct (previousFrameDataRef _) as [prev|];
      [destruct (Js.lt _ _)|]; cbn [fst snd];
      unfold acceptFrame, skipFrame;
      cbn [frameCountRef frameCount skippedCountRef skippedCount isIdle
           currentIntervalMs lastActivityRef];
      rewrite ?Hfr, ?Hsr, ?Hf, ?Hs, ?Hi, ?Hc, ?Hl;
      repeat split; auto; lia.
Qed.

(** X3.  Over any run of calls the accepted-frame counter grows by exactly
    the number of frames returned, the skip counter never decreases, and
    skips plus returned frames never exceed the number of calls; counters
    that mirrored their refs at the start still do at the end. *)
Theorem counters_over_a_run (envs : list Env) (h : Hook) :
  let run := captureSequence envs h in
  List.length (fst run) = List.length envs
  /\ frameCountRef (snd run) = frameCountRef h + Z.of_nat (accepted (fst run))
  /\ skippedCountRef h <= skippedCountRef (snd run)
  /\ (skippedCountRef (snd run) - skippedCountRef h)
     + Z.of_nat (accepted (fst run)) <= Z.of_nat (List.length envs)
  /\ (frameCount h = frameCountRef h ->
      frameCount (snd run) = frameCountRef (snd run))
  /\ (skippedCount h = skippedCountRef h ->
      skippedCount (snd run) = skippedCountRef (snd run)).
Proof.
  cbv zeta. revert h.
  induction envs as [|env rest IH]; intros h.
  - cbn. repeat split; auto; lia.
  - cbn [ScreenCapture.captureSequence].
    destruct (captureFrame_counters env h) as (Hf & Hs & Hmf & Hms & _).
    destruct (ScreenCapture.captureFrame config toDataURL env h)
      as [result h'] eqn:Hcall.
    specialize (IH h').
    destruct (ScreenCapture.captureSequence config toDataURL rest h')
      as [calls final].
    cbn [fst snd] in *.
    destruct IH as (Hlen & Hcount & Hmono & Hsum & Hmf' & Hms').
    destruct result as [frame|]; cbn [accepted List.length];
      repeat split; auto; lia.
Qed.

(** X4.  The sampling cadence follows the idle flag.  If the interval in
    force matches the flag, it still does after a user event or a tick of
    the loop; a user event leaves the hook active at the fast interval;
    and after a tick the hook is idle exactly when more than
    [idleTimeoutMs] have passed since the last user event. *)
Theorem cadence_follows_activity (onFrame : bool) (env : Env) (h : Hook)
        (t : Z) :
  cadenceConsistent config h ->
  let afterEvent := handleActivity config t h in
  let afterTick := fst (runCaptureLoop onFrame env h) in
  cadenceConsistent config afterEvent
  /\ isIdle afterEvent = false
  /\ currentIntervalMs afterEvent = minIntervalMs config
  /\ lastActivityRef afterEvent = t
  /\ cadenceConsistent config afterTick
  /\ isIdle afterTick = (idleTimeoutMs config <? now env - lastActivityRef h)
  /\ currentIntervalMs afterTick
     = (if idleTimeoutMs config <? now env - lastActivityRef h
        then maxIntervalMs config else minIntervalMs config).
Proof.
  unfold cadenceConsistent. intros Hcons. cbv zeta.
  assert (Hevent : isIdle (handleActivity config t h) = false
                   /\ currentIntervalMs (handleActivity config t h)
                      = minIntervalMs config).
  { unfold handleActivity. cbn [isIdle currentIntervalMs].
    destruct (isIdle h); auto. }
  destruct Hevent as [He1 He2].
  rewrite He1, He2.
  split; [reflexivity|]. split; [reflexivity|]. split; [reflexivity|].
  split; [reflexivity|].
  unfold ScreenCapture.runCaptureLoop.
  set (idle := idleTimeoutMs config <? now env - lastActivityRef h).
  match goal with
  | |- context [ScreenCapture.captureFrame _ _ _ ?h0] => set (h0' := h0)
  end.
  assert (H0 : isIdle h0' = idle
               /\ currentIntervalMs h0'
                  = if idle then maxIntervalMs config else minIntervalMs config).
  { unfold h0'. destruct (Bool.eqb idle (isIdle h)) eqn:Heq.
    - apply eqb_prop in Heq. rewrite Hcons, <- Heq. auto.
    - cbn [isIdle currentIntervalMs]. auto. }
  destruct H0 as [Hi Hc].
  destruct (captureFrame_counters env h0') as (_ & _ & _ & _ & Hi' & Hc' & _).
  destruct (ScreenCapture.captureFrame config toDataURL env h0')
    as [[frame|] h'] eqn:Hcall; cbn [fst snd] in *;
    rewrite Hi', Hc', Hi, Hc; auto.
Qed.

Lemma edgeLoop_bounds (imageData : PixelBuffer) (step : Z) :
  forall (n : nat) (i acc : Z),
    acc <= edgeLoop imageData step n i acc <= acc + Z.of_nat n.
Proof.
  induction n as [|n IH]; intros i acc; cbn [edgeLoop]; [lia|].
  destruct (sharpEdge imageData step i).
  - specialize (IH (i + 1) (acc + 1)). lia.
  - specialize (IH (i + 1) acc). lia.
Qed.

Lemma quality_of_edge_count (e : Z) :
  (if Qlt_le_dec (3 # 10) (inject_Z e / inject_Z 50) then (85 # 100)%Q
   else if Qlt_le_dec (15 # 100) (inject_Z e / inject_Z 50) then (75 # 100)%Q
        else (65 # 100)%Q)
  = (if 16 <=? e then (85 # 100)%Q
     else if 8 <=? e then (75 # 100)%Q else (65 # 100)%Q).
Proof.
  destruct (Qlt_le_dec (3 # 10) (inject_Z e / inject_Z 50)) as [H1|H1];
    unfold Qlt, Qle in H1; cbn in H1.
  - destruct (Z.leb_spec 16 e); [reflexivity | lia].
  - destruct (Z.leb_spec 16 e); [lia|].
    destruct (Qlt_le_dec (15 # 100) (inject_Z e / inject_Z 50)) as [H2|H2];
      unfold Qlt, Qle in H2; cbn in H2.
    + destruct (Z.leb_spec 8 e); [reflexivity | lia].
    + destruct (Z.leb_spec 8 e); [lia | reflexivity].
Qed.

(** X5.  With [jpegQuality = 'auto'] the quality is one of 0.85, 0.75 and
    0.65, decided by the number of sharp edges among the 48 sampled pixel
    pairs: at least 16 give 0.85, 8 to 15 give 0.75, fewer give 0.65 (the
    count is divided by 50, so the ratio never exceeds 0.96).  A fixed
    [jpegQuality] is returned as it is. *)
Theorem adaptive_quality_levels (imageData : PixelBuffer) (width height : Z) :
  let edgeCount := edgeLoop imageData ((width * height) / 50) 48 1 0 in
  0 <= edgeCount <= 48
  /\ match jpegQuality config with
     | Quality q => getAdaptiveQuality config imageData width height = q
     | Auto =>
         getAdaptiveQuality config imageData width height
         = if 16 <=? edgeCount then (85 # 100)%Q
           else if 8 <=? edgeCount then (75 # 100)%Q
           else (65 # 100)%Q
     end.
Proof.
  intros edgeCount. split.
  - exact (edgeLoop_bounds imageData ((width * height) / 50) 48 1 0).
  - unfold getAdaptiveQuality. destruct (jpegQuality config); [|reflexivity].
    exact (quality_of_edge_count edgeCount).
Qed.

Lemma pixelMatches_sym (a b : PixelBuffer) (step i : Z) :
  pixelMatches a b step i = pixelMatches b a step i.
Proof.
  assert (Hsym : forall x y, absDiff x y = absDiff y x).
  { intros [x|] [y|]; cbn [absDiff]; [|reflexivity..].
    f_equal. rewrite <- (Z.abs_opp (x - y)). f_equal. lia. }
  unfold pixelMatches. cbv zeta.
  set (p := i * step * 4).
  rewrite (Hsym (read a p) (read b p)),
          (Hsym (read a (p + 1)) (read b (p + 1))),
          (Hsym (read a (p + 2)) (read b (p + 2))).
  reflexivity.
Qed.

Lemma sampleLoop_sym (a b : PixelBuffer) (step : Z) :
  forall (n : nat) (i acc : Z),
    sampleLoop a b step n i acc = sampleLoop b a step n i acc.
Proof.
  induction n as [|n IH]; intros i acc; cbn [sampleLoop]; [reflexivity|].
  rewrite pixelMatches_sym. apply IH.
Qed.

(** X6.  The similarity score does not depend on which of the two frames
    is called current and which previous, for any buffers, dimensions and
    configuration. *)
Theorem compareFrames_symmetric
        (a b : PixelBuffer) (width height : Z) :
  compareFrames config a b width height
  = compareFrames config b a width height.
Proof.
  unfold compareFrames, matchCountOf. cbv zeta.
  rewrite (Nat.eqb_sym (List.length a)), sampleLoop_sym. reflexivity.
Qed.

Lemma pixelMatch_tolerant (current previous : PixelBuffer) (k : Z) :
  coloursWithinTolerance current previous ->
  0 <= k -> k * 4 + 3 < Z.of_nat (List.length current) ->
  SpecDiffer.pixelMatch current previous k = true.
Proof.
  intros Htol Hk Hin.
  assert (Hc : forall c, 0 <= c <= 2 ->
             SpecDiffer.withinTolerance (SpecDiffer.channelOf current k c)
                                        (SpecDiffer.channelOf previous k c)
             = true).
  { intros c Hc. unfold SpecDiffer.withinTolerance, SpecDiffer.channelOf.
    apply Z.leb_le. apply (Htol (k * 4 + c)); [lia|].
    rewrite Z.add_comm, Z.mod_add by lia.
    rewrite Z.mod_small by lia. lia. }
  unfold SpecDiffer.pixelMatch. rewrite !Hc by lia. reflexivity.
Qed.

(** X7.  With a positive [diffSampleSize], two buffers of a frame of
    positive width and height, of the frame's size, whose red, green and
    blue bytes are everywhere within 10 of each other have similarity
    exactly 1, whatever their alpha bytes.  The test
    [similarity < threshold] that makes a key frame is then false for
    every threshold up to 1 and true for every threshold above 1. *)
Theorem tolerated_change_is_invisible
        (current previous : PixelBuffer) (width height : Z) :
  0 < diffSampleSize config -> 0 < width -> 0 < height ->
  SpecDiffer.frameBuffer width height current ->
  List.length current = List.length previous ->
  coloursWithinTolerance current previous ->
  let similarity := compareFrames config current previous width height in
  Js.eqb similarity (Js.Fin 1) = true
  /\ Js.lt similarity (Js.Fin 1) = false
  /\ (forall t : Q, (t <= 1)%Q -> Js.lt similarity (Js.Fin t) = false)
  /\ (forall t : Q, (1 < t)%Q -> Js.lt similarity (Js.Fin t) = true).
Proof.
  intros Hs Hw Hh Hbuf Hlen Htol.
  pose proof (sampleSizeOf_pos config width height Hs Hw Hh) as Hpos.
  assert (Hsim : compareFrames config current previous width height
                 = Js.Fin (inject_Z (sampleSizeOf config width height)
                           / inject_Z (sampleSizeOf config width height))).
  { unfold compareFrames. rewrite Hlen, Nat.eqb_refl. cbn [negb].
    rewrite (matchCountOf_spec config current previous width height
               Hs Hw Hh Hbuf Hlen).
    unfold SpecDiffer.matchCount, SpecDiffer.sampledPixels.
    rewrite filter_all.
    - rewrite length_map, length_seq, Z2Nat.id by lia.
      unfold Js.div_int.
      destruct (Z.eqb_spec (sampleSizeOf config width height) 0); [lia|].
      reflexivity.
    - intros k Hin. apply in_map_iff in Hin.
      destruct Hin as (i & <- & Hi). apply in_seq in Hi.
      destruct (sample_inside_frame config width height (Z.of_nat i)
                  Hs Hw Hh) as [Hlo Hhi]; [lia|].
      unfold SpecDiffer.frameBuffer in Hbuf.
      apply pixelMatch_tolerant; [exact Htol | exact Hlo | lia]. }
  cbv zeta. rewrite Hsim. cbn [Js.eqb Js.lt].
  assert (Hone : (inject_Z (sampleSizeOf config width height)
                  / inject_Z (sampleSizeOf config width height) == 1)%Q).
  { apply Qmult_inv_r. intros Habs. apply (Qlt_irrefl 0).
    rewrite <- Habs at 2. change 0%Q with (inject_Z 0).
    rewrite <- Zlt_Qlt. exact Hpos. }
  assert (Hbelow : forall t : Q, (t <= 1)%Q ->
            (if Qlt_le_dec (inject_Z (sampleSizeOf config width height)
                            / inject_Z (sampleSizeOf config width height)) t
             then true else false) = false).
  { intros t Ht. destruct (Qlt_le_dec _ t) as [Hlt|_]; [|reflexivity].
    rewrite Hone in Hlt. exfalso.
    apply (Qlt_irrefl 1). apply (Qlt_le_trans _ t); assumption. }
  split; [apply Qeq_bool_iff; exact Hone|].
  split; [apply Hbelow; apply Qle_refl|].
  split; [exact Hbelow|].
  intros t Ht. destruct (Qlt_le_dec _ t) as [_|Hle]; [reflexivity|].
  rewrite Hone in Hle. exfalso.
  apply (Qlt_irrefl 1). apply (Qlt_le_trans _ t); assumption.
Qed.

End CaptureLoopFacts.

(** ** The PCM16 codec, beyond the round trip *)

Section CodecFacts.

Import AudioRecorder.
Import AudioStreamer.

Lemma setInt16LE_bytes (v : Z) : Forall Pcm.isByte (setInt16LE v).
Proof.
  unfold setInt16LE, Pcm.isByte.
  set (u := Z.land v 65535).
  assert (Hu : 0 <= u < 65536).
  { unfold u. change 65535 with (Z.ones 16). rewrite Z.land_ones by lia.
    apply Z.mod_pos_bound. lia. }
  assert (Hlow : Z.land u 255 = u mod 256)
    by (change 255 with (Z.ones 8); apply Z.land_ones; lia).
  assert (Hhigh : Z.shiftr u 8 = u / 256)
    by (apply Z.shiftr_div_pow2; lia).
  rewrite Hlow, Hhigh.
  pose proof (Z.mod_pos_bound u 256).
  assert (0 <= u / 256) by (apply Z.div_pos; lia).
  assert (u / 256 < 256) by (apply Z.div_lt_upper_bound; lia).
  repeat constructor; lia.
Qed.

(** X8.  Whatever the samples (NaN and infinities included), the encoder
    writes exactly two bytes per sample, each between 0 and 255, and the
    stored 16-bit value is within the signed range. *)
Theorem encoder_output_shape (input : list Js.number) :
  List.length (floatTo16BitPCM input) = (2 * List.length input)%nat
  /\ Forall Pcm.isByte (floatTo16BitPCM input)
  /\ Forall (fun x => Pcm.isInt16 (sampleToInt16 x)) input.
Proof.
  induction input as [|x rest (Hlen & Hbytes & Hrange)].
  - repeat split; constructor.
  - cbn [floatTo16BitPCM]. split; [|split].
    + rewrite length_app, Hlen. cbn [setInt16LE List.length]. lia.
    + apply Forall_app. split; [apply setInt16LE_bytes | exact Hbytes].
    + constructor; [|exact Hrange].
      unfold Pcm.isInt16, sampleToInt16.
      pose proof (toInt16_range (scaleSample (clampUnit x))). lia.
Qed.

(** The clamp, on the rationals. *)
Lemma clampUnit_range (q : Q) :
  exists c, clampUnit (Js.Fin q) = Js.Fin c
            /\ SpecCodec.inUnitRange c
            /\ ((q <= -1)%Q -> c == -1)%Q
            /\ ((1 <= q)%Q -> c == 1)%Q
            /\ (SpecCodec.inUnitRange q -> c = q).
Proof.
  cbn [clampUnit]. unfold SpecCodec.inUnitRange.
  destruct (Qlt_le_dec 1 q) as [Hbig|Hle].
  - destruct (Qlt_le_dec 1 (-1)) as [Habs|_]; [discriminate Habs|].
    exists 1%Q. repeat split; try (intros; lra); try discriminate.
  - destruct (Qlt_le_dec q (-1)) as [Hsmall|Hge].
    + exists (-1)%Q. repeat split; try (intros; lra); try discriminate.
    + exists q. repeat split; try (intros; lra); try assumption.
Qed.

Lemma sampleToInt16_of_clamp (q c : Q) :
  clampUnit (Js.Fin q) = Js.Fin c -> SpecCodec.inUnitRange c ->
  sampleToInt16 (Js.Fin q) = sampleToInt16 (Js.Fin c).
Proof.
  intros Hc Hin. unfold sampleToInt16.
  rewrite Hc, (clampUnit_inside c Hin). reflexivity.
Qed.

Lemma sampleToInt16_comp (x y : Q) :
  SpecCodec.inUnitRange x -> SpecCodec.inUnitRange y -> (x == y)%Q ->
  sampleToInt16 (Js.Fin x) = sampleToInt16 (Js.Fin y).
Proof.
  intros Hx Hy Heq.
  destruct (Qlt_le_dec x 0) as [Hneg|Hpos].
  - rewrite (sampleToInt16_negative x Hx Hneg).
    rewrite (sampleToInt16_negative y Hy) by (rewrite <- Heq; exact Hneg).
    apply Qceiling_comp. rewrite Heq. reflexivity.
  - rewrite (sampleToInt16_nonnegative x Hx Hpos).
    rewrite (sampleToInt16_nonnegative y Hy) by (rewrite <- Heq; exact Hpos).
    apply Qfloor_comp. rewrite Heq. reflexivity.
Qed.

Lemma sampleToInt16_monotone_inside (x y : Q) :
  SpecCodec.inUnitRange x -> SpecCodec.inUnitRange y -> (x <= y)%Q ->
  sampleToInt16 (Js.Fin x) <= sampleToInt16 (Js.Fin y).
Proof.
  intros Hx Hy Hle.
  destruct (Qlt_le_dec x 0) as [Hxn|Hxp];
    destruct (Qlt_le_dec y 0) as [Hyn|Hyp].
  - rewrite (sampleToInt16_negative x Hx Hxn), (sampleToInt16_negative y Hy Hyn).
    apply Qceiling_resp_le. lra.
  - rewrite (sampleToInt16_negative x Hx Hxn),
            (sampleToInt16_nonnegative y Hy Hyp).
    apply Z.le_trans with 0.
    + rewrite <- (Qceiling_Z 0). apply Qceiling_resp_le.
      change (inject_Z 0) with 0%Q. lra.
    + rewrite <- (Qfloor_Z 0). apply Qfloor_resp_le.
      change (inject_Z 0) with 0%Q. lra.
  - lra.
  - rewrite (sampleToInt16_nonnegative x Hx Hxp),
            (sampleToInt16_nonnegative y Hy Hyp).
    apply Qfloor_resp_le. lra.
Qed.

(** X9.  The encoder saturates and keeps order: a sample of 1 or more
    (or +Infinity) is stored as 32767, a sample of -1 or less (or
    -Infinity) as -32768, NaN as 0, and a larger sample is never stored as
    a smaller value. *)
Theorem encoder_saturates_and_is_monotone (x y : Q) :
  ((1 <= x)%Q -> sampleToInt16 (Js.Fin x) = 32767)
  /\ ((x <= -1)%Q -> sampleToInt16 (Js.Fin x) = -32768)
  /\ sampleToInt16 Js.PosInf = 32767
  /\ sampleToInt16 Js.NegInf = -32768
  /\ sampleToInt16 Js.NaN = 0
  /\ ((x <= y)%Q -> sampleToInt16 (Js.Fin x) <= sampleToInt16 (Js.Fin y)).
Proof.
  assert (Hone : SpecCodec.inUnitRange 1) by (split; discriminate).
  assert (Hmone : SpecCodec.inUnitRange (-1)) by (split; discriminate).
  destruct (clampUnit_range x) as (cx & Hcx & Hinx & Hlox & Hhix & Hidx).
  destruct (clampUnit_range y) as (cy & Hcy & Hiny & Hloy & Hhiy & Hidy).
  split; [|split; [|split; [|split; [|split]]]]; try reflexivity.
  - intros Hx. rewrite (sampleToInt16_of_clamp x cx Hcx Hinx).
    rewrite (sampleToInt16_comp cx 1 Hinx Hone (Hhix Hx)). reflexivity.
  - intros Hx. rewrite (sampleToInt16_of_clamp x cx Hcx Hinx).
    rewrite (sampleToInt16_comp cx (-1) Hinx Hmone (Hlox Hx)). reflexivity.
  - intros Hxy.
    rewrite (sampleToInt16_of_clamp x cx Hcx Hinx),
            (sampleToInt16_of_clamp y cy Hcy Hiny).
    apply sampleToInt16_monotone_inside; try assumption.
    (* the clamp keeps order *)
    unfold SpecCodec.inUnitRange in *.
    cbn [clampUnit] in Hcx, Hcy.
    destruct (Qlt_le_dec 1 x), (Qlt_le_dec 1 y);
      repeat match goal with
             | H : context [Qlt_le_dec ?a ?b] |- _ =>
                 destruct (Qlt_le_dec a b)
             end;
      injection Hcx as <-; injection Hcy as <-; lra.
Qed.

(** Two bytes read as a little-endian signed 16-bit value. *)
Lemma getInt16LE_value (b0 b1 : Z) :
  Pcm.isByte b0 -> Pcm.isByte b1 ->
  getInt16LE b0 b1
  = if 128 <=? b1 then b0 + 256 * b1 - 65536 else b0 + 256 * b1.
Proof.
  unfold Pcm.isByte. intros H0 H1. unfold getInt16LE.
  assert (Hdisjoint : Z.land b0 (Z.shiftl b1 8) = 0).
  { apply Z.bits_inj'. intros n Hn.
    rewrite Z.land_spec, Z.bits_0.
    destruct (Z.ltb_spec n 8) as [Hlow|Hhigh].
    - rewrite Z.shiftl_spec_low by lia. apply andb_false_r.
    - rewrite <- (Z.mod_small b0 (2 ^ 8)) by lia.
      rewrite Z.mod_pow2_bits_high by lia. reflexivity. }
  assert (Hsum : Z.lor b0 (Z.shiftl b1 8) = b0 + 256 * b1).
  { pose proof (Z.add_lor_land b0 (Z.shiftl b1 8)) as Hadd.
    pose proof (Z.shiftl_mul_pow2 b1 8) as Hshift.
    change (2 ^ 8) with 256 in Hshift.
    rewrite Hdisjoint in Hadd. lia. }
  rewrite Hsum.
  destruct (Z.leb_spec 32768 (b0 + 256 * b1));
    destruct (Z.leb_spec 128 b1); lia.
Qed.

Lemma pcm16ToFloat_pairs :
  forall (m : nat) (chunk : list Z),
    (List.length chunk <= m)%nat ->
    Forall Pcm.isByte chunk ->
    (Nat.even (List.length chunk) = true ->
     exists ys, pcm16ToFloat chunk = Some ys
                /\ (2 * List.length ys = List.length chunk)%nat
                /\ Forall (fun y => (-1 <= y /\ y < 1)%Q) ys)
    /\ (Nat.even (List.length chunk) = false -> pcm16ToFloat chunk = None).
Proof.
  induction m as [|m IH]; intros chunk Hm Hbytes.
  - destruct chunk; [|cbn in Hm; lia].
    split; [|discriminate]. intros _. exists []. repeat split; constructor.
  - destruct chunk as [|b0 [|b1 rest]].
    + split; [|discriminate]. intros _. exists []. repeat split; constructor.
    + split; [discriminate | reflexivity].
    + inversion Hbytes as [|? ? H0 Hb']; subst.
      inversion Hb' as [|? ? H1 Hrest]; subst.
      destruct (IH rest) as [Heven Hodd]; [cbn in Hm; lia | exact Hrest |].
      cbn [List.length Nat.even pcm16ToFloat]. split.
      * intros He. destruct (Heven He) as (ys & Hys & Hlen & Hrange).
        rewrite Hys. eexists. split; [reflexivity|]. split.
        -- cbn [List.length]. lia.
        -- constructor; [|exact Hrange].
           rewrite (getInt16LE_value b0 b1 H0 H1).
           unfold Pcm.isByte in H0, H1.
           set (v := if 128 <=? b1 then b0 + 256 * b1 - 65536
                     else b0 + 256 * b1).
           assert (Hv : -32768 <= v < 32768)
             by (unfold v; destruct (Z.leb_spec 128 b1); lia).
           assert (Hq : (inject_Z (-32768) <= inject_Z v
                         /\ inject_Z v < inject_Z 32768)%Q)
             by (rewrite <- Zle_Qle, <- Zlt_Qlt; exact Hv).
           change (inject_Z (-32768)) with (-32768)%Q in Hq.
           change (inject_Z 32768) with 32768%Q in Hq.
           assert (Hy : ((inject_Z v / 32768) * 32768 == inject_Z v)%Q) by field.
           set (y := (inject_Z v / 32768)%Q) in *. clearbody y.
           lra.
      * intros Ho. rewrite (Hodd Ho). reflexivity.
Qed.

(** X10.  For a chunk that is its whole buffer, as the provider passes
    it, the decoder accepts the chunk exactly when its length is even: an
    odd chunk raises (the read of the last sample runs past the buffer)
    and nothing is queued, an even one gives one sample per two bytes,
    each in [-1, 1). *)
Theorem decoder_accepts_even_chunks (chunk : list Z) :
  Forall Pcm.isByte chunk ->
  (Nat.even (List.length chunk) = true ->
   exists ys, pcm16ToFloat chunk = Some ys
              /\ (2 * List.length ys = List.length chunk)%nat
              /\ Forall (fun y => (-1 <= y /\ y < 1)%Q) ys)
  /\ (Nat.even (List.length chunk) = false ->
      pcm16ToFloat chunk = None
      /\ forall w, addPCM16 chunk w = None).
Proof.
  intros Hbytes.
  destruct (pcm16ToFloat_pairs (List.length chunk) chunk (le_n _) Hbytes)
    as [Heven Hodd].
  split; [exact Heven|].
  intros Ho. split; [exact (Hodd Ho)|].
  intros w. unfold addPCM16. rewrite (Hodd Ho). reflexivity.
Qed.

Lemma floor_between (x : Q) (n : Z) :
  (inject_Z n <= x)%Q -> (x < inject_Z (n + 1))%Q -> Qfloor x = n.
Proof.
  intros Hlo Hhi.
  pose proof (Qfloor_le x) as Hf1. pose proof (Qlt_floor x) as Hf2.
  assert (H1 : (inject_Z (Qfloor x) < inject_Z (n + 1))%Q)
    by (eapply Qle_lt_trans; eassumption).
  assert (H2 : (inject_Z n < inject_Z (Qfloor x + 1))%Q)
    by (eapply Qle_lt_trans; eassumption).
  rewrite <- Zlt_Qlt in H1, H2. lia.
Qed.

(** X11.  Encoding a decoded sample does not give back the stored value
    for positive samples: the 16-bit value [v] decodes to [v/32768], which
    is encoded as [v - 1] when [v] is positive and as [v] otherwise.  Each
    pass through decoder and encoder lowers positive samples by one. *)
Theorem reencoding_lowers_positive_samples (v : Z) :
  Pcm.isInt16 v ->
  sampleToInt16 (Js.Fin (inject_Z v / 32768))
  = if 0 <? v then v - 1 else v.
Proof.
  unfold Pcm.isInt16. intros Hv.
  assert (Hq : (inject_Z (-32768) <= inject_Z v
                /\ inject_Z v <= inject_Z 32767)%Q)
    by (rewrite <- !Zle_Qle; exact Hv).
  change (inject_Z (-32768)) with (-32768)%Q in Hq.
  change (inject_Z 32767) with 32767%Q in Hq.
  assert (Hy : ((inject_Z v / 32768) * 32768 == inject_Z v)%Q) by field.
  assert (Hin : SpecCodec.inUnitRange (inject_Z v / 32768)).
  { unfold SpecCodec.inUnitRange.
    set (y := (inject_Z v / 32768)%Q) in *. clearbody y. lra. }
  destruct (Z.ltb_spec 0 v) as [Hpos|Hnonpos].
  - assert (Hvq : (0 < inject_Z v)%Q)
      by (change 0%Q with (inject_Z 0); rewrite <- Zlt_Qlt; exact Hpos).
    rewrite sampleToInt16_nonnegative; [|exact Hin|].
    + apply floor_between.
      * rewrite inject_Z_pred.
        set (y := (inject_Z v / 32768)%Q) in *. clearbody y. lra.
      * replace (v - 1 + 1) with v by lia.
        set (y := (inject_Z v / 32768)%Q) in *. clearbody y. lra.
    + set (y := (inject_Z v / 32768)%Q) in *. clearbody y. lra.
  - assert (Hvq : (inject_Z v <= 0)%Q)
      by (change 0%Q with (inject_Z 0); rewrite <- Zle_Qle; exact Hnonpos).
    destruct (Z.eq_dec v 0) as [->|Hne].
    + reflexivity.
    + assert (Hneg : (inject_Z v < 0)%Q)
        by (change 0%Q with (inject_Z 0); rewrite <- Zlt_Qlt; lia).
      rewrite sampleToInt16_negative; [|exact Hin|].
      * rewrite (Qceiling_comp _ (inject_Z v) Hy). apply Qceiling_Z.
      * set (y := (inject_Z v / 32768)%Q) in *. clearbody y. lra.
Qed.

End CodecFacts.

(** ** The playback queue under any timing *)

Section PlaybackFacts.

Import AudioStreamer.
Import PlaybackLog.

(** *** An invariant rule for the host's loop *)

Section InvariantRule.

Variable P : World -> Prop.

Hypothesis P_callback :
  forall (w : World) (due : Z) (k : Task) (rest : list (Z * Task)),
    tasks w = (due, k) :: rest -> P w -> P (runTask k (firing w due)).

Hypothesis P_clock : forall (w : World) (t : Z), P w -> P (atTime t w).

Lemma runDue_invariant :
  forall (fuel : nat) (t : Z) (w : World), P w -> P (runDue fuel t w).
Proof.
  induction fuel as [|fuel IH]; intros t w Hw; cbn [runDue]; [exact Hw|].
  destruct (tasks w) as [|[due k] rest] eqn:Htasks; [exact Hw|].
  destruct (due <=? t); [|exact Hw].
  apply IH. eapply P_callback; eassumption.
Qed.

Lemma drain_invariant :
  forall (fuel : nat) (w : World), P w -> P (drain fuel w).
Proof.
  induction fuel as [|fuel IH]; intros w Hw; cbn [drain]; [exact Hw|].
  destruct (tasks w) as [|[due k] rest] eqn:Htasks; [exact Hw|].
  apply IH. eapply P_callback; eassumption.
Qed.

Lemma advanceTo_invariant (t : Z) (w : World) : P w -> P (advanceTo t w).
Proof.
  intros Hw. unfold advanceTo.
  apply (P_clock (runDue (enoughFuel w) t w) t).
  apply runDue_invariant. exact Hw.
Qed.

End InvariantRule.

(** *** Quiescence *)

Lemma schedule_length (t : Z) (k : Task) (ts : list (Z * Task)) :
  List.length (schedule t k ts) = S (List.length ts).
Proof.
  induction ts as [|[t' k'] ts IH]; cbn [schedule]; [reflexivity|].
  destruct (t' <=? t); cbn [List.length]; [rewrite IH|]; reflexivity.
Qed.

Lemma callback_uses_fuel (w : World) (due : Z) (k : Task)
      (rest : list (Z * Task)) :
  tasks w = (due, k) :: rest ->
  (enoughFuel (runTask k (firing w due)) < enoughFuel w)%nat.
Proof.
  intros Htasks. unfold enoughFuel. rewrite Htasks.
  cbn [List.length].
  destruct k; cbn [runTask]; unfold scheduleNextBuffer, firing;
    cbn [streamer audioQueue clock tasks started completed isPlaying
         isStreamComplete];
    rewrite ?Htasks; cbn [tl];
    try lia;
    (destruct (audioQueue (streamer w)) as [|b q] eqn:Hq;
     [ destruct (isStreamComplete (streamer w))
     | destruct (Z.of_nat (List.length b) =? 0) ];
     cbn [streamer audioQueue tasks List.length];
     rewrite ?schedule_length, ?Htasks, ?Hq; cbn [tl List.length]; lia).
Qed.

(** With the fuel [play] gives it, the host's loop always comes to rest. *)
Lemma drain_quiescent :
  forall (fuel : nat) (w : World),
    (enoughFuel w <= fuel)%nat -> tasks (drain fuel w) = [].
Proof.
  induction fuel as [|fuel IH]; intros w Hfuel; cbn [drain].
  - unfold enoughFuel in Hfuel. destruct (tasks w); [reflexivity|].
    cbn [List.length] in Hfuel. lia.
  - destruct (tasks w) as [|[due k] rest] eqn:Htasks; [exact Htasks|].
    apply IH. pose proof (callback_uses_fuel w due k rest Htasks). lia.
Qed.

(** *** Feeding chunks under an invariant *)

Lemma arrive_none (arrivals : list (Z * list Z)) :
  fold_left arrive arrivals None = None.
Proof. induction arrivals as [|a rest IH]; [reflexivity | exact IH]. Qed.

Lemma arrivals_invariant (P : World -> Prop) :
  (forall w due k rest,
      tasks w = (due, k) :: rest -> P w -> P (runTask k (firing w due))) ->
  (forall w t, P w -> P (atTime t w)) ->
  (forall chunk w w', addPCM16 chunk w = Some w' -> P w -> P w') ->
  forall (arrivals : list (Z * list Z)) (w wf : World),
    P w -> fold_left arrive arrivals (Some w) = Some wf -> P wf.
Proof.
  intros Hcb Hclock Hadd.
  induction arrivals as [|[a chunk] rest IH]; intros w wf Hw Hfold.
  - cbn in Hfold. injection Hfold as <-. exact Hw.
  - cbn [fold_left arrive fst snd] in Hfold.
    destruct (addPCM16 chunk (advanceTo a w)) as [w1|] eqn:Hw1.
    + apply (IH w1 wf); [|exact Hfold].
      apply (Hadd chunk (advanceTo a w) w1 Hw1).
      apply advanceTo_invariant; assumption.
    + rewrite arrive_none in Hfold. discriminate.
Qed.

(** *** No overlap *)

Lemma noOverlap_snoc (log : list (Z * list Q)) (t s : Z) (b : list Q) :
  noOverlap log -> endsBy t log -> t <= s -> noOverlap (log ++ [(s, b)]).
Proof.
  intros Hno Hends Hts i j e1 e2 Hij H1 H2.
  assert (Hj : (j < List.length (log ++ [(s, b)]))%nat)
    by (apply nth_error_Some; congruence).
  rewrite length_app in Hj. cbn [List.length] in Hj.
  destruct (Nat.lt_ge_cases j (List.length log)) as [Hjl|Hjl].
  - rewrite nth_error_app1 in H1, H2 by lia. exact (Hno i j e1 e2 Hij H1 H2).
  - assert (j = List.length log) by lia. subst j.
    rewrite nth_error_app1 in H1 by lia.
    rewrite nth_error_app2, Nat.sub_diag in H2 by lia.
    cbn in H2. injection H2 as <-. cbn [fst].
    unfold endsBy in Hends. rewrite Forall_forall in Hends.
    pose proof (Hends e1 (nth_error_In _ _ H1)). lia.
Qed.

Lemma endsBy_snoc (log : list (Z * list Q)) (t s : Z) (b : list Q) :
  endsBy t log -> t <= s ->
  endsBy (s + Z.of_nat (List.length b)) (log ++ [(s, b)]).
Proof.
  intros Hends Hts. unfold endsBy in *. apply Forall_app. split.
  - eapply Forall_impl; [|exact Hends]. cbn beta. intros e He. lia.
  - constructor; [|constructor]. unfold endOf. cbn [fst snd]. lia.
Qed.

Lemma sequentialWorld_callback (w : World) (due : Z) (k : Task)
      (rest : list (Z * Task)) :
  tasks w = (due, k) :: rest -> sequentialWorld w ->
  sequentialWorld (runTask k (firing w due)).
Proof.
  intros Htasks (Hlive & Hno & Hpending).
  rewrite Htasks in Hpending. destruct rest; [|contradiction].
  destruct Hpending as (Hk & Hplay & Hends).
  assert (Hrun : runTask k (firing w due) = scheduleNextBuffer (firing w due))
    by (destruct k; [reflexivity | reflexivity | congruence]).
  rewrite Hrun. unfold scheduleNextBuffer, firing, sequentialWorld.
  cbn [streamer audioQueue clock tasks started completed isPlaying
       isStreamComplete].
  rewrite Htasks, Hlive. cbn [tl].
  destruct (audioQueue (streamer w)) as [|b q].
  - cbn [streamer tasks started isStreamComplete isPlaying]. auto.
  - destruct (Z.of_nat (List.length b) =? 0);
      cbn [streamer tasks started isStreamComplete isPlaying schedule].
    + auto.
    + split; [reflexivity|]. split.
      * apply (noOverlap_snoc _ due); [assumption | assumption | lia].
      * split; [discriminate|]. split; [exact Hplay|].
        apply (endsBy_snoc _ due); [assumption | lia].
Qed.

Lemma sequentialWorld_add (chunk : list Z) (w w' : World) :
  addPCM16 chunk w = Some w' -> sequentialWorld w -> sequentialWorld w'.
Proof.
  unfold addPCM16. destruct (pcm16ToFloat chunk) as [buf|]; [|discriminate].
  intros Hadd (Hlive & Hno & Hpending).
  destruct (isPlaying (streamer w)) eqn:Hplay; cbn [negb] in Hadd;
    injection Hadd as <-; unfold sequentialWorld;
    cbn [streamer tasks started isStreamComplete isPlaying].
  - repeat split; assumption.
  - destruct (tasks w) as [|[due k] [|]]; try contradiction.
    + destruct Hpending as [Hempty | Habs]; [|discriminate].
      cbn [schedule]. rewrite Hempty in *.
      repeat split; try assumption; try discriminate. constructor.
    + destruct Hpending as (_ & Habs & _). discriminate.
Qed.

Lemma sequentialWorld_play (t0 : Z) (arrivals : list (Z * list Z))
      (w : World) :
  play t0 arrivals = Some w -> sequentialWorld w.
Proof.
  unfold play.
  destruct (fold_left arrive arrivals (Some (newWorld t0))) as [wf|] eqn:Hfold;
    [|discriminate].
  intros Hw. injection Hw as <-.
  apply (drain_invariant sequentialWorld sequentialWorld_callback).
  apply (arrivals_invariant sequentialWorld sequentialWorld_callback
           (fun w t H => H) sequentialWorld_add arrivals (newWorld t0) wf);
    [|exact Hfold].
  unfold sequentialWorld, newWorld. cbn. repeat split; auto.
  intros i j e1 e2 _ H1. destruct i; discriminate.
Qed.

(** X12.  Under any timing of the arrivals, a streamer that is never
    stopped starts no buffer before every buffer started earlier has
    ended: playback never overlaps. *)
Theorem playback_never_overlaps (t0 : Z) (arrivals : list (Z * list Z))
        (w : World) :
  play t0 arrivals = Some w -> noOverlap (started w).
Proof.
  intros Hplay. destruct (sequentialWorld_play t0 arrivals w Hplay) as (_ & H & _).
  exact H.
Qed.

(** *** First in, first out *)

Lemma accountsFor_callback (bufs : list (list Q)) (w : World) (due : Z)
      (k : Task) (rest : list (Z * Task)) :
  tasks w = (due, k) :: rest -> accountsFor bufs w ->
  accountsFor bufs (runTask k (firing w due)).
Proof.
  intros Htasks (Hall & Hne).
  destruct k; cbn [runTask]; unfold accountsFor.
  3:{ unfold firing. cbn [streamer started audioQueue]. split; assumption. }
  all: unfold scheduleNextBuffer, firing;
    cbn [streamer audioQueue clock tasks started completed isPlaying
         isStreamComplete];
    destruct (audioQueue (streamer w)) as [|b q] eqn:Hq;
    [ destruct (isStreamComplete (streamer w));
      cbn [streamer started audioQueue]; rewrite ?Hq; split; assumption
    | inversion Hne as [|? ? Hb Hq']; subst;
      assert (Hlen : (Z.of_nat (List.length b) =? 0) = false)
        by (apply Z.eqb_neq; destruct b; [congruence | cbn [List.length]; lia]);
      rewrite Hlen; cbn [streamer started audioQueue];
      split; [|exact Hq'];
      rewrite map_app, <- app_assoc; reflexivity ].
Qed.

Lemma pcm16ToFloat_nonempty (chunk : list Z) (buf : list Q) :
  chunk <> [] -> pcm16ToFloat chunk = Some buf -> buf <> [].
Proof.
  intros Hne Hdec. destruct chunk as [|b0 [|b1 rest]];
    [congruence | discriminate |].
  cbn [pcm16ToFloat] in Hdec.
  destruct (pcm16ToFloat rest); [|discriminate].
  injection Hdec as <-. discriminate.
Qed.

Lemma accountsFor_arrivals :
  forall (arrivals : list (Z * list Z)) (w wf : World) (bufs0 : list (list Q)),
    Forall (fun a => snd a <> []) arrivals ->
    accountsFor bufs0 w ->
    fold_left arrive arrivals (Some w) = Some wf ->
    exists bufs,
      SpecPlayback.decodes (map snd arrivals) bufs
      /\ accountsFor (bufs0 ++ bufs) wf.
Proof.
  induction arrivals as [|[a chunk] rest IH]; intros w wf bufs0 Hne Hw Hfold.
  - cbn in Hfold. injection Hfold as <-. exists [].
    rewrite app_nil_r. split; [reflexivity | exact Hw].
  - inversion Hne as [|? ? Hchunk Hrest]; subst. cbn [snd] in Hchunk.
    cbn [fold_left arrive fst snd] in Hfold.
    assert (Hadv : accountsFor bufs0 (advanceTo a w)).
    { apply (advanceTo_invariant (accountsFor bufs0)); [| |exact Hw].
      - intros. eapply accountsFor_callback; eassumption.
      - intros w0 t H0. exact H0. }
    unfold addPCM16 in Hfold.
    destruct (pcm16ToFloat chunk) as [buf|] eqn:Hdec;
      [|rewrite arrive_none in Hfold; discriminate].
    pose proof (pcm16ToFloat_nonempty chunk buf Hchunk Hdec) as Hbuf.
    destruct Hadv as (Hall & Hq).
    match type of Hfold with
    | fold_left arrive rest (if ?c then Some ?w1 else Some ?w2) = _ =>
        assert (Hnext : exists w', (if c then Some w1 else Some w2) = Some w'
                                   /\ accountsFor (bufs0 ++ [buf]) w')
    end.
    { destruct (negb (isPlaying (streamer (advanceTo a w))));
        eexists; (split; [reflexivity|]); unfold accountsFor;
        cbn [streamer started audioQueue];
        (split; [rewrite app_assoc, Hall; reflexivity
                |apply Forall_app; split; [exact Hq | repeat constructor; exact Hbuf]]). }
    destruct Hnext as (w' & Hw' & Hacc). rewrite Hw' in Hfold.
    destruct (IH w' wf (bufs0 ++ [buf]) Hrest Hacc Hfold)
      as (bufs & Hdecs & Hfinal).
    exists (buf :: bufs). split.
    + unfold SpecPlayback.decodes in *. cbn [map snd].
      rewrite Hdec, Hdecs. reflexivity.
    + rewrite <- app_assoc in Hfinal. exact Hfinal.
Qed.

(** X13.  Under any timing, a streamer that is never stopped handles
    non-empty chunks first in, first out: the buffers started, in the order
    they were started, followed by the buffers still queued, are exactly
    the decoded chunks in arrival order.  Nothing is dropped, duplicated or
    reordered. *)
Theorem playback_is_fifo (t0 : Z) (arrivals : list (Z * list Z)) (w : World) :
  Forall (fun a => snd a <> []) arrivals ->
  play t0 arrivals = Some w ->
  exists bufs,
    SpecPlayback.decodes (map snd arrivals) bufs
    /\ map snd (started w) ++ audioQueue (streamer w) = bufs.
Proof.
  intros Hne. unfold play.
  destruct (fold_left arrive arrivals (Some (newWorld t0))) as [wf|] eqn:Hfold;
    [|discriminate].
  intros Hw. injection Hw as <-.
  destruct (accountsFor_arrivals arrivals (newWorld t0) wf [] Hne)
    as (bufs & Hdecs & Hacc); [split; [reflexivity | constructor] | exact Hfold |].
  exists bufs. split; [exact Hdecs|].
  assert (Hfinal : accountsFor bufs (drain (enoughFuel wf) wf)).
  { apply (drain_invariant (accountsFor bufs)); [|exact Hacc].
    intros. eapply accountsFor_callback; eassumption. }
  exact (proj1 Hfinal).
Qed.

(** *** Running dry *)

Lemma live_callback (w : World) (due : Z) (k : Task) (rest : list (Z * Task)) :
  tasks w = (due, k) :: rest ->
  isStreamComplete (streamer w) = false /\ isPlaying (streamer w) = true ->
  isStreamComplete (streamer (runTask k (firing w due))) = false
  /\ isPlaying (streamer (runTask k (firing w due))) = true.
Proof.
  intros _ [Hlive Hplay].
  destruct k; cbn [runTask]; unfold scheduleNextBuffer, firing;
    cbn [streamer audioQueue isPlaying isStreamComplete];
    rewrite ?Hlive;
    try (destruct (audioQueue (streamer w)) as [|b q];
         [|destruct (Z.of_nat (List.length b) =? 0)]);
    cbn [streamer isPlaying isStreamComplete]; auto.
Qed.

Lemma live_add (chunk : list Z) (w w' : World) :
  addPCM16 chunk w = Some w' ->
  isStreamComplete (streamer w) = false ->
  isStreamComplete (streamer w') = false /\ isPlaying (streamer w') = true.
Proof.
  unfold addPCM16. destruct (pcm16ToFloat chunk); [|discriminate].
  intros Hadd Hlive.
  destruct (isPlaying (streamer w)) eqn:Hplay; cbn [negb] in Hadd;
    injection Hadd as <-; cbn [streamer isPlaying isStreamComplete]; auto.
Qed.

Lemma stalled_callback (log : list (Z * list Q)) (w : World) (due : Z)
      (k : Task) (rest : list (Z * Task)) :
  tasks w = (due, k) :: rest ->
  isPlaying (streamer w) = true /\ tasks w = [] /\ started w = log ->
  isPlaying (streamer (runTask k (firing w due))) = true
  /\ tasks (runTask k (firing w due)) = []
  /\ started (runTask k (firing w due)) = log.
Proof. intros Htasks (_ & Hnone & _). congruence. Qed.

Lemma stalled_add (log : list (Z * list Q)) (chunk : list Z) (w w' : World) :
  addPCM16 chunk w = Some w' ->
  isPlaying (streamer w) = true /\ tasks w = [] /\ started w = log ->
  isPlaying (streamer w') = true /\ tasks w' = [] /\ started w' = log.
Proof.
  unfold addPCM16. destruct (pcm16ToFloat chunk); [|discriminate].
  intros Hadd (Hplay & Hnone & Hlog). rewrite Hplay in Hadd.
  cbn [negb] in Hadd. injection Hadd as <-.
  cbn [streamer isPlaying tasks started]. auto.
Qed.

(** X14.  A streamer that is never stopped plays only while it is kept
    fed.  Once one or more chunks have been played and the host has come
    to rest, [isPlaying] is still true with no callback pending; whatever
    chunks arrive afterwards are queued but never started. *)
Theorem starved_streamer_never_resumes
        (t0 : Z) (first : Z * list Z) (arrivals late : list (Z * list Z))
        (w wf : World) :
  play t0 (first :: arrivals) = Some w ->
  fold_left arrive late (Some w) = Some wf ->
  isPlaying (streamer w) = true
  /\ tasks w = []
  /\ tasks wf = []
  /\ started (drain (enoughFuel wf) wf) = started w.
Proof.
  unfold play. cbn [fold_left].
  destruct (arrive (Some (newWorld t0)) first) as [w1|] eqn:Hfirst;
    [|rewrite arrive_none; discriminate].
  destruct (fold_left arrive arrivals (Some w1)) as [w2|] eqn:Hfold;
    [|discriminate].
  intros Hw Hlate. injection Hw as <-.
  set (live := fun w => isStreamComplete (streamer w) = false
                        /\ isPlaying (streamer w) = true).
  assert (H1 : live w1).
  { cbn [arrive] in Hfirst.
    apply (live_add (snd first) (advanceTo (fst first) (newWorld t0)) w1 Hfirst).
    unfold advanceTo, newWorld, enoughFuel. reflexivity. }
  assert (H2 : live w2).
  { apply (arrivals_invariant live live_callback (fun w t H => H)
             (fun chunk w w' Ha Hw => live_add chunk w w' Ha (proj1 Hw))
             arrivals w1 w2 H1 Hfold). }
  assert (H3 : live (drain (enoughFuel w2) w2))
    by (apply (drain_invariant live live_callback); exact H2).
  assert (Hrest : tasks (drain (enoughFuel w2) w2) = [])
    by (apply drain_quiescent; lia).
  set (w := drain (enoughFuel w2) w2) in *.
  set (stalled := fun x => isPlaying (streamer x) = true /\ tasks x = []
                           /\ started x = started w).
  assert (Hs : stalled w) by (repeat split; [exact (proj2 H3) | exact Hrest]).
  assert (Hsf : stalled wf).
  { apply (arrivals_invariant stalled (stalled_callback (started w))
             (fun w t H => H) (stalled_add (started w)) late w wf Hs Hlate). }
  assert (Hsd : stalled (drain (enoughFuel wf) wf))
    by (apply (drain_invariant stalled (stalled_callback (started w)));
        exact Hsf).
  split; [exact (proj2 H3)|]. split; [exact Hrest|].
  split; [exact (proj1 (proj2 Hsf))|]. exact (proj2 (proj2 Hsd)).
Qed.

(** *** Stopping *)

Lemma schedule_keeps (t : Z) (k : Task) (ts : list (Z * Task))
      (x : Z * Task) :
  In x ts -> In x (schedule t k ts).
Proof.
  induction ts as [|[t' k'] ts IH]; intros Hin; [contradiction|].
  cbn [schedule]. destruct (t' <=? t).
  - destruct Hin as [<-|Hin]; [left; reflexivity | right; apply IH, Hin].
  - right. exact Hin.
Qed.

Lemma silent_callback (log : list (Z * list Q)) (w : World) (due : Z)
      (k : Task) (rest : list (Z * Task)) :
  tasks w = (due, k) :: rest ->
  audioQueue (streamer w) = [] /\ started w = log ->
  audioQueue (streamer (runTask k (firing w due))) = []
  /\ started (runTask k (firing w due)) = log.
Proof.
  intros _ [Hq Hlog].
  destruct k; cbn [runTask]; unfold scheduleNextBuffer, firing;
    cbn [streamer audioQueue started isStreamComplete];
    rewrite ?Hq;
    try destruct (isStreamComplete (streamer w));
    cbn [streamer audioQueue started]; auto.
Qed.

(** X15.  [stop()] discards the queue for good: the buffers waiting when
    it is called are never started, however long the host runs, and the
    streamer is left not playing and marked complete.  It cancels nothing
    that is pending: every callback registered before the call is still
    registered after it. *)
Theorem stop_discards_the_queue (w : World) (fuel : nat) (t : Z) :
  started (drain fuel (stop w)) = started w
  /\ started (runDue fuel t (stop w)) = started w
  /\ audioQueue (streamer (stop w)) = []
  /\ isPlaying (streamer (stop w)) = false
  /\ isStreamComplete (streamer (stop w)) = true
  /\ (forall x, In x (tasks w) -> In x (tasks (stop w))).
Proof.
  set (silent := fun x => audioQueue (streamer x) = []
                          /\ started x = started w).
  assert (Hs : silent (stop w)) by (split; reflexivity).
  split; [|split; [|split; [|split; [|split]]]]; try reflexivity.
  - exact (proj2 (drain_invariant silent (silent_callback (started w))
                    fuel (stop w) Hs)).
  - exact (proj2 (runDue_invariant silent (silent_callback (started w))
                    fuel t (stop w) Hs)).
  - intros x Hin. unfold stop. cbn [tasks]. apply schedule_keeps, Hin.
Qed.

End PlaybackFacts.

(** ** The session, beyond single events *)

Section SessionFacts.

Import GenAILiveClient.
Import LiveAPI.
Import Session.
Local Open Scope string_scope.

Lemma to_uint_not_nil (n : nat) : Nat.to_uint n <> Decimal.Nil.
Proof.
  intros Hnil. pose proof (DecimalNat.Unsigned.of_to n) as Hn.
  rewrite Hnil in Hn. cbn in Hn. subst n. discriminate Hnil.
Qed.

Lemma showNat_injective (n m : nat) :
  ContextService.showNat n = ContextService.showNat m -> n = m.
Proof.
  unfold ContextService.showNat. intros Heq.
  apply DecimalNat.Unsigned.to_uint_inj.
  pose proof (NilZero.usu (Nat.to_uint n) (to_uint_not_nil n)) as Hn.
  pose proof (NilZero.usu (Nat.to_uint m) (to_uint_not_nil m)) as Hm.
  rewrite Heq in Hn. congruence.
Qed.

Lemma turnId_injective (n m : nat) : turnId n = turnId m -> n = m.
Proof.
  unfold turnId. intros Heq. apply showNat_injective.
  cbn [append] in Heq. congruence.
Qed.

Lemma startRecording_transcript (p : Provider) :
  let p' := startRecording p in
  completedTurns p' = completedTurns p /\ turnIdRef p' = turnIdRef p
  /\ streamingText p' = streamingText p
  /\ streamingTextRef p' = streamingTextRef p
  /\ lastCompletedTurn p' = lastCompletedTurn p
  /\ isStreaming p' = isStreaming p /\ status p' = status p.
Proof.
  cbv zeta. unfold startRecording.
  destruct (audioContextRef p); cbn [openPlaybackContext];
    match goal with
    | |- context [AudioRecorder.start ?r ?b] =>
        destruct (AudioRecorder.start r b) as [[[u|e] r'] b']
    end; cbn; auto 10.
Qed.

Lemma stopRecording_transcript (p : Provider) :
  let p' := stopRecording p in
  completedTurns p' = completedTurns p /\ turnIdRef p' = turnIdRef p
  /\ streamingText p' = streamingText p
  /\ streamingTextRef p' = streamingTextRef p
  /\ lastCompletedTurn p' = lastCompletedTurn p
  /\ isStreaming p' = isStreaming p /\ status p' = status p.
Proof.
  cbv zeta. unfold stopRecording.
  destruct (audioRecorderRef p) as [r|]; [|cbn; auto 10].
  destruct (AudioRecorder.stop r (browser p)) as [r' b']. cbn. auto 10.
Qed.

Lemma last_snoc (A : Type) (l : list A) (x d : A) : last (l ++ [x]) d = x.
Proof.
  induction l as [|y l IH]; [reflexivity|].
  cbn [app last]. destruct (l ++ [x])%list eqn:Hl; [|exact IH].
  destruct l; discriminate.
Qed.

Lemma transcriptInvariant_handle (t : Z) (p : Provider) (e : Event) :
  transcriptInvariant p -> transcriptInvariant (handle t p e).
Proof.
  intros (Hids & Htexts & Hshown & Hlast). unfold transcriptInvariant.
  destruct e; cbn [handle]; try (repeat split; assumption).
  - destruct (startRecording_transcript (setStatus Connected p))
      as (H1 & H2 & H3 & H4 & H5 & _).
    rewrite H1, H2, H3, H4, H5. unfold setStatus.
    cbn [completedTurns turnIdRef streamingText streamingTextRef
         lastCompletedTurn].
    split; [|split; [|split]]; auto.
  - destruct (stopRecording_transcript (setStatus Disconnected p))
      as (H1 & H2 & H3 & H4 & H5 & _).
    rewrite H1, H2, H3, H4, H5. unfold setStatus.
    cbn [completedTurns turnIdRef streamingText streamingTextRef
         lastCompletedTurn].
    split; [|split; [|split]]; auto.
  - unfold onTurnComplete.
    destruct (streamingTextRef p) as [|c s] eqn:Hacc.
    + unfold setTranscript.
      cbn [completedTurns turnIdRef streamingText streamingTextRef
           lastCompletedTurn].
      split; [|split; [|split]]; auto.
    + unfold setTranscript, completeTurn.
      cbn [completedTurns turnIdRef streamingText streamingTextRef
           lastCompletedTurn].
      split; [|split; [|split]].
      * rewrite map_app, Hids, seq_S, map_app. reflexivity.
      * apply Forall_app. split; [exact Htexts|].
        constructor; [discriminate | constructor].
      * reflexivity.
      * rewrite map_app. cbn [map]. rewrite last_snoc. reflexivity.
Qed.

Lemma transcriptInvariant_deliver (events : list (Z * Event)) (p : Provider) :
  transcriptInvariant p -> transcriptInvariant (deliver events p).
Proof.
  revert p. induction events as [|[t e] rest IH]; intros p Hp; [exact Hp|].
  unfold deliver. cbn [fold_left fst snd].
  apply IH, transcriptInvariant_handle, Hp.
Qed.

(** X16.  Whatever events a freshly mounted provider receives, in any
    order, the turns it has emitted carry the ids live-turn-1,
    live-turn-2, ... in order, so no two turns share an id; no turn has an
    empty text; [lastCompletedTurn] is the last turn emitted; and the
    displayed transcript is the accumulator. *)
Theorem turn_ids_are_unique (b : AudioRecorder.Browser)
        (events : list (Z * Event)) :
  let p := deliver events (initialProvider b) in
  NoDup (map id (completedTurns p))
  /\ map id (completedTurns p) = map turnId (seq 1 (List.length (completedTurns p)))
  /\ Forall (fun turn => turnText turn <> "") (completedTurns p)
  /\ lastCompletedTurn p = last (map Some (completedTurns p)) None
  /\ streamingText p = streamingTextRef p.
Proof.
  cbv zeta.
  assert (Hinit : transcriptInvariant (initialProvider b))
    by (repeat split; constructor).
  destruct (transcriptInvariant_deliver events _ Hinit)
    as (Hids & Htexts & Hshown & Hlast).
  set (p := deliver events (initialProvider b)) in *.
  assert (Hlen : List.length (completedTurns p) = turnIdRef p).
  { rewrite <- (length_map id), Hids, length_map, length_seq. reflexivity. }
  split; [|split; [|split; [|split]]]; try assumption.
  - rewrite Hids.
    assert (Hnodup : forall l : list nat, NoDup l -> NoDup (map turnId l)).
    { induction l as [|x l IH]; intros Hl; [constructor|].
      inversion Hl as [|? ? Hx Hl']; subst. cbn [map]. constructor.
      - intros Hin. apply in_map_iff in Hin.
        destruct Hin as (y & Hy & Hiny).
        apply turnId_injective in Hy. subst y. contradiction.
      - apply IH, Hl'. }
    apply Hnodup, seq_NoDup.
  - rewrite Hlen. exact Hids.
Qed.

Lemma concat_texts_nonempty (turnParts : list Part) :
  existsb hasText turnParts = true ->
  filter hasText turnParts <> []
  /\ String.concat "" (map textOf (filter hasText turnParts)) <> "".
Proof.
  intros Hsome.
  induction turnParts as [|part rest IH]; [discriminate|].
  cbn [existsb filter] in *.
  destruct (hasText part) eqn:Hpart.
  - split; [discriminate|].
    unfold hasText, ContextService.truthy in Hpart.
    cbn [map]. unfold textOf at 1.
    destruct (partTextOf part) as [[|c s]|]; try discriminate.
    cbn [String.concat].
    destruct (map textOf (filter hasText rest)); cbn; discriminate.
  - apply IH. exact Hsome.
Qed.

(** X17.  From the transport to the transcript: every text delta the
    client emits is non-empty, and a message without audio parts that
    carries text together with the completion marker, received on an
    empty accumulator, produces exactly one turn whose text is the
    message's text parts joined in order, and leaves the provider not
    streaming.  (With an audio part the ['content'] listener decodes
    before the text is emitted, and a chunk it cannot decode ends the
    message there.) *)
Theorem message_with_text_completes_a_turn
        (msg : ServerMessage) (t : Z) (p : Provider) :
  (forall delta, In (TextDelta delta) (onmessage msg) -> delta <> "")
  /\ (carriesAudio msg = false ->
      carriesText msg = true -> turnComplete msg = true ->
      streamingTextRef p = "" ->
      let p' := deliver (received t msg) p in
      completedTurns p'
      = (completedTurns p
           ++ [{| id := turnId (S (turnIdRef p));
                  turnText := textOfMessage msg;
                  turnTimestamp := t |}])%list
      /\ isStreaming p' = false /\ streamingText p' = "").
Proof.
  split.
  - intros delta Hin. unfold onmessage in Hin.
    destruct (modelTurn msg) as [turnParts|].
    + destruct (filter hasText turnParts) as [|part more] eqn:Hf.
      * cbn in Hin.
        destruct Hin as [Habs|Hin]; [discriminate|].
        apply in_app_or in Hin.
        destruct Hin as [Hin|Hin];
          [destruct (turnComplete msg) | destruct (toolCall msg)];
          cbn in Hin; intuition discriminate.
      * assert (Hsome : existsb hasText turnParts = true).
        { apply existsb_exists. exists part.
          assert (Hin' : In part (filter hasText turnParts))
            by (rewrite Hf; left; reflexivity).
          apply filter_In in Hin'. exact Hin'. }
        destruct (concat_texts_nonempty turnParts Hsome) as [_ Hne].
        rewrite Hf in Hne.
        cbn [app In] in Hin.
        destruct Hin as [Habs|[Hd|Hin]]; [discriminate | |].
        -- injection Hd as <-. exact Hne.
        -- apply in_app_or in Hin.
           destruct Hin as [Hin|Hin];
             [destruct (turnComplete msg) | destruct (toolCall msg)];
             cbn in Hin; intuition discriminate.
    + cbn [app] in Hin. apply in_app_or in Hin.
      destruct Hin as [Hin|Hin];
        [destruct (turnComplete msg) | destruct (toolCall msg)];
        cbn in Hin; intuition discriminate.
  - intros _ Htext Hdone Hempty. cbv zeta.
    unfold carriesText in Htext. unfold textOfMessage, received, onmessage.
    destruct (modelTurn msg) as [turnParts|]; [|discriminate].
    destruct (concat_texts_nonempty turnParts Htext) as [Hf Hne].
    rewrite Hdone.
    destruct (filter hasText turnParts) as [|part more]; [congruence|].
    set (text := String.concat "" (map textOf (part :: more))) in *.
    assert (Hrun : deliver
                     (map (fun e => (t, e))
                        ((Content turnParts :: [TextDelta text])
                           ++ [TurnComplete]
                           ++ match toolCall msg with
                              | Some tc => [ToolCall tc]
                              | None => []
                              end)) p
                   = onTurnComplete t (onTextDelta text p)).
    { destruct (toolCall msg); reflexivity. }
    rewrite Hrun.
    destruct (onTextDelta_spec text p) as (Hacc & _ & _ & Hturns & _ & Hid).
    rewrite Hempty in Hacc. cbn [append] in Hacc.
    destruct text as [|c s] eqn:Htextv; [congruence|].
    destruct (onTurnComplete_text t (onTextDelta (String c s) p) c s Hacc)
      as (H1 & _ & _ & _ & H5 & H6).
    rewrite Hturns, Hid in H1. unfold turnId.
    split; [exact H1|]. split; assumption.
Qed.

(** *** The microphone over whole sessions *)

Lemma remove_fresh (l : list nat) (h : nat) :
  ~ In h l -> AudioRecorder.remove h (l ++ [h])%list = l.
Proof.
  intros Hfresh. unfold AudioRecorder.remove.
  rewrite filter_app. cbn [filter]. rewrite Nat.eqb_refl. cbn [negb].
  rewrite app_nil_r. apply filter_all.
  intros x Hx. apply negb_true_iff, Nat.eqb_neq. intros ->. contradiction.
Qed.

Lemma below_not_in (l : list nat) (n h : nat) :
  Forall (fun x => (x < n)%nat) l -> (n <= h)%nat -> ~ In h l.
Proof.
  intros Hall Hle Hin. rewrite Forall_forall in Hall.
  specialize (Hall h Hin). lia.
Qed.

Lemma wellNumbered_parts (b : AudioRecorder.Browser) :
  wellNumbered b <->
  Forall (fun h => (h < AudioRecorder.nextHandle b)%nat)
         (AudioRecorder.liveStreams b)
  /\ Forall (fun h => (h < AudioRecorder.nextHandle b)%nat)
            (AudioRecorder.openContexts b)
  /\ Forall (fun h => (h < AudioRecorder.nextHandle b)%nat)
            (AudioRecorder.sourceNodes b)
  /\ Forall (fun h => (h < AudioRecorder.nextHandle b)%nat)
            (AudioRecorder.processorNodes b).
Proof. unfold wellNumbered. rewrite !Forall_app. tauto. Qed.

(** The recorder and the browser across one [start] and the [stop] that
    follows it. *)
Lemma start_stop_cycle (r : AudioRecorder.Recorder)
      (b : AudioRecorder.Browser) :
  microphoneGranted b -> wellNumbered b ->
  let started := AudioRecorder.start r b in
  let stopped := AudioRecorder.stop (snd (fst started)) (snd started) in
  fst (fst started) = inl tt
  /\ AudioRecorder.liveStreams (snd stopped) = AudioRecorder.liveStreams b
  /\ AudioRecorder.sourceNodes (snd stopped) = AudioRecorder.sourceNodes b
  /\ AudioRecorder.processorNodes (snd stopped)
     = AudioRecorder.processorNodes b
  /\ microphoneGranted (snd stopped) /\ wellNumbered (snd stopped).
Proof.
  intros [Hdev Hmic] Hnum. cbv zeta.
  apply wellNumbered_parts in Hnum. destruct Hnum as (Hs & Hc & Hsrc & Hp).
  unfold AudioRecorder.start. rewrite Hdev, Hmic. cbn [negb fst snd].
  unfold AudioRecorder.stop.
  cbn [AudioRecorder.stream AudioRecorder.audioContext AudioRecorder.source
       AudioRecorder.processor AudioRecorder.liveStreams
       AudioRecorder.openContexts AudioRecorder.sourceNodes
       AudioRecorder.processorNodes AudioRecorder.mediaDevices
       AudioRecorder.micPermission AudioRecorder.nextHandle fst snd].
  set (n := AudioRecorder.nextHandle b) in *.
  rewrite !remove_fresh by (eapply below_not_in; [eassumption | lia]).
  split; [reflexivity|]. split; [reflexivity|]. split; [reflexivity|].
  split; [reflexivity|].
  split; [unfold microphoneGranted; cbn; auto|].
  apply wellNumbered_parts.
  cbn [AudioRecorder.liveStreams AudioRecorder.openContexts
       AudioRecorder.sourceNodes AudioRecorder.processorNodes
       AudioRecorder.nextHandle].
  repeat split; (eapply Forall_impl; [|eassumption]); cbn beta; intros; lia.
Qed.

(** X18.  Starting the recorder and stopping it gives back exactly what
    the start acquired: the browser's live streams, open contexts and
    connected nodes are what they were before the start, whatever the
    recorder held, and the recorder holds nothing.  Stopping a recorder
    that holds nothing changes nothing in the browser. *)
Theorem start_then_stop_releases (r : AudioRecorder.Recorder)
        (b : AudioRecorder.Browser) :
  microphoneGranted b -> wellNumbered b ->
  let started := AudioRecorder.start r b in
  let stopped := AudioRecorder.stop (snd (fst started)) (snd started) in
  fst (fst started) = inl tt
  /\ AudioRecorder.liveStreams (snd stopped) = AudioRecorder.liveStreams b
  /\ AudioRecorder.openContexts (snd stopped) = AudioRecorder.openContexts b
  /\ AudioRecorder.sourceNodes (snd stopped) = AudioRecorder.sourceNodes b
  /\ AudioRecorder.processorNodes (snd stopped)
     = AudioRecorder.processorNodes b
  /\ recorderIdle (Some (fst stopped))
  /\ microphoneGranted (snd stopped) /\ wellNumbered (snd stopped)
  /\ (recorderIdle (Some r) -> snd (AudioRecorder.stop r b) = b).
Proof.
  intros [Hdev Hmic] Hnum. cbv zeta.
  apply wellNumbered_parts in Hnum. destruct Hnum as (Hs & Hc & Hsrc & Hp).
  unfold AudioRecorder.start. rewrite Hdev, Hmic. cbn [negb fst snd].
  unfold AudioRecorder.stop.
  cbn [AudioRecorder.stream AudioRecorder.audioContext AudioRecorder.source
       AudioRecorder.processor AudioRecorder.liveStreams
       AudioRecorder.openContexts AudioRecorder.sourceNodes
       AudioRecorder.processorNodes AudioRecorder.mediaDevices
       AudioRecorder.micPermission AudioRecorder.nextHandle fst snd].
  set (n := AudioRecorder.nextHandle b) in *.
  rewrite !remove_fresh by (eapply below_not_in; [eassumption | lia]).
  split; [reflexivity|]. split; [reflexivity|]. split; [reflexivity|].
  split; [reflexivity|]. split; [reflexivity|].
  split; [cbn; auto|].
  split; [unfold microphoneGranted; cbn; auto|]. split.
  - apply wellNumbered_parts.
    cbn [AudioRecorder.liveStreams AudioRecorder.openContexts
         AudioRecorder.sourceNodes AudioRecorder.processorNodes
         AudioRecorder.nextHandle].
    repeat split; (eapply Forall_impl; [|eassumption]); cbn beta; intros; lia.
  - intros (H1 & H2 & H3 & H4). rewrite H1, H2, H3, H4.
    destruct b; reflexivity.
Qed.


(** The browser the recorder is started in: the provider's, with the
    playback context opened if it was not. *)
Lemma playback_context_keeps (b : AudioRecorder.Browser) :
  microphoneGranted b -> wellNumbered b ->
  let b1 := snd (openPlaybackContext b) in
  microphoneGranted b1 /\ wellNumbered b1
  /\ AudioRecorder.liveStreams b1 = AudioRecorder.liveStreams b
  /\ AudioRecorder.sourceNodes b1 = AudioRecorder.sourceNodes b
  /\ AudioRecorder.processorNodes b1 = AudioRecorder.processorNodes b.
Proof.
  intros Hg Hnum. cbv zeta. unfold openPlaybackContext. cbn [snd].
  split; [exact Hg|]. split; [|auto].
  apply wellNumbered_parts in Hnum. destruct Hnum as (Hs & Hc & Hsrc & Hp).
  apply wellNumbered_parts.
  cbn [AudioRecorder.liveStreams AudioRecorder.openContexts
       AudioRecorder.sourceNodes AudioRecorder.processorNodes
       AudioRecorder.nextHandle].
  repeat split; try apply Forall_app; try split;
    try (eapply Forall_impl; [|eassumption]; cbn beta; intros; lia).
  constructor; [lia | constructor].
Qed.

Lemma session_cycle (p : Provider) (t1 t2 : Z) :
  microphoneGranted (browser p) -> wellNumbered (browser p) ->
  let opened := handle t1 p Open in
  let closed := handle t2 opened Close in
  (status opened = Connected /\ isRecording opened = true
   /\ error opened = None
   /\ List.length (AudioRecorder.liveStreams (browser opened))
      = S (List.length (AudioRecorder.liveStreams (browser p))))
  /\ status closed = Disconnected /\ isRecording closed = false
  /\ AudioRecorder.liveStreams (browser closed)
     = AudioRecorder.liveStreams (browser p)
  /\ AudioRecorder.sourceNodes (browser closed)
     = AudioRecorder.sourceNodes (browser p)
  /\ AudioRecorder.processorNodes (browser closed)
     = AudioRecorder.processorNodes (browser p)
  /\ microphoneGranted (browser closed) /\ wellNumbered (browser closed).
Proof.
  intros Hg Hnum. cbv zeta. cbn [handle].
  unfold startRecording.
  cbn [setStatus audioContextRef browser audioRecorderRef isRecording].
  set (rec := match audioRecorderRef p with
              | Some r => r
              | None => AudioRecorder.newRecorder
              end).
  assert (Hb1 : exists ctx b1,
             match audioContextRef p with
             | Some c => (c, browser p)
             | None => openPlaybackContext (browser p)
             end = (ctx, b1)
             /\ microphoneGranted b1 /\ wellNumbered b1
             /\ AudioRecorder.liveStreams b1
                = AudioRecorder.liveStreams (browser p)
             /\ AudioRecorder.sourceNodes b1
                = AudioRecorder.sourceNodes (browser p)
             /\ AudioRecorder.processorNodes b1
                = AudioRecorder.processorNodes (browser p)).
  { destruct (audioContextRef p) as [c|].
    - exists c, (browser p). auto 10.
    - destruct (playback_context_keeps (browser p) Hg Hnum)
        as (H1 & H2 & H3 & H4 & H5).
      eexists _, _. split; [reflexivity|]. auto 10. }
  destruct Hb1 as (ctx & b1 & -> & Hg1 & Hnum1 & Hl1 & Hs1 & Hp1).
  destruct (start_stop_cycle rec b1 Hg1 Hnum1)
    as (Hres & Hl & Hs & Hp & Hg2 & Hnum2).
  assert (Hgrow : List.length (AudioRecorder.liveStreams
                                 (snd (AudioRecorder.start rec b1)))
                  = S (List.length (AudioRecorder.liveStreams b1))).
  { destruct Hg1 as [Hdev Hmic].
    destruct (start_ignores_handles rec b1 Hdev Hmic) as (Hstreams & _).
    rewrite Hstreams, length_app. cbn [List.length]. lia. }
  destruct (AudioRecorder.start rec b1) as [[res r1] b2].
  cbn [fst snd] in Hres, Hl, Hs, Hp, Hg2, Hnum2, Hgrow. subst res.
  unfold stopRecording.
  cbn [setRecording setAudio setStatus status isRecording error browser
       audioRecorderRef audioContextRef audioStreamerRef].
  destruct (AudioRecorder.stop r1 b2) as [r2 b3].
  cbn [fst snd] in Hl, Hs, Hp, Hg2, Hnum2.
  cbn [setRecording setAudio setStatus status isRecording error browser
       audioRecorderRef audioContextRef audioStreamerRef].
  rewrite Hl, Hs, Hp, Hl1, Hs1, Hp1, Hgrow, Hl1.
  repeat split; try reflexivity; try assumption; apply Hg2.
Qed.

(** The events of some sessions, each opened and then closed. *)
Lemma sessions_keep_microphone :
  forall (sessions : list (Z * Z)) (p : Provider),
    microphoneGranted (browser p) -> wellNumbered (browser p) ->
    let final :=
      deliver (flat_map (fun s => [(fst s, Open); (snd s, Close)]) sessions) p in
    AudioRecorder.liveStreams (browser final)
    = AudioRecorder.liveStreams (browser p)
    /\ AudioRecorder.sourceNodes (browser final)
       = AudioRecorder.sourceNodes (browser p)
    /\ AudioRecorder.processorNodes (browser final)
       = AudioRecorder.processorNodes (browser p)
    /\ (sessions <> [] ->
        status final = Disconnected /\ isRecording final = false).
Proof.
  induction sessions as [|[t1 t2] rest IH]; intros p Hg Hnum.
  - cbn. split; [|split; [|split]]; auto. intros H; congruence.
  - cbv zeta. cbn [flat_map fst snd app].
    unfold deliver. cbn [fold_left fst snd].
    destruct (session_cycle p t1 t2 Hg Hnum)
      as (_ & Hst & Hrec & Hl & Hs & Hp & Hg' & Hnum').
    set (closed := handle t2 (handle t1 p Open) Close) in *.
    specialize (IH closed Hg' Hnum'). cbv zeta in IH.
    unfold deliver in IH.
    destruct IH as (Hl2 & Hs2 & Hp2 & Hfinal).
    rewrite Hl2, Hs2, Hp2, Hl, Hs, Hp.
    repeat split; try reflexivity.
    + destruct rest; [exact Hst | apply Hfinal; discriminate].
    + destruct rest; [exact Hrec | apply Hfinal; discriminate].
Qed.

(** X19.  Sessions whose microphone start has settled before they close
    do not leak the microphone.  An open event here is the event together
    with the settling of the start it triggers, nothing coming in
    between (lemma open_settled; a close that comes in between is
    example close_before_the_start_settles).  With the microphone
    granted, opening a session then starts
    recording on exactly one new stream, and closing it releases that
    stream and its nodes; after any number of such sessions opened and
    closed in turn the browser's live streams, source nodes and processor
    nodes are what they were before the first, and the provider is
    disconnected and not recording. *)
Theorem sessions_do_not_leak (sessions : list (Z * Z)) (p : Provider)
        (t1 t2 : Z) :
  microphoneGranted (browser p) -> wellNumbered (browser p) ->
  let opened := handle t1 p Open in
  let final :=
    deliver (flat_map (fun s => [(fst s, Open); (snd s, Close)])
                      ((t1, t2) :: sessions)) p in
  status opened = Connected /\ isRecording opened = true
  /\ List.length (AudioRecorder.liveStreams (browser opened))
     = S (List.length (AudioRecorder.liveStreams (browser p)))
  /\ AudioRecorder.liveStreams (browser final)
     = AudioRecorder.liveStreams (browser p)
  /\ AudioRecorder.sourceNodes (browser final)
     = AudioRecorder.sourceNodes (browser p)
  /\ AudioRecorder.processorNodes (browser final)
     = AudioRecorder.processorNodes (browser p)
  /\ status final = Disconnected /\ isRecording final = false.
Proof.
  intros Hg Hnum. cbv zeta.
  destruct (session_cycle p t1 t2 Hg Hnum) as ((H1 & H2 & _ & H4) & _).
  destruct (sessions_keep_microphone ((t1, t2) :: sessions) p Hg Hnum)
    as (Hl & Hs & Hp & Hfinal).
  destruct Hfinal as [Hst Hrec]; [discriminate|].
  repeat split; assumption.
Qed.

(** X20.  A session that opens while the microphone cannot be had.  The
    status still becomes connected; the recording flag keeps its value;
    the error shown is the recorder's own message when the page is not a
    secure context and the generic one when the user refused; two lines
    go to the console; and no stream or node is left behind. *)
Theorem recording_refused (p : Provider) (t : Z) :
  ~ microphoneGranted (browser p) ->
  let opened := handle t p Open in
  status opened = Connected
  /\ isRecording opened = isRecording p
  /\ error opened
     = Some (startErrorMessage
               (if AudioRecorder.mediaDevices (browser p)
                then AudioRecorder.MicrophoneDenied
                else AudioRecorder.InsecureContext))
  /\ consoleErrors opened
     = (consoleErrors p ++ ["Error starting audio recording:";
                            "Failed to start recording"])%list
  /\ AudioRecorder.liveStreams (browser opened)
     = AudioRecorder.liveStreams (browser p)
  /\ AudioRecorder.sourceNodes (browser opened)
     = AudioRecorder.sourceNodes (browser p)
  /\ AudioRecorder.processorNodes (browser opened)
     = AudioRecorder.processorNodes (browser p)
  /\ audioContextRef opened <> None.
Proof.
  intros Hno. cbv zeta. cbn [handle]. unfold startRecording.
  cbn [setStatus audioContextRef browser audioRecorderRef isRecording].
  set (rec := match audioRecorderRef p with
              | Some r => r
              | None => AudioRecorder.newRecorder
              end).
  assert (Hflags : AudioRecorder.mediaDevices (browser p) = false
                   \/ (AudioRecorder.mediaDevices (browser p) = true
                       /\ AudioRecorder.micPermission (browser p) = false)).
  { unfold microphoneGranted in Hno.
    destruct (AudioRecorder.mediaDevices (browser p));
      destruct (AudioRecorder.micPermission (browser p)); auto.
    exfalso. apply Hno. auto. }
  destruct (audioContextRef p) as [c|];
    unfold openPlaybackContext, AudioRecorder.start;
    cbn [AudioRecorder.mediaDevices AudioRecorder.micPermission];
    destruct Hflags as [Hdev | [Hdev Hmic]];
    rewrite ?Hdev, ?Hmic; cbn [negb];
    cbn [setRecording logError setAudio setStatus status isRecording error
         browser consoleErrors audioContextRef
         AudioRecorder.liveStreams AudioRecorder.sourceNodes
         AudioRecorder.processorNodes];
    rewrite <- ?app_assoc; cbn [app];
    repeat split; try reflexivity; discriminate.
Qed.

(** X21.  Connecting after the store or the documents changed.  With a
    usable key the provider goes to connecting and hands the transport
    exactly one request: the cleaned key, the fixed model, audio as the
    one modality, the voice, the system instruction, and the tools
    chosen for the new store and documents.  The new client has no
    session yet, so nothing can be sent through it. *)
Theorem reconfigure_then_connect
        (activeStore : option ContextService.FileSearchStore)
        (docs : list ContextService.UploadedDocument)
        (apiKeyEnv : option string) (p : Provider) (a : ascii)
        (rest : string) :
  getApiKey apiKeyEnv = Some (String a rest) ->
  let key := String a rest in
  let p' := LiveAPI.connect apiKeyEnv (rebuildClient activeStore docs p) in
  status p' = ConnectingStatus
  /\ transport p'
     = (transport p
        ++ [ {| reqApiKey := key;
                reqModel :=
                  "models/gemini-2.5-flash-native-audio-preview-09-2025";
                reqResponseModalities := ["AUDIO"];
                reqVoiceName := Some Aoede;
                reqSystemInstruction := Some LIVE_SYSTEM_INSTRUCTION;
                reqTools := Some (liveToolsFor activeStore docs) |} ])%list
  /\ clientRef p'
     = Some {| client := Some key; session := None;
               config := liveConfigFor activeStore docs |}
  /\ (forall text chunks response c,
         clientRef p' = Some c ->
         LiveSend.sendText text c = []
         /\ LiveSend.sendRealtimeInput chunks c = []
         /\ LiveSend.sendToolResponse response c = []).
Proof.
  intros Hkey. cbv zeta.
  assert (Hclient : forall q,
             clientRef q = Some (newClient (liveConfigFor activeStore docs)) ->
             let q' := LiveAPI.connect apiKeyEnv q in
             status q' = ConnectingStatus
             /\ transport q'
                = (transport q
                   ++ [ {| reqApiKey := String a rest;
                           reqModel :=
                             "models/gemini-2.5-flash-native-audio-preview-09-2025";
                           reqResponseModalities := ["AUDIO"];
                           reqVoiceName := Some Aoede;
                           reqSystemInstruction := Some LIVE_SYSTEM_INSTRUCTION;
                           reqTools := Some (liveToolsFor activeStore docs) |} ])%list
             /\ clientRef q'
                = Some {| client := Some (String a rest); session := None;
                          config := liveConfigFor activeStore docs |}).
  { intros q Hq. cbv zeta. unfold LiveAPI.connect. rewrite Hkey.
    cbn [setStatus clientRef]. rewrite Hq.
    cbn [GenAILiveClient.connect newClient config session liveConfigFor
         model responseModalities voiceName liveSystemInstruction liveTools
         upperModality setClient setStatus status transport clientRef].
    repeat split; reflexivity. }
  assert (Hrebuilt :
            clientRef (rebuildClient activeStore docs p)
            = Some (newClient (liveConfigFor activeStore docs))
            /\ transport (rebuildClient activeStore docs p) = transport p).
  { unfold rebuildClient, stopRecording.
    destruct (status p);
      cbn [setClient setStatus setRecording clientRef transport
           audioRecorderRef browser audioContextRef audioStreamerRef error];
      rewrite ?app_nil_r; try (split; reflexivity).
    destruct (audioRecorderRef p) as [r|];
      [destruct (AudioRecorder.stop r (browser p)) as [r' b']|];
      cbn [setClient setStatus setRecording setAudio clientRef transport];
      rewrite ?app_nil_r; split; reflexivity. }
  destruct Hrebuilt as [Hc Ht].
  destruct (Hclient _ Hc) as (H1 & H2 & H3).
  rewrite Ht in H2.
  split; [exact H1|]. split; [exact H2|]. split; [exact H3|].
  intros text chunks response c Hsome. rewrite H3 in Hsome.
  injection Hsome as <-.
  unfold LiveSend.sendText, LiveSend.sendRealtimeInput,
    LiveSend.sendToolResponse.
  cbn [session]. repeat split; try reflexivity.
  induction chunks as [|ch chunks IH]; [reflexivity | exact IH].
Qed.

(** What [stopRecording] leaves: the status as it was, the flag down and
    the recorder idle. *)
Lemma stopRecording_fields (p : Provider) :
  status (stopRecording p) = status p
  /\ isRecording (stopRecording p) = false
  /\ recorderIdle (audioRecorderRef (stopRecording p)).
Proof.
  unfold stopRecording.
  destruct (audioRecorderRef p) as [r|] eqn:Href.
  - unfold AudioRecorder.stop.
    destruct (match AudioRecorder.processor r, AudioRecorder.source r with
              | Some pr, Some src =>
                  (AudioRecorder.remove src
                     (AudioRecorder.sourceNodes (browser p)),
                   AudioRecorder.remove pr
                     (AudioRecorder.processorNodes (browser p)))
              | _, _ => (AudioRecorder.sourceNodes (browser p),
                         AudioRecorder.processorNodes (browser p))
              end) as [srcs procs].
    cbn [setRecording setAudio status isRecording audioRecorderRef
         recorderIdle AudioRecorder.stream AudioRecorder.audioContext
         AudioRecorder.source AudioRecorder.processor].
    auto 10.
  - cbn [setRecording status isRecording audioRecorderRef].
    rewrite Href. cbn. auto.
Qed.

(** [startRecording] keeps the status, and keeps the flag truthful. *)
Lemma startRecording_fields (p : Provider) :
  status (startRecording p) = status p
  /\ (ChatWidget.flagMatchesRecorder p ->
      ChatWidget.flagMatchesRecorder (startRecording p)).
Proof.
  unfold startRecording, ChatWidget.flagMatchesRecorder.
  destruct (match audioContextRef p with
            | Some c => (c, browser p)
            | None => openPlaybackContext (browser p)
            end) as [ctx b1].
  set (rec := match audioRecorderRef p with
              | Some r => r
              | None => AudioRecorder.newRecorder
              end).
  assert (Hrec : (if isRecording p
                  then ChatWidget.recorderRunning (audioRecorderRef p)
                  else recorderIdle (audioRecorderRef p)) ->
                 if isRecording p
                 then ChatWidget.recorderRunning (Some rec)
                 else recorderIdle (Some rec)).
  { subst rec. destruct (isRecording p), (audioRecorderRef p); cbn; tauto. }
  unfold AudioRecorder.start.
  destruct (negb (AudioRecorder.mediaDevices b1));
    [|destruct (negb (AudioRecorder.micPermission b1))];
    cbn [setRecording logError setAudio status isRecording audioRecorderRef];
    (split; [reflexivity|]); try exact Hrec.
  intros _. cbn. repeat split; discriminate.
Qed.

(** [connect] touches neither the flag nor the recorder, and moves the
    status to connecting or not at all. *)
Lemma connect_fields (apiKeyEnv : option string) (p : Provider) :
  isRecording (LiveAPI.connect apiKeyEnv p) = isRecording p
  /\ audioRecorderRef (LiveAPI.connect apiKeyEnv p) = audioRecorderRef p
  /\ (status (LiveAPI.connect apiKeyEnv p) = ConnectingStatus
      \/ status (LiveAPI.connect apiKeyEnv p) = status p).
Proof.
  unfold LiveAPI.connect.
  destruct (getApiKey apiKeyEnv) as [[|a rest]|];
    cbn [logError setStatus clientRef status isRecording audioRecorderRef];
    auto.
  destruct (clientRef p) as [c|];
    cbn [GenAILiveClient.connect setClient setStatus status isRecording
         audioRecorderRef]; auto.
Qed.

Lemma disconnect_fields (p : Provider) :
  status (LiveAPI.disconnect p) = Disconnected
  /\ isRecording (LiveAPI.disconnect p) = false
  /\ recorderIdle (audioRecorderRef (LiveAPI.disconnect p)).
Proof.
  unfold LiveAPI.disconnect.
  cbn [setStatus status isRecording audioRecorderRef].
  destruct (stopRecording_fields
              (match clientRef p with
               | Some c =>
                   setClient (Some (GenAILiveClient.disconnect c)) [] p
               | None => p
               end)) as (_ & H2 & H3).
  auto.
Qed.

Lemma transcript_fields (now : Z) (delta : string) (p : Provider) :
  (status (onTextDelta delta p) = status p
   /\ isRecording (onTextDelta delta p) = isRecording p
   /\ audioRecorderRef (onTextDelta delta p) = audioRecorderRef p)
  /\ (status (onTurnComplete now p) = status p
      /\ isRecording (onTurnComplete now p) = isRecording p
      /\ audioRecorderRef (onTurnComplete now p) = audioRecorderRef p).
Proof.
  unfold onTextDelta, onTurnComplete.
  destruct (streamingTextRef p);
    cbn [setTranscript completeTurn status isRecording audioRecorderRef];
    auto 10.
Qed.

(** The three facts every action of the widget and every event keeps. *)
Lemma act_keeps (apiKeyEnv : option string) (a : ChatWidget.Action)
      (p : Provider) :
  status p <> ErrorStatus ->
  ChatWidget.flagMatchesRecorder p ->
  (isRecording p = true -> status p = Connected) ->
  let q := ChatWidget.act apiKeyEnv p a in
  status q <> ErrorStatus
  /\ ChatWidget.flagMatchesRecorder q
  /\ (isRecording q = true -> status q = Connected).
Proof.
  intros Hst Hflag Hrec. cbv zeta.
  assert (Hstopped : forall q,
             status q <> ErrorStatus ->
             status (stopRecording q) <> ErrorStatus
             /\ ChatWidget.flagMatchesRecorder (stopRecording q)
             /\ (isRecording (stopRecording q) = true ->
                 status (stopRecording q) = Connected)).
  { intros q Hq. destruct (stopRecording_fields q) as (H1 & H2 & H3).
    unfold ChatWidget.flagMatchesRecorder. rewrite H1, H2.
    split; [exact Hq|]. split; [exact H3 | discriminate]. }
  assert (Hdisc : forall q,
             status (LiveAPI.disconnect q) <> ErrorStatus
             /\ ChatWidget.flagMatchesRecorder (LiveAPI.disconnect q)
             /\ (isRecording (LiveAPI.disconnect q) = true ->
                 status (LiveAPI.disconnect q) = Connected)).
  { intros q. destruct (disconnect_fields q) as (H1 & H2 & H3).
    unfold ChatWidget.flagMatchesRecorder. rewrite H1, H2.
    split; [discriminate|]. split; [exact H3 | discriminate]. }
  assert (Hconn : status p = Disconnected ->
                  status (LiveAPI.connect apiKeyEnv p) <> ErrorStatus
                  /\ ChatWidget.flagMatchesRecorder
                       (LiveAPI.connect apiKeyEnv p)
                  /\ (isRecording (LiveAPI.connect apiKeyEnv p) = true ->
                      status (LiveAPI.connect apiKeyEnv p) = Connected)).
  { intros Hd. destruct (connect_fields apiKeyEnv p) as (H1 & H2 & H3).
    unfold ChatWidget.flagMatchesRecorder in *. rewrite H1, H2.
    split; [destruct H3 as [-> | ->]; [discriminate | exact Hst]|].
    split; [exact Hflag|].
    intros Hr. specialize (Hrec Hr). congruence. }
  assert (Hmic : status p = Connected ->
                 let q := if isRecording p then stopRecording p
                          else startRecording p in
                 status q <> ErrorStatus
                 /\ ChatWidget.flagMatchesRecorder q
                 /\ (isRecording q = true -> status q = Connected)).
  { intros Hc. cbv zeta. destruct (isRecording p) eqn:Hr.
    - apply Hstopped. exact Hst.
    - destruct (startRecording_fields p) as (H1 & H2).
      rewrite H1. split; [exact Hst|]. split; [|intros _; exact Hc].
      apply H2. exact Hflag. }
  destruct a as [| |now e|activeStore docs|];
    cbn [ChatWidget.act].
  - (* the connection button *)
    unfold ChatWidget.toggleConnection.
    destruct (status p) eqn:Hs; try apply Hdisc; try (apply Hconn; reflexivity).
    congruence.
  - (* the microphone button *)
    unfold ChatWidget.micButton, ChatWidget.toggleMic.
    destruct (status p) eqn:Hs.
    + apply Hconn. reflexivity.
    + rewrite Hs. split; [discriminate|]. split; [exact Hflag|].
      intros Hr. specialize (Hrec Hr). discriminate.
    + apply Hmic. reflexivity.
    + congruence.
  - (* an event of the client *)
    destruct e as [| |turn|delta| |call|err]; cbn [handle];
      try (split; [exact Hst | split; [exact Hflag | exact Hrec]]).
    + destruct (startRecording_fields (setStatus Connected p)) as (H1 & H2).
      rewrite H1. cbn [setStatus status].
      split; [discriminate|]. split; [|reflexivity].
      apply H2. exact Hflag.
    + apply Hstopped. cbn [setStatus status]. discriminate.
    + destruct (transcript_fields now EmptyString p)
        as (_ & (H1 & H2 & H3)).
      unfold ChatWidget.flagMatchesRecorder in *. rewrite H1, H2, H3.
      auto.
  - (* the store or the documents changed *)
    unfold rebuildClient.
    destruct (status p) eqn:Hs;
      try (cbn [setClient status isRecording]; rewrite ?Hs;
           split; [discriminate|]; split; [exact Hflag|];
           intros Hr; specialize (Hrec Hr); discriminate).
    + apply Hstopped. cbn [setStatus status]. discriminate.
    + congruence.
  - (* the effect's cleanup *)
    apply Hdisc.
Qed.

(** X22.  The provider under its buttons and events, when every start of
    the microphone settles before the next press or event arrives (each
    action is taken with the start it triggers run to its end, lemma
    startRecording_settled).  Whatever such sequence of button presses, client events, store
    changes and cleanups reaches a freshly mounted provider, whether or
    not there is a key and whether or not the microphone can be had: the
    status is never 'error'; the recording flag is up exactly when the
    recorder holds a stream, a context and both nodes, and down exactly
    when it holds none; and the flag is only up while the status is
    connected. *)
Theorem recording_flag_is_truthful (apiKeyEnv : option string)
        (actions : list ChatWidget.Action) (b : AudioRecorder.Browser) :
  let p := ChatWidget.run apiKeyEnv actions (initialProvider b) in
  status p <> ErrorStatus
  /\ (isRecording p = true -> ChatWidget.recorderRunning (audioRecorderRef p))
  /\ (isRecording p = false -> recorderIdle (audioRecorderRef p))
  /\ (isRecording p = true -> status p = Connected).
Proof.
  cbv zeta.
  assert (Hall : forall acts p,
             status p <> ErrorStatus ->
             ChatWidget.flagMatchesRecorder p ->
             (isRecording p = true -> status p = Connected) ->
             let q := ChatWidget.run apiKeyEnv acts p in
             status q <> ErrorStatus
             /\ ChatWidget.flagMatchesRecorder q
             /\ (isRecording q = true -> status q = Connected)).
  { induction acts as [|a acts IH]; intros p H1 H2 H3; cbv zeta.
    - cbn. auto.
    - unfold ChatWidget.run. cbn [fold_left].
      destruct (act_keeps apiKeyEnv a p H1 H2 H3) as (K1 & K2 & K3).
      exact (IH _ K1 K2 K3). }
  destruct (Hall actions (initialProvider b)) as (H1 & H2 & H3).
  - cbn. discriminate.
  - cbn. exact I.
  - cbn. discriminate.
  - unfold ChatWidget.flagMatchesRecorder in H2.
    split; [exact H1|]. split; [|split; [|exact H3]].
    + intros Hr. rewrite Hr in H2. exact H2.
    + intros Hr. rewrite Hr in H2. exact H2.
Qed.

End SessionFacts.

(* ===================================================================== *)
(** ** Listeners and outbound messages                                    *)
(* ===================================================================== *)

Section OutboundFacts.

Import ContextService.
Import GenAILiveClient.
Import LiveAPI.
Import LiveSend.
Local Open Scope string_scope.

Lemma emit_on (e' e : string) (f : nat) (m : Emitter.Listeners) :
  Emitter.emit e' (Emitter.on e f m)
  = if String.eqb e' e then (Emitter.emit e' m ++ [f])%list
    else Emitter.emit e' m.
Proof.
  unfold Emitter.on, Emitter.emit, Emitter.set.
  destruct (String.eqb e' e) eqn:He.
  - apply String.eqb_eq in He. subst e'.
    destruct (m e) as [fns|] eqn:Hm.
    + rewrite Hm, String.eqb_refl. reflexivity.
    + rewrite !String.eqb_refl. reflexivity.
  - destruct (m e) as [fns|] eqn:Hm.
    + rewrite Hm, He. reflexivity.
    + rewrite String.eqb_refl, He. reflexivity.
Qed.

Lemma emit_off (e' e : string) (f : nat) (m : Emitter.Listeners) :
  Emitter.emit e' (Emitter.off e f m)
  = if String.eqb e' e
    then filter (fun c => negb (Nat.eqb c f)) (Emitter.emit e' m)
    else Emitter.emit e' m.
Proof.
  unfold Emitter.off, Emitter.emit, Emitter.set.
  destruct (String.eqb e' e) eqn:He.
  - apply String.eqb_eq in He. subst e'.
    destruct (m e) as [fns|] eqn:Hm.
    + rewrite String.eqb_refl. reflexivity.
    + rewrite Hm. reflexivity.
  - destruct (m e) as [fns|] eqn:Hm.
    + rewrite He. reflexivity.
    + reflexivity.
Qed.

Lemma emit_register (regs : list (string * nat)) :
  forall (e : string) (m : Emitter.Listeners),
    Emitter.emit e (Emitter.register regs m)
    = (Emitter.emit e m
       ++ map snd (filter (fun r => String.eqb e (fst r)) regs))%list.
Proof.
  induction regs as [|[e0 f0] regs IH]; intros e m.
  - cbn. rewrite app_nil_r. reflexivity.
  - unfold Emitter.register in *. cbn [fold_left fst snd filter].
    rewrite IH, emit_on.
    destruct (String.eqb e e0); cbn [map snd];
      rewrite <- ?app_assoc; reflexivity.
Qed.

(** X23.  The listener table of the recorder and of the client.  [emit]
    calls the functions registered for the event in the order of their
    registration, once per registration; [off] removes every
    registration of the function for that event, not just one, keeps the
    others in order, and leaves the other events alone. *)
Theorem listeners_fire_in_registration_order :
  (forall (regs : list (string * nat)) (e : string),
      Emitter.emit e (Emitter.register regs Emitter.empty)
      = map snd (filter (fun r => String.eqb e (fst r)) regs))
  /\ (forall (m : Emitter.Listeners) (e e' : string) (f : nat),
         Emitter.emit e' (Emitter.off e f m)
         = if String.eqb e' e
           then filter (fun c => negb (Nat.eqb c f)) (Emitter.emit e' m)
           else Emitter.emit e' m)
  /\ (forall (m : Emitter.Listeners) (e : string) (f : nat),
         ~ In f (Emitter.emit e (Emitter.off e f m)))
  /\ (forall (m : Emitter.Listeners) (e : string) (f : nat),
         Emitter.emit e (Emitter.off e f (Emitter.on e f (Emitter.on e f m)))
         = Emitter.emit e (Emitter.off e f m)).
Proof.
  split; [|split; [|split]].
  - intros regs e. rewrite emit_register. reflexivity.
  - intros m e e' f. apply emit_off.
  - intros m e f Hin. rewrite emit_off, String.eqb_refl in Hin.
    apply filter_In in Hin. destruct Hin as [_ Hneq].
    rewrite Nat.eqb_refl in Hneq. discriminate.
  - intros m e f. rewrite !emit_off, !emit_on, !String.eqb_refl.
    rewrite !filter_app. cbn [filter]. rewrite Nat.eqb_refl. cbn [negb].
    rewrite !app_nil_r. reflexivity.
Qed.

Lemma sendRealtimeInput_open (chunks : list Chunk) (c : Client) (h : nat) :
  session c = Some h ->
  sendRealtimeInput chunks c
  = map (fun chunk => RealtimeInput (chunkMimeType chunk) (chunkData chunk))
        chunks.
Proof.
  intros Hs. unfold sendRealtimeInput. rewrite Hs.
  induction chunks as [|ch chunks IH]; [reflexivity|].
  cbn [flat_map map app]. rewrite IH. reflexivity.
Qed.

Lemma sendRealtimeInput_closed (chunks : list Chunk) (c : Client) :
  session c = None -> sendRealtimeInput chunks c = [].
Proof.
  intros Hs. unfold sendRealtimeInput. rewrite Hs.
  induction chunks as [|ch chunks IH]; [reflexivity | exact IH].
Qed.

(** X24.  Sending needs a session.  Through a client that was
    disconnected, or one that was just made and whose [connect] has not
    yet been answered, [sendText], [sendRealtimeInput] and
    [sendToolResponse] hand nothing to the transport and raise nothing;
    once the session is there, [sendRealtimeInput] makes one call per
    chunk, in order, and [sendText] marks its turn complete. *)
Theorem sends_need_a_session (c : Client) (cfg : LiveConfig)
        (apiKey : option string) (h : nat) (text response : string)
        (chunks : list Chunk) :
  let closed := GenAILiveClient.disconnect c in
  let pending := snd (GenAILiveClient.connect apiKey (newClient cfg)) in
  let opened := connected h c in
  (sendText text closed = [] /\ sendRealtimeInput chunks closed = []
   /\ sendToolResponse response closed = [])
  /\ (sendText text pending = [] /\ sendRealtimeInput chunks pending = []
      /\ sendToolResponse response pending = [])
  /\ sendText text opened = [ClientContent text true]
  /\ sendRealtimeInput chunks opened
     = map (fun chunk => RealtimeInput (chunkMimeType chunk)
                                       (chunkData chunk)) chunks
  /\ sendToolResponse response opened = [ToolResponse response].
Proof.
  cbv zeta.
  assert (Hpending : session (snd (GenAILiveClient.connect apiKey
                                     (newClient cfg))) = None).
  { unfold GenAILiveClient.connect.
    destruct apiKey as [[|a rest]|]; reflexivity. }
  split; [|split; [|split; [|split]]].
  - unfold sendText, sendToolResponse.
    rewrite sendRealtimeInput_closed by reflexivity. auto.
  - unfold sendText, sendToolResponse.
    rewrite sendRealtimeInput_closed by exact Hpending.
    rewrite Hpending. auto.
  - reflexivity.
  - apply (sendRealtimeInput_open chunks (connected h c) h). reflexivity.
  - reflexivity.
Qed.

(** X25.  A block of microphone input on its way out.  Each connected
    processor node turns the block into one ['data'] event, and the
    provider's listener turns each event into one realtime chunk of type
    audio/pcm;rate=16000 holding the encoded block: with a session open
    the block is sent once per connected processor node, and not at all
    without a client or a session. *)
Theorem microphone_block_per_processor (btoa : list Z -> string)
        (p : Provider) (inputData : list Js.number) :
  microphoneBlock btoa p inputData
  = match clientRef p with
    | Some c =>
        match session c with
        | Some _ =>
            repeat (RealtimeInput "audio/pcm;rate=16000"
                      (btoa (AudioRecorder.floatTo16BitPCM inputData)))
                   (List.length (AudioRecorder.processorNodes (browser p)))
        | None => []
        end
    | None => []
    end.
Proof.
  unfold microphoneBlock, AudioRecorder.audioProcess, onRecorderData.
  generalize (AudioRecorder.processorNodes (browser p)) as nodes.
  destruct (clientRef p) as [c|].
  - unfold sendRealtimeInput. destruct (session c).
    + induction nodes as [|node nodes IH]; [reflexivity|].
      cbn [map flat_map List.length repeat app chunkMimeType chunkData].
      cbn [map flat_map app chunkMimeType chunkData] in IH.
      rewrite IH. reflexivity.
    + induction nodes as [|node nodes IH]; [reflexivity|].
      cbn [map flat_map app]. exact IH.
  - induction nodes as [|node nodes IH]; [reflexivity|].
    cbn [map flat_map app]. exact IH.
Qed.

End OutboundFacts.

(* ===================================================================== *)
(** ** Data URLs and frames on their way out                              *)
(* ===================================================================== *)

Section FrameDeliveryFacts.

Import ScreenCapture.
Import ContextService.
Import GenAILiveClient.
Import LiveSend.
Import ContextInputs.
Local Open Scope string_scope.

Lemma splitComma_commaFree (s : string) :
  commaFree s = true -> splitComma s = [s].
Proof.
  induction s as [|c s IH]; intros Hfree; [reflexivity|].
  cbn [commaFree] in Hfree. apply andb_prop in Hfree.
  destruct Hfree as [Hc Hs]. cbn [splitComma].
  destruct (Ascii.eqb c ","%char); [discriminate|].
  rewrite (IH Hs). reflexivity.
Qed.

Lemma splitComma_prefix (prefix rest : string) :
  commaFree prefix = true ->
  splitComma (prefix ++ "," ++ rest) = prefix :: splitComma rest.
Proof.
  induction prefix as [|c s IH]; intros Hfree; [reflexivity|].
  cbn [commaFree] in Hfree. apply andb_prop in Hfree.
  destruct Hfree as [Hc Hs].
  change ((String c s) ++ "," ++ rest) with (String c (s ++ "," ++ rest)).
  cbn [splitComma].
  destruct (Ascii.eqb c ","%char); [discriminate|].
  rewrite (IH Hs). reflexivity.
Qed.

Lemma afterComma_commaFree (s : string) :
  commaFree s = true -> afterComma s = None.
Proof.
  induction s as [|c s IH]; intros Hfree; [reflexivity|].
  cbn [commaFree] in Hfree. apply andb_prop in Hfree.
  destruct Hfree as [Hc Hs]. cbn [afterComma].
  destruct (Ascii.eqb c ","%char); [discriminate | exact (IH Hs)].
Qed.

Lemma afterComma_prefix (prefix rest : string) :
  commaFree prefix = true ->
  afterComma (prefix ++ "," ++ rest) = Some rest.
Proof.
  induction prefix as [|c s IH]; intros Hfree; [reflexivity|].
  cbn [commaFree] in Hfree. apply andb_prop in Hfree.
  destruct Hfree as [Hc Hs].
  change ((String c s) ++ "," ++ rest) with (String c (s ++ "," ++ rest)).
  cbn [afterComma].
  destruct (Ascii.eqb c ","%char); [discriminate | exact (IH Hs)].
Qed.

(** Every string is a comma-free piece, or such a piece, a comma and a
    remainder. *)
Lemma first_comma (s : string) :
  commaFree s = true
  \/ exists prefix rest, commaFree prefix = true /\ s = prefix ++ "," ++ rest.
Proof.
  induction s as [|c s IH]; [left; reflexivity|].
  destruct (Ascii.eqb c ","%char) eqn:Hc.
  - right. exists "", s. apply Ascii.eqb_eq in Hc. subst c.
    split; reflexivity.
  - destruct IH as [Hfree | (prefix & rest & Hfree & ->)].
    + left. cbn [commaFree]. rewrite Hc, Hfree. reflexivity.
    + right. exists (String c prefix), rest. split; [|reflexivity].
      cbn [commaFree]. rewrite Hc, Hfree. reflexivity.
Qed.

(** X26.  The two ways the code strips the head of a data URL.
    [cleanBase64Data] gives everything after the first comma and leaves a
    string without comma as it is; the capture hook takes the piece
    between the first and the second comma and has nothing to take when
    there is no comma.  On a data URL whose payload has no comma, as
    base64 never has, both give the payload, and the payload passes
    through [cleanBase64Data] unchanged. *)
Theorem data_url_head_is_stripped (prefix payload : string) :
  commaFree prefix = true ->
  cleanBase64Data (prefix ++ "," ++ payload) = payload
  /\ cleanBase64Data prefix = prefix
  /\ nth_error (splitComma prefix) 1 = None
  /\ (exists piece tail,
         nth_error (splitComma (prefix ++ "," ++ payload)) 1 = Some piece
         /\ commaFree piece = true
         /\ payload = piece ++ tail
         /\ (commaFree payload = true -> tail = ""))
  /\ (commaFree payload = true ->
      nth_error (splitComma (prefix ++ "," ++ payload)) 1 = Some payload
      /\ cleanBase64Data payload = payload).
Proof.
  intros Hfree. unfold cleanBase64Data.
  rewrite (afterComma_prefix prefix payload Hfree).
  rewrite (afterComma_commaFree prefix Hfree).
  rewrite (splitComma_commaFree prefix Hfree).
  rewrite (splitComma_prefix prefix payload Hfree).
  cbn [nth_error].
  split; [reflexivity|]. split; [reflexivity|]. split; [reflexivity|].
  split.
  - destruct (first_comma payload) as [Hp | (piece & rest & Hpiece & ->)].
    + exists payload, "". rewrite (splitComma_commaFree payload Hp).
      cbn [nth_error]. split; [reflexivity|]. split; [exact Hp|].
      split; [|reflexivity].
      clear. induction payload as [|c s IH]; [reflexivity|].
      cbn. rewrite <- IH. reflexivity.
    + exists piece, ("," ++ rest).
      rewrite (splitComma_prefix piece rest Hpiece). cbn [nth_error].
      split; [reflexivity|]. split; [exact Hpiece|].
      split; [reflexivity|].
      intros Hall. exfalso.
      pose proof (afterComma_commaFree _ Hall) as Hnone.
      rewrite (afterComma_prefix piece rest Hpiece) in Hnone.
      discriminate.
  - intros Hp. rewrite (splitComma_commaFree payload Hp).
    rewrite (afterComma_commaFree payload Hp). split; reflexivity.
Qed.

Variable config : ScreenCaptureConfig.
Variable toDataURL : Canvas -> PixelBuffer -> Q -> string.

(** Where the [data] of a returned frame comes from. *)
Lemma captureFrame_data (env : Env) (h : Hook) (frame : CapturedFrame) :
  fst (captureFrame config toDataURL env h) = Some frame ->
  exists cv px q,
    data frame = nth_error (splitComma (toDataURL cv px q)) 1.
Proof.
  unfold captureFrame.
  destruct (video env) as [v|]; [|discriminate].
  destruct ((videoWidth v =? 0)%Z || (videoHeight v =? 0)%Z); [discriminate|].
  destruct (negb (ctxRef (getCanvas env h))); [discriminate|].
  destruct (previousFrameDataRef
              (resizeCanvas (videoWidth v) (videoHeight v)
                            (getCanvas env h))) as [previousData|].
  - destruct (Js.lt _ _); cbv beta iota zeta; cbn [fst]; [|discriminate].
    intros Hf. injection Hf as <-. cbn [data].
    do 3 eexists. reflexivity.
  - cbv beta iota zeta. cbn [fst]. intros Hf. injection Hf as <-.
    cbn [data]. do 3 eexists. reflexivity.
Qed.

(** X27.  A tick of the capture loop with App.tsx's [handleScreenFrame]
    behind it.  The tick sends at most one message; whatever it sends is
    one image/jpeg chunk with a non-empty payload, through a client with
    an open session, and for a frame the hook has counted.  A counted
    frame is not always sent: without a client or a session nothing
    goes out.  When the canvas encodes to a data URL with one comma and a
    non-empty payload and the session is open, every frame the loop
    delivers goes out with exactly that payload. *)
Theorem tick_sends_the_accepted_frame (client : option Client) (env : Env)
        (h : Hook) :
  let tick := captureTick config toDataURL client env h in
  let delivered := snd (runCaptureLoop config toDataURL true env h) in
  (List.length (snd tick) <= 1)%nat
  /\ (snd tick <> [] ->
      exists c payload,
        client = Some c /\ session c <> None /\ payload <> ""
        /\ snd tick = [RealtimeInput "image/jpeg" payload]
        /\ frameCountRef (fst tick) = frameCountRef h + 1)
  /\ ((forall c, client = Some c -> session c = None) -> snd tick = [])
  /\ (forall (c : Client) (handle : nat) (prefix payload : string),
         client = Some c -> session c = Some handle ->
         (forall cv px q, toDataURL cv px q = prefix ++ "," ++ payload) ->
         commaFree prefix = true -> commaFree payload = true ->
         payload <> "" ->
         delivered <> [] ->
         snd tick = [RealtimeInput "image/jpeg" payload]).
Proof.
  cbv zeta. unfold captureTick, runCaptureLoop.
  set (h0 := if Bool.eqb (idleTimeoutMs config <? now env - lastActivityRef h)%Z
                         (isIdle h)
             then h else _).
  assert (Hcount : frameCountRef h0 = frameCountRef h).
  { subst h0. destruct (Bool.eqb _ _); reflexivity. }
  pose proof (captureFrame_counters config toDataURL env h0) as Hcounters.
  cbv zeta in Hcounters. destruct Hcounters as (Hframes & _).
  pose proof (captureFrame_data env h0) as Hdata.
  destruct (captureFrame config toDataURL env h0) as [[frame|] h'].
  - cbn [fst snd flat_map] in *. rewrite app_nil_r.
    specialize (Hdata frame eq_refl). destruct Hdata as (cv & px & q & Hdata).
    unfold handleScreenFrame.
    destruct client as [c|]; [|cbn; split; [lia|];
      split; [congruence|]; split; [reflexivity|];
      intros; discriminate].
    destruct (data frame) as [[|a rest]|] eqn:Hd.
    + cbn [List.length]. split; [lia|]. split; [congruence|].
      split; [reflexivity|].
      intros c0 handle prefix payload _ _ Hurl Hpre Hpay Hne _.
      exfalso. rewrite Hurl in Hdata.
      rewrite (splitComma_prefix prefix payload Hpre) in Hdata.
      rewrite (splitComma_commaFree payload Hpay) in Hdata.
      cbn [nth_error] in Hdata. congruence.
    + unfold sendRealtimeInput.
      cbn [flat_map chunkMimeType chunkData]. rewrite app_nil_r.
      destruct (session c) as [hnd|] eqn:Hs.
      * cbn [List.length]. split; [lia|]. split.
        { intros _. exists c, (String a rest).
          split; [reflexivity|]. split; [congruence|].
          split; [discriminate|]. split; [reflexivity|].
          rewrite Hframes, Hcount. reflexivity. }
        split.
        { intros Hnone. specialize (Hnone c eq_refl). congruence. }
        intros c0 handle prefix payload _ _ Hurl Hpre Hpay Hne _.
        rewrite Hurl in Hdata.
        rewrite (splitComma_prefix prefix payload Hpre) in Hdata.
        rewrite (splitComma_commaFree payload Hpay) in Hdata.
        cbn [nth_error] in Hdata. injection Hdata as <-. reflexivity.
      * cbn [List.length]. split; [lia|]. split; [congruence|].
        split; [reflexivity|].
        intros c0 handle prefix payload Hc0 Hopen.
        injection Hc0 as <-. congruence.
    + cbn [List.length]. split; [lia|]. split; [congruence|].
      split; [reflexivity|].
      intros c0 handle prefix payload _ _ Hurl Hpre Hpay Hne _.
      exfalso. rewrite Hurl in Hdata.
      rewrite (splitComma_prefix prefix payload Hpre) in Hdata.
      rewrite (splitComma_commaFree payload Hpay) in Hdata.
      cbn [nth_error] in Hdata. congruence.
  - cbn [fst snd flat_map List.length].
    split; [lia|]. split; [congruence|]. split; [reflexivity|].
    intros c handle prefix payload _ _ _ _ _ _ Hdel. congruence.
Qed.

End FrameDeliveryFacts.

(* ===================================================================== *)
(** ** The credential and the request builder                             *)
(* ===================================================================== *)

Section RequestFacts.

Import ContextService.
Import LiveAPI.
Import ContextInputs.
Local Open Scope string_scope.

Lemma noneOf_stripQuotes (s : string) :
  noneOf isQuote (stripQuotes s) = true.
Proof.
  induction s as [|c s IH]; [reflexivity|].
  cbn [stripQuotes]. destruct (isQuote c) eqn:Hc; [exact IH|].
  cbn [noneOf]. rewrite Hc, IH. reflexivity.
Qed.

Lemma stripQuotes_clean (s : string) :
  noneOf isQuote s = true -> stripQuotes s = s.
Proof.
  induction s as [|c s IH]; intros Hs; [reflexivity|].
  cbn [noneOf] in Hs. apply andb_prop in Hs. destruct Hs as [Hc Hs].
  cbn [stripQuotes]. destruct (isQuote c); [discriminate|].
  rewrite (IH Hs). reflexivity.
Qed.

Lemma noneOf_trimStart (f : ascii -> bool) (s : string) :
  noneOf f s = true -> noneOf f (trimStart s) = true.
Proof.
  induction s as [|c s IH]; intros Hs; [reflexivity|].
  cbn [trimStart]. destruct (isSpace c); [|exact Hs].
  cbn [noneOf] in Hs. apply andb_prop in Hs. apply IH, Hs.
Qed.

Lemma noneOf_trimEnd (f : ascii -> bool) (s : string) :
  noneOf f s = true -> noneOf f (trimEnd s) = true.
Proof.
  induction s as [|c s IH]; intros Hs; [reflexivity|].
  cbn [noneOf] in Hs. apply andb_prop in Hs. destruct Hs as [Hc Hs].
  specialize (IH Hs). cbn [trimEnd].
  destruct (trimEnd s) as [|c' s'].
  - destruct (isSpace c); [reflexivity|]. cbn [noneOf]. rewrite Hc.
    reflexivity.
  - cbn [noneOf] in *. rewrite Hc, IH. reflexivity.
Qed.

Lemma firstChar_trimStart (s : string) (a : ascii) :
  firstChar (trimStart s) = Some a -> isSpace a = false.
Proof.
  induction s as [|c s IH]; [discriminate|].
  cbn [trimStart]. destruct (isSpace c) eqn:Hc; [exact IH|].
  cbn [firstChar]. intros Ha. injection Ha as <-. exact Hc.
Qed.

Lemma firstChar_trimEnd (s : string) (a : ascii) :
  firstChar (trimEnd s) = Some a -> firstChar s = Some a.
Proof.
  destruct s as [|c s]; [discriminate|].
  cbn [trimEnd]. destruct (trimEnd s) as [|c' s'].
  - destruct (isSpace c); [discriminate | auto].
  - auto.
Qed.

Lemma lastChar_trimEnd (s : string) (z : ascii) :
  lastChar (trimEnd s) = Some z -> isSpace z = false.
Proof.
  induction s as [|c s IH]; [discriminate|].
  cbn [trimEnd]. destruct (trimEnd s) as [|c' s'].
  - destruct (isSpace c) eqn:Hc; [discriminate|].
    cbn [lastChar]. intros Hz. injection Hz as <-. exact Hc.
  - cbn [lastChar]. exact IH.
Qed.

Lemma trimStart_clean (s : string) :
  (forall a, firstChar s = Some a -> isSpace a = false) -> trimStart s = s.
Proof.
  destruct s as [|c s]; intros Hs; [reflexivity|].
  cbn [trimStart]. rewrite (Hs c eq_refl). reflexivity.
Qed.

Lemma trimEnd_clean (s : string) :
  (forall z, lastChar s = Some z -> isSpace z = false) -> trimEnd s = s.
Proof.
  induction s as [|c s IH]; intros Hs; [reflexivity|].
  cbn [trimEnd]. destruct s as [|c' s'].
  - cbn [trimEnd]. rewrite (Hs c eq_refl). reflexivity.
  - rewrite IH; [reflexivity|]. intros z Hz. apply Hs. exact Hz.
Qed.

(** X28.  The key [getApiKey] hands on.  Whatever the environment
    holds, the key has no single or double quote left and neither begins
    nor ends with white space; cleaning a cleaned key changes nothing;
    and without a variable there is no key. *)
Theorem api_key_is_cleaned (k : string) :
  let key := trimEnd (trimStart (stripQuotes k)) in
  getApiKey (Some k) = Some key
  /\ noneOf isQuote key = true
  /\ trimmed key = true
  /\ getApiKey (Some key) = Some key
  /\ getApiKey None = None.
Proof.
  cbv zeta. set (key := trimEnd (trimStart (stripQuotes k))).
  assert (Hquotes : noneOf isQuote key = true).
  { apply noneOf_trimEnd, noneOf_trimStart, noneOf_stripQuotes. }
  assert (Hfirst : forall a, firstChar key = Some a -> isSpace a = false).
  { intros a Ha. apply firstChar_trimEnd in Ha.
    exact (firstChar_trimStart _ _ Ha). }
  assert (Hlast : forall z, lastChar key = Some z -> isSpace z = false).
  { intros z Hz. exact (lastChar_trimEnd _ _ Hz). }
  split; [reflexivity|]. split; [exact Hquotes|]. split.
  - unfold trimmed.
    destruct (firstChar key) as [a|]; [|reflexivity].
    destruct (lastChar key) as [z|]; [|reflexivity].
    rewrite (Hfirst a eq_refl), (Hlast z eq_refl). reflexivity.
  - split; [|reflexivity]. unfold getApiKey.
    rewrite (stripQuotes_clean key Hquotes).
    rewrite (trimStart_clean key Hfirst).
    rewrite (trimEnd_clean key Hlast). reflexivity.
Qed.

Lemma lastSix_length (l : list Message) :
  (List.length (lastSix l) = Nat.min (List.length l) 6)%nat.
Proof. unfold lastSix. rewrite length_skipn. lia. Qed.

Lemma lastSix_idempotent (l : list Message) : lastSix (lastSix l) = lastSix l.
Proof.
  unfold lastSix at 1. rewrite lastSix_length.
  replace (Nat.min (List.length l) 6 - 6)%nat with 0%nat by lia.
  reflexivity.
Qed.

Lemma historyContextOf_window (h : list Message) :
  historyContextOf (Some h) = historyContextOf (Some (lastSix h)).
Proof.
  destruct h as [|m ms]; [reflexivity|].
  pose proof (lastSix_length (m :: ms)) as Hlen.
  pose proof (lastSix_idempotent (m :: ms)) as Hidem.
  destruct (lastSix (m :: ms)) as [|m' ms'] eqn:Hsix.
  - cbn [List.length] in Hlen. lia.
  - unfold historyContextOf. rewrite Hsix, Hidem. reflexivity.
Qed.

(** X29.  The history window.  Only the last six messages of the
    history reach the model: cutting the history down to them beforehand
    changes neither the parts, nor the tools, nor the system
    instruction.  The metadata still counts the whole history, and an
    empty history reads as none. *)
Theorem history_window (input : ContextInput) (h : list Message) :
  let full := buildContextualRequest (withHistory (Some h) input) in
  let recent := buildContextualRequest (withHistory (Some (lastSix h)) input) in
  let none := buildContextualRequest (withHistory None input) in
  parts full = parts recent
  /\ tools full = tools recent
  /\ systemInstruction full = systemInstruction recent
  /\ historyLength (metadata full) = List.length h
  /\ historyLength (metadata recent) = Nat.min (List.length h) 6
  /\ parts (buildContextualRequest (withHistory (Some []) input)) = parts none.
Proof.
  cbv zeta. unfold buildContextualRequest.
  cbn [withHistory parts tools systemInstruction metadata historyLength
       query source screenImage sketchImage attachments history ragStore
       documents metadataFilter].
  rewrite <- (historyContextOf_window h), lastSix_length.
  repeat split; reflexivity.
Qed.

Lemma attachmentParts_shape (l : list Attachment) :
  forallb isImagePart (attachmentParts l) = true
  /\ List.length (attachmentParts l)
     = List.length (filter isImageAttachment l).
Proof.
  induction l as [|a l [IH1 IH2]]; [split; reflexivity|].
  cbn [attachmentParts filter]. unfold isImageAttachment at 1.
  destruct (attType a).
  - cbn [forallb List.length]. rewrite IH1, IH2. split; reflexivity.
  - split; assumption.
Qed.

(** X30.  The shape of a built request.  The parts are inline images
    followed by exactly one text part, which comes last and ends with
    the query; there is one image for a non-empty screen capture, one
    for a non-empty sketch and one per image attachment, video
    attachments being dropped.  The metadata's RAG flag is what
    [isRagAvailable] answers for the same store and documents, and a
    metadata filter appears only inside a file-search tool and only when
    it is not empty. *)
Theorem request_shape (input : ContextInput) :
  let request := buildContextualRequest input in
  let given :=
    match attachments input with Some l => l | None => [] end in
  let textPart :=
    {| partText := Some (historyContextOf (history input)
                         ++ "User Request: " ++ query input);
       inlineData := None |} in
  (exists images,
      parts request = (images ++ [textPart])%list
      /\ forallb isImagePart images = true
      /\ List.length images
         = ((if truthy (screenImage input) then 1 else 0)
            + (if truthy (sketchImage input) then 1 else 0)
            + List.length (filter isImageAttachment given))%nat)
  /\ metaHasRagContext (metadata request)
     = isRagAvailable (ragStore input) (documents input)
  /\ (forall tool search filter,
         In tool (tools request) -> fileSearch tool = Some search ->
         fileSearchFilter search = Some filter ->
         metaHasRagContext (metadata request) = true
         /\ metadataFilter input = Some filter /\ filter <> "").
Proof.
  cbv zeta. unfold buildContextualRequest.
  cbn [parts tools metadata metaHasRagContext].
  split; [|split].
  - set (screenParts := if truthy (screenImage input) then _ else _).
    set (sketchParts := if truthy (sketchImage input) then _ else _).
    set (extraParts := match attachments input with
                       | Some l => attachmentParts l
                       | None => []
                       end).
    exists (screenParts ++ sketchParts ++ extraParts)%list.
    split; [rewrite <- !app_assoc; reflexivity|].
    assert (Hscreen : forallb isImagePart screenParts = true
                      /\ List.length screenParts
                         = if truthy (screenImage input) then 1%nat
                           else 0%nat).
    { subst screenParts. destruct (screenImage input) as [[|a r]|];
        split; reflexivity. }
    assert (Hsketch : forallb isImagePart sketchParts = true
                      /\ List.length sketchParts
                         = if truthy (sketchImage input) then 1%nat
                           else 0%nat).
    { subst sketchParts. destruct (sketchImage input) as [[|a r]|];
        split; reflexivity. }
    assert (Hextra : forallb isImagePart extraParts = true
                     /\ List.length extraParts
                        = List.length
                            (filter isImageAttachment
                               match attachments input with
                               | Some l => l
                               | None => []
                               end)).
    { subst extraParts. destruct (attachments input) as [l|];
        [apply attachmentParts_shape | split; reflexivity]. }
    destruct Hscreen as [S1 S2], Hsketch as [K1 K2], Hextra as [E1 E2].
    rewrite !forallb_app, !length_app, S1, S2, K1, K2, E1, E2.
    split; [reflexivity | lia].
  - unfold isRagAvailable.
    destruct (ragStore input), (documents input); reflexivity.
  - intros tool search flt Hin Hsearch Hfilter.
    destruct (ragStore input) as [store|].
    + destruct (match documents input with
                | Some docs => existsb isReady docs
                | None => false
                end).
      * destruct Hin as [<- | []]. cbn [fileSearch] in Hsearch.
        injection Hsearch as <-. cbn [fileSearchFilter] in Hfilter.
        destruct (metadataFilter input) as [[|a r]|];
          cbn [truthy] in Hfilter; try discriminate.
        injection Hfilter as <-. repeat split. discriminate.
      * destruct Hin as [<- | []]. discriminate.
    + destruct Hin as [<- | []]. discriminate.
Qed.

End RequestFacts.

(* ===================================================================== *)
(** ** The microphone start and what may fall into it                     *)
(* ===================================================================== *)

Section PendingStartFacts.

Import GenAILiveClient.
Import LiveAPI.
Import Session.
Import PendingStart.
Local Open Scope string_scope.

(** [start()] is its check of the environment followed by [resume]. *)
Lemma start_then_resume (r : AudioRecorder.Recorder)
      (b : AudioRecorder.Browser) :
  AudioRecorder.start r b
  = if negb (AudioRecorder.mediaDevices b)
    then (inr AudioRecorder.InsecureContext, r, b)
    else resume r b.
Proof.
  unfold AudioRecorder.start, resume.
  destruct (negb (AudioRecorder.mediaDevices b)); reflexivity.
Qed.

(** The one-step start is the two halves with nothing in between. *)
Lemma startRecording_settled (p : Provider) :
  settle (begin {| provider := p; pending := 0 |})
  = {| provider := startRecording p; pending := 0 |}.
Proof.
  unfold begin, startRecording. cbn [provider pending].
  destruct (match audioContextRef p with
            | Some c => (c, browser p)
            | None => openPlaybackContext (browser p)
            end) as [ctx b1] eqn:Hctx.
  assert (Hdev : AudioRecorder.mediaDevices b1
                 = AudioRecorder.mediaDevices (browser p)).
  { destruct (audioContextRef p); injection Hctx as _ <-; reflexivity. }
  rewrite start_then_resume.
  destruct (negb (AudioRecorder.mediaDevices b1)) eqn:Hneg.
  - unfold settle. cbn [pending]. reflexivity.
  - unfold settle.
    cbn [pending provider setAudio audioRecorderRef browser audioContextRef
         audioStreamerRef].
    destruct (resume _ b1) as [[[u|e] rec'] b2]; reflexivity.
Qed.

(** A session that opens is the open event followed at once by the
    settling of the start it triggers. *)
Lemma open_settled (now : Z) (p : Provider) :
  settle (deliverEvent now Open {| provider := p; pending := 0 |})
  = {| provider := handle now p Open; pending := 0 |}.
Proof.
  unfold deliverEvent. cbn [provider pending handle].
  apply startRecording_settled.
Qed.

(** When the close falls between the two halves instead, it finds
    nothing to stop, and the start that settles afterwards leaves a live
    stream and the recording flag up on a disconnected provider. *)
Example close_before_the_start_settles :
  let mounted := {| provider := initialProvider (freshBrowser true true);
                    pending := 0 |} in
  let final :=
    settle (deliverEvent 20 Close (deliverEvent 10 Open mounted)) in
  status (provider final) = Disconnected
  /\ isRecording (provider final) = true
  /\ AudioRecorder.liveStreams (browser (provider final)) = [1%nat]
  /\ AudioRecorder.processorNodes (browser (provider final)) = [4%nat]
  /\ pending final = 0%nat.
Proof. cbv zeta. repeat split; reflexivity. Qed.

End PendingStartFacts.

(* ===================================================================== *)
(** ** The further properties on concrete inputs                          *)
(* ===================================================================== *)

Lemma first_frame_after_disable_witness :
  let result :=
    ScreenCapture.captureFrame Scenario.appConfig Scenario.jpegStub
      (Scenario.showing 1)
      (ScreenCapture.resetOnDisable Scenario.runningHook) in
  ScreenCapture.frameCountRef (snd result) = 1
  /\ ScreenCapture.skippedCountRef (snd result) = 0
  /\ ScreenCapture.previousFrameDataRef (snd result)
     = Some (Scenario.frameWith 1).
Proof.
  cbv zeta.
  assert (Hreach : ScreenCapture.reachesComparison
                     (Scenario.showing 1) Scenario.runningHook
                     (Scenario.screen 1)).
  { repeat split; try reflexivity; vm_compute; discriminate. }
  destruct (first_frame_after_disable Scenario.appConfig Scenario.jpegStub
              (Scenario.showing 1) Scenario.runningHook (Scenario.screen 1)
              Hreach) as (_ & Hcount & _ & Hskipped & _ & Hprevious).
  split; [exact Hcount|]. split; [exact Hskipped | exact Hprevious].
Defined.

Lemma cadence_follows_activity_witness :
  ScreenCapture.isIdle
    (CaptureLoop.handleActivity Scenario.appConfig 1200 Scenario.runningHook)
  = false
  /\ CaptureLoop.cadenceConsistent Scenario.appConfig
       (fst (ScreenCapture.runCaptureLoop Scenario.appConfig
               Scenario.jpegStub true (Scenario.showing 1)
               Scenario.runningHook)).
Proof.
  destruct (cadence_follows_activity Scenario.appConfig Scenario.jpegStub
              true (Scenario.showing 1) Scenario.runningHook 1200 eq_refl)
    as (_ & Hidle & _ & _ & Htick & _).
  split; [exact Hidle | exact Htick].
Defined.

Lemma tolerated_change_is_invisible_witness :
  Js.eqb (ScreenCapture.compareFrames Scenario.appConfig
            [5; 5; 5; 255; 3; 10; 0; 255] [0; 0; 0; 255; 0; 0; 0; 0] 2 1)
         (Js.Fin 1) = true
  /\ Js.lt (ScreenCapture.compareFrames Scenario.appConfig
              [5; 5; 5; 255; 3; 10; 0; 255] [0; 0; 0; 255; 0; 0; 0; 0] 2 1)
           (ScreenCapture.diffThreshold Scenario.appConfig) = false.
Proof.
  assert (Hall : Js.eqb (ScreenCapture.compareFrames Scenario.appConfig
                           [5; 5; 5; 255; 3; 10; 0; 255]
                           [0; 0; 0; 255; 0; 0; 0; 0] 2 1) (Js.Fin 1) = true
                 /\ forall t : Q, (t <= 1)%Q ->
                      Js.lt (ScreenCapture.compareFrames Scenario.appConfig
                               [5; 5; 5; 255; 3; 10; 0; 255]
                               [0; 0; 0; 255; 0; 0; 0; 0] 2 1) (Js.Fin t)
                      = false);
    [|destruct Hall as [Hone Hbelow]; split;
      [exact Hone | apply (Hbelow (92 # 100)); discriminate]].
  refine ((fun H => conj (proj1 H) (proj1 (proj2 (proj2 H)))) _).
  apply (tolerated_change_is_invisible Scenario.appConfig
           [5; 5; 5; 255; 3; 10; 0; 255] [0; 0; 0; 255; 0; 0; 0; 0] 2 1).
  - reflexivity.
  - lia.
  - lia.
  - reflexivity.
  - reflexivity.
  - intros i Hi Hmod. cbn [List.length] in Hi.
    assert (Hcases : i = 0 \/ i = 1 \/ i = 2 \/ i = 3 \/ i = 4 \/ i = 5
                     \/ i = 6 \/ i = 7) by lia.
    destruct Hcases as [-> | [-> | [-> | [-> | [-> | [-> | [-> | ->]]]]]]];
      vm_compute; try discriminate; exfalso; apply Hmod; reflexivity.
Defined.

Lemma decoder_accepts_even_chunks_witness :
  exists ys,
    AudioStreamer.pcm16ToFloat PlaybackScenario.chunkA = Some ys
    /\ (2 * List.length ys = List.length PlaybackScenario.chunkA)%nat.
Proof.
  assert (Hbytes : Forall Pcm.isByte PlaybackScenario.chunkA).
  { repeat constructor; vm_compute; discriminate. }
  destruct (decoder_accepts_even_chunks PlaybackScenario.chunkA Hbytes)
    as [Heven _].
  destruct (Heven eq_refl) as (ys & Hys & Hlen & _).
  exists ys. split; [exact Hys | exact Hlen].
Defined.

Lemma reencoding_lowers_positive_samples_witness :
  AudioRecorder.sampleToInt16 (Js.Fin (inject_Z 100 / 32768)) = 99
  /\ AudioRecorder.sampleToInt16 (Js.Fin (inject_Z (-100) / 32768)) = -100.
Proof.
  split.
  - apply (reencoding_lowers_positive_samples 100).
    split; vm_compute; discriminate.
  - apply (reencoding_lowers_positive_samples (-100)).
    split; vm_compute; discriminate.
Defined.

Lemma playback_never_overlaps_witness :
  exists w,
    AudioStreamer.play 0 PlaybackScenario.burst = Some w
    /\ PlaybackLog.noOverlap (AudioStreamer.started w).
Proof.
  pose (w := match AudioStreamer.play 0 PlaybackScenario.burst with
             | Some x => x
             | None => AudioStreamer.newWorld 0
             end).
  assert (Hplay : AudioStreamer.play 0 PlaybackScenario.burst = Some w)
    by (vm_compute; reflexivity).
  exists w. split; [exact Hplay|].
  exact (playback_never_overlaps 0 PlaybackScenario.burst w Hplay).
Defined.

Lemma playback_is_fifo_witness :
  exists w bufs,
    AudioStreamer.play 0 PlaybackScenario.starved = Some w
    /\ SpecPlayback.decodes (map snd PlaybackScenario.starved) bufs
    /\ (map snd (AudioStreamer.started w)
        ++ AudioStreamer.audioQueue (AudioStreamer.streamer w))%list = bufs.
Proof.
  pose (w := match AudioStreamer.play 0 PlaybackScenario.starved with
             | Some x => x
             | None => AudioStreamer.newWorld 0
             end).
  assert (Hplay : AudioStreamer.play 0 PlaybackScenario.starved = Some w)
    by (vm_compute; reflexivity).
  assert (Hchunks : Forall (fun a : Z * list Z => snd a <> [])
                           PlaybackScenario.starved).
  { repeat constructor; discriminate. }
  destruct (playback_is_fifo 0 PlaybackScenario.starved w Hchunks Hplay)
    as (bufs & Hdec & Horder).
  exists w, bufs. split; [exact Hplay|]. split; [exact Hdec | exact Horder].
Defined.

Lemma starved_streamer_never_resumes_witness :
  exists w wf,
    AudioStreamer.play 0 [(0, PlaybackScenario.chunkA)] = Some w
    /\ fold_left AudioStreamer.arrive [(5000, PlaybackScenario.chunkC)]
                 (Some w) = Some wf
    /\ AudioStreamer.audioQueue (AudioStreamer.streamer wf) <> []
    /\ AudioStreamer.started
         (AudioStreamer.drain (AudioStreamer.enoughFuel wf) wf)
       = AudioStreamer.started w.
Proof.
  pose (w := match AudioStreamer.play 0 [(0, PlaybackScenario.chunkA)] with
             | Some x => x
             | None => AudioStreamer.newWorld 0
             end).
  pose (wf := match fold_left AudioStreamer.arrive
                              [(5000, PlaybackScenario.chunkC)] (Some w) with
              | Some x => x
              | None => w
              end).
  assert (Hplay : AudioStreamer.play 0 [(0, PlaybackScenario.chunkA)]
                  = Some w) by (vm_compute; reflexivity).
  assert (Hlate : fold_left AudioStreamer.arrive
                            [(5000, PlaybackScenario.chunkC)] (Some w)
                  = Some wf) by (vm_compute; reflexivity).
  destruct (starved_streamer_never_resumes 0 (0, PlaybackScenario.chunkA)
              [] [(5000, PlaybackScenario.chunkC)] w wf Hplay Hlate)
    as (_ & _ & _ & Hsame).
  exists w, wf. split; [exact Hplay|]. split; [exact Hlate|].
  split; [vm_compute; discriminate | exact Hsame].
Defined.

Lemma start_then_stop_releases_witness :
  let b := LiveAPI.freshBrowser true true in
  let started := AudioRecorder.start AudioRecorder.newRecorder b in
  let stopped := AudioRecorder.stop (snd (fst started)) (snd started) in
  AudioRecorder.liveStreams (snd started) = [0%nat]
  /\ AudioRecorder.liveStreams (snd stopped) = []
  /\ AudioRecorder.processorNodes (snd stopped) = [].
Proof.
  cbv zeta.
  assert (Hgranted : Session.microphoneGranted (LiveAPI.freshBrowser true true))
    by (split; reflexivity).
  assert (Hnumbered : Session.wellNumbered (LiveAPI.freshBrowser true true))
    by constructor.
  destruct (start_then_stop_releases AudioRecorder.newRecorder
              (LiveAPI.freshBrowser true true) Hgranted Hnumbered)
    as (_ & Hstreams & _ & _ & Hnodes & _).
  split; [reflexivity|]. split; [exact Hstreams | exact Hnodes].
Defined.

Lemma sessions_do_not_leak_witness :
  let p := LiveAPI.initialProvider (LiveAPI.freshBrowser true true) in
  let final :=
    LiveAPI.deliver
      [(10, GenAILiveClient.Open); (20, GenAILiveClient.Close);
       (30, GenAILiveClient.Open); (40, GenAILiveClient.Close)] p in
  List.length (AudioRecorder.liveStreams
                 (LiveAPI.browser (LiveAPI.handle 10 p GenAILiveClient.Open)))
  = 1%nat
  /\ AudioRecorder.liveStreams (LiveAPI.browser final) = []
  /\ LiveAPI.status final = LiveAPI.Disconnected
  /\ LiveAPI.isRecording final = false.
Proof.
  cbv zeta.
  assert (Hgranted : Session.microphoneGranted (LiveAPI.freshBrowser true true))
    by (split; reflexivity).
  assert (Hnumbered : Session.wellNumbered (LiveAPI.freshBrowser true true))
    by constructor.
  destruct (sessions_do_not_leak [(30, 40)]
              (LiveAPI.initialProvider (LiveAPI.freshBrowser true true))
              10 20 Hgranted Hnumbered)
    as (_ & _ & Hopened & Hstreams & _ & _ & Hstatus & Hflag).
  split; [exact Hopened|]. split; [exact Hstreams|].
  split; [exact Hstatus | exact Hflag].
Defined.

Lemma recording_refused_witness :
  let p := LiveAPI.initialProvider (LiveAPI.freshBrowser true false) in
  let opened := LiveAPI.handle 0 p GenAILiveClient.Open in
  LiveAPI.status opened = LiveAPI.Connected
  /\ LiveAPI.isRecording opened = false
  /\ LiveAPI.error opened
     = Some "Failed to access microphone. Please check permissions."%string.
Proof.
  cbv zeta.
  assert (Hrefused : ~ Session.microphoneGranted
                       (LiveAPI.browser
                          (LiveAPI.initialProvider
                             (LiveAPI.freshBrowser true false)))).
  { intros [_ Hmic]. discriminate Hmic. }
  destruct (recording_refused
              (LiveAPI.initialProvider (LiveAPI.freshBrowser true false))
              0 Hrefused) as (Hstatus & Hflag & Herror & _).
  split; [exact Hstatus|]. split; [exact Hflag | exact Herror].
Defined.

Lemma reconfigure_then_connect_witness :
  let p := LiveAPI.initialProvider (LiveAPI.freshBrowser true true) in
  let p' := LiveAPI.connect (Some " 'abc' "%string)
              (LiveAPI.rebuildClient None [] p) in
  LiveAPI.status p' = LiveAPI.ConnectingStatus
  /\ map GenAILiveClient.reqApiKey (LiveAPI.transport p') = ["abc"%string].
Proof.
  cbv zeta.
  destruct (reconfigure_then_connect None [] (Some " 'abc' "%string)
              (LiveAPI.initialProvider (LiveAPI.freshBrowser true true))
              "a"%char "bc"%string eq_refl)
    as (Hstatus & Htransport & _).
  split; [exact Hstatus|]. rewrite Htransport. reflexivity.
Defined.

Lemma data_url_head_is_stripped_witness :
  ContextService.cleanBase64Data
    "data:image/jpeg;base64,/9j/4AAQSkZJRg=="%string
  = "/9j/4AAQSkZJRg=="%string
  /\ nth_error (ScreenCapture.splitComma
                  "data:image/jpeg;base64,/9j/4AAQSkZJRg=="%string) 1
     = Some "/9j/4AAQSkZJRg=="%string.
Proof.
  destruct (data_url_head_is_stripped "data:image/jpeg;base64"%string
              "/9j/4AAQSkZJRg=="%string eq_refl)
    as (Hclean & _ & _ & _ & Hsplit).
  destruct (Hsplit eq_refl) as [Hpiece _].
  split; [exact Hclean | exact Hpiece].
Defined.

Lemma message_with_text_completes_a_turn_witness :
  let msg :=
    {| GenAILiveClient.modelTurn :=
         Some [ {| GenAILiveClient.partTextOf := Some "Hel"%string;
                   GenAILiveClient.partInline := None |};
                {| GenAILiveClient.partTextOf := Some "lo"%string;
                   GenAILiveClient.partInline := None |} ];
       GenAILiveClient.turnComplete := true;
       GenAILiveClient.toolCall := None |} in
  let p' :=
    LiveAPI.deliver (Session.received 7 msg)
      (LiveAPI.initialProvider (LiveAPI.freshBrowser true true)) in
  map LiveAPI.turnText (LiveAPI.completedTurns p') = ["Hello"%string]
  /\ map LiveAPI.id (LiveAPI.completedTurns p') = ["live-turn-1"%string]
  /\ LiveAPI.isStreaming p' = false.
Proof.
  cbv zeta.
  destruct (message_with_text_completes_a_turn
              {| GenAILiveClient.modelTurn :=
                   Some [ {| GenAILiveClient.partTextOf := Some "Hel"%string;
                             GenAILiveClient.partInline := None |};
                          {| GenAILiveClient.partTextOf := Some "lo"%string;
                             GenAILiveClient.partInline := None |} ];
                 GenAILiveClient.turnComplete := true;
                 GenAILiveClient.toolCall := None |}
              7 (LiveAPI.initialProvider (LiveAPI.freshBrowser true true)))
    as [_ Hturn].
  destruct (Hturn eq_refl eq_refl eq_refl eq_refl) as (Hturns & Hstream & _).
  rewrite Hturns. split; [reflexivity|]. split; [reflexivity | exact Hstream].
Defined.
